(** * Ingestion engine of the personal data hub

    A shallow embedding of [api/collectors/base.py] (the upsert engine, the
    insertion of immutable records, the sync-state tracker and the collector
    orchestrator), of the tables of [api/models.py] they write, and of the
    webhook normaliser of [api/collectors/example_health.py]; with them, the
    API-key middleware of [api/main.py] and the CORS origins of
    [api/config.py].

    Python code that threads a database session and may raise is written in
    a state-and-exception monad over [session].  The relational store is the
    engine's external collaborator: a statement is given the meaning
    PostgreSQL gives it (one atomic step on a table), and the session keeps
    the trace of the calls made on it.

    What the embedding fixes:
    - a record handed to the engine is a dict whose keys are columns of
      [DataItem] and whose values have the columns' types; a key may be
      absent, or hold [None];
    - the columns of a multi-row [INSERT] are the keys of the first dict of
      [.values(batch)], as SQLAlchemy compiles it; the other columns take
      their server defaults;
    - the clock ([datetime.now], the database's [now()]) is an argument;
    - an exception is an instance of [Exception];
    - a session handed to a modelled function has no refused statement
      pending in its transaction, and the statements of the sync-state
      tracker succeed on it; the theorems about the row a [run] writes
      last assume it of the session [collect] left ([committed]).  The store refuses a statement on such a session for
      a [NOT NULL] or unique-index violation of [models.py]; what else it
      refuses (a NUL in a text, a NaN in a document, an index entry beyond
      its size, a count beyond [INTEGER]) is kept out of the statements by
      their hypotheses ([storable], [int32]);
    - [datetime.fromisoformat] is modelled on the strings every version of
      Python since 3.7 accepts, [strftime] on years from 1000 on and
      [str.lower] on ASCII text: the statements use them there;
    - a [str] read by the middleware or by the settings is a sequence of
      code points below 256;
    - logging is left out. *)

From Stdlib Require Import ZArith Ascii String.
From stdpp Require Import gmap strings list.

Local Open Scope string_scope.
Local Open Scope nat_scope.
Local Open Scope list_scope.
Set Warnings "-register-all".

(** ** Python values *)

(** A JSON document as Python holds it after decoding: the [JSONB] columns
    and the webhook payloads.  A float is kept as its literal. *)
Inductive json : Type :=
| JNull
| JBool (b : bool)
| JInt (n : Z)
| JFloat (lit : string)
| JStr (s : string)
| JList (xs : list json)
| JDict (kvs : list (string * json)).

(** [datetime.datetime]: the civil fields, and the offset of its [tzinfo]
    from UTC in microseconds ([None] for a naive value). *)
Record datetime : Type := mk_datetime {
  year : Z;
  month : Z;
  day : Z;
  hour : Z;
  minute : Z;
  second : Z;
  microsecond : Z;
  utcoffset : option Z
}.

Definition utc : option Z := Some 0%Z.

(** A key of a Python dict read as a column of type [A]: the key is absent,
    it holds [None], or it holds a value. *)
Inductive slot (A : Type) : Type :=
| Missing
| PyNone
| Py (a : A).
Arguments Missing {A}.
Arguments PyNone {A}.
Arguments Py {A} a.

(** The exceptions the modelled code raises or meets. *)
Inductive pyexc : Type :=
| KeyError (key : string)
| AttributeError (msg : string)
| IntegrityError (msg : string)
| CardinalityViolation (msg : string)
| PyException (cls msg : string).

(** [str(e)]: a [KeyError] prints the repr of its key. *)
Definition exc_str (e : pyexc) : string :=
  match e with
  | KeyError k => "'" +:+ k +:+ "'"
  | AttributeError m => m
  | IntegrityError m => m
  | CardinalityViolation m => m
  | PyException _ m => m
  end.

(** [s[:n]] on a [str]. *)
Fixpoint str_take (n : nat) (s : string) : string :=
  match n, s with
  | S n', String c s' => String c (str_take n' s')
  | _, _ => EmptyString
  end.

(** ** The tables of [models.py] *)

(** A row of [data_items].  The columns declared [nullable=False] hold a
    value, the others may hold NULL.  The surrogate key [id], generated by
    the server and never written by the engine, is left out. *)
Record DataItem : Type := mk_DataItem {
  source : string;
  source_id : string;
  category : string;
  item_type : string;
  title : option string;
  content : option string;
  metadata : option json;
  tags : option (list string);
  is_public : option bool;
  source_url : option string;
  created_at : datetime;
  synced_at : option datetime
}.

(** A row of [sync_state]; the primary key [source] is the key of the map
    that holds the rows. *)
Record SyncState : Type := mk_SyncState {
  last_sync_at : option datetime;
  next_sync_at : option datetime;
  cursor : list (string * json);
  status : string;
  error_message : option string;
  items_synced : Z
}.

(** A call made on the session, as the trace records it. *)
Inductive db_call : Type :=
| ExecuteInsertDataItems (n_rows : nat)
| ExecuteInsertSyncState (src : string)
| ExecuteSelectCursor (src : string)
| Commit.

(** What an [AsyncSession] gives access to: the two tables, and the calls
    made so far, oldest first. *)
Record session : Type := mk_session {
  data_items : list DataItem;
  sync_state : gmap string SyncState;
  calls : list db_call
}.

(** ** The monad of code that holds a session and may raise *)

Inductive outcome (A : Type) : Type :=
| Return (a : A)
| Raise (e : pyexc).
Arguments Return {A} a.
Arguments Raise {A} e.

Definition M (A : Type) : Type := session -> outcome A * session.

Definition ret {A} (a : A) : M A := fun s => (Return a, s).

Definition raise {A} (e : pyexc) : M A := fun s => (Raise e, s).

Definition bind {A B} (m : M A) (k : A -> M B) : M B :=
  fun s =>
    match m s with
    | (Return a, s') => k a s'
    | (Raise e, s') => (Raise e, s')
    end.

(** [try: body except Exception as e: handler(e)]. *)
Definition try_except {A} (body : M A) (handler : pyexc -> M A) : M A :=
  fun s =>
    match body s with
    | (Return a, s') => (Return a, s')
    | (Raise e, s') => handler e s'
    end.

#[global] Instance M_ret : MRet M := @ret.
#[global] Instance M_bind : MBind M := fun A B k m => bind m k.

Definition record_call (c : db_call) : M unit :=
  fun s => (Return tt,
            {| data_items := data_items s;
               sync_state := sync_state s;
               calls := calls s ++ [c] |}).

Definition get_data_items : M (list DataItem) :=
  fun s => (Return (data_items s), s).

Definition put_data_items (t : list DataItem) : M unit :=
  fun s => (Return tt,
            {| data_items := t; sync_state := sync_state s; calls := calls s |}).

Definition get_sync_state : M (gmap string SyncState) :=
  fun s => (Return (sync_state s), s).

Definition put_sync_state (t : gmap string SyncState) : M unit :=
  fun s => (Return tt,
            {| data_items := data_items s; sync_state := t; calls := calls s |}).

(** [await session.commit()]. *)
Definition commit : M unit := record_call Commit.

(** ** The upsert engine: [BaseCollector.upsert_items] *)

(** One element of [items]: a dict "matching DataItem columns".  Each field
    is the dict's key of that name; [i_metadata_] is the key ["metadata_"]
    (the mapped attribute) and [i_metadata] the key ["metadata"] (the
    column). *)
Record item : Type := mk_item {
  i_source : slot string;
  i_source_id : slot string;
  i_category : slot string;
  i_item_type : slot string;
  i_title : slot string;
  i_content : slot string;
  i_metadata_ : slot json;
  i_metadata : slot json;
  i_tags : slot (list string);
  i_is_public : slot bool;
  i_source_url : slot string;
  i_created_at : slot datetime;
  i_synced_at : slot datetime
}.

(** [d[k]]: a [KeyError] when the key is absent, the held value ([None]
    included) otherwise. *)
Definition getitem {A} (k : string) (v : slot A) : outcome (option A) :=
  match v with
  | Missing => Raise (KeyError k)
  | PyNone => Return None
  | Py a => Return (Some a)
  end.

(** [key = (item["source"], item["source_id"])]. *)
Definition item_key (it : item) : outcome (option string * option string) :=
  match getitem "source" (i_source it) with
  | Raise e => Raise e
  | Return s =>
      match getitem "source_id" (i_source_id it) with
      | Raise e => Raise e
      | Return sid => Return (s, sid)
      end
  end.

(** [seen[key] = item] on a dict kept in insertion order: a key already in
    the dict keeps its place and takes the new value, a new key goes last. *)
Fixpoint dict_set {K V} `{EqDecision K} (k : K) (v : V) (d : list (K * V))
  : list (K * V) :=
  match d with
  | [] => [(k, v)]
  | (k', v') :: d' =>
      if decide (k' = k) then (k, v) :: d' else (k', v') :: dict_set k v d'
  end.

(** The loop [for item in items: seen[key] = item], from a dict [seen]. *)
Fixpoint dedup_loop (seen : list ((option string * option string) * item))
  (items : list item) : outcome (list ((option string * option string) * item)) :=
  match items with
  | [] => Return seen
  | it :: rest =>
      match item_key it with
      | Raise e => Raise e
      | Return key => dedup_loop (dict_set key it seen) rest
      end
  end.

(** [row.pop("metadata_")] and [row.pop("metadata")]: the dict without the
    key. *)
Definition pop_metadata_ (it : item) : item :=
  mk_item (i_source it) (i_source_id it) (i_category it) (i_item_type it)
    (i_title it) (i_content it) Missing (i_metadata it) (i_tags it)
    (i_is_public it) (i_source_url it) (i_created_at it) (i_synced_at it).

Definition pop_metadata (it : item) : item :=
  mk_item (i_source it) (i_source_id it) (i_category it) (i_item_type it)
    (i_title it) (i_content it) (i_metadata_ it) Missing (i_tags it)
    (i_is_public it) (i_source_url it) (i_created_at it) (i_synced_at it).

(** The dict handed to [.values()]: the string keys of [row_dict], and the
    entry keyed by the column object [metadata_col], set last. *)
Record row : Type := mk_row {
  row_dict : item;
  row_metadata_col : slot json
}.

(** The body of [for item in seen.values()]. *)
Definition prepare_row (it : item) : row :=
  match i_metadata_ it with
  | Missing =>
      match i_metadata it with
      | Missing => mk_row it Missing
      | v => mk_row (pop_metadata it) v
      end
  | v => mk_row (pop_metadata_ it) v
  end.

Definition batch_size : nat := 2000.

(** [range(0, n, size)]. *)
Definition range_step (n size : nat) : list nat :=
  (fun j => j * size) <$> seq 0 (Nat.div (n + size - 1) size).

(** [[db_items[i : i + size] for i in range(0, len(db_items), size)]]. *)
Definition batches {A} (size : nat) (db_items : list A) : list (list A) :=
  (fun i => take size (drop i db_items)) <$> range_step (length db_items) size.

(** *** The statement [INSERT ... ON CONFLICT (source, source_id) DO UPDATE] *)

(** The value a column takes from a dict entry: the server default when the
    key is absent, NULL for [None]. *)
Definition column {A} (dflt : option A) (v : slot A) : option A :=
  match v with
  | Missing => dflt
  | PyNone => None
  | Py a => Some a
  end.

(** A column declared [nullable=False], or mapped as [Mapped[T]] with a
    [T] that is not optional: the server default when the key is absent
    (there is one for each but the five columns [proposed] matches on), and
    no value, which is a [NOT NULL] violation, for [None]. *)
Definition column_not_null {A} (dflt : A) (v : slot A) : option A :=
  match v with
  | Missing => Some dflt
  | PyNone => None
  | Py a => Some a
  end.

(** The value for the column [metadata] in a dict that is the first of its
    chunk.  Of two keys for one column the first in the dict counts, and
    the string key ["metadata"], where the dict still has it, comes before
    the column object, which was set last. *)
Definition metadata_entry (r : row) : slot json :=
  match i_metadata (row_dict r) with
  | Missing => row_metadata_col r
  | v => v
  end.

(** The same in a later dict of the chunk: its keys are renamed into a new
    dict, in which the last key for a column counts. *)
Definition later_metadata_entry (r : row) : slot json :=
  match row_metadata_col r with
  | Missing => i_metadata (row_dict r)
  | v => v
  end.

(** The entry of a later dict for one column.  The columns of the statement
    are the keys of the chunk's first dict: an entry for another column is
    left out, and a column for which the later dict has no entry cannot be
    compiled, no column of [DataItem] having a Python-side default. *)
Definition under_column {A} (first later : slot A) : option (slot A) :=
  match first, later with
  | Missing, _ => Some Missing
  | _, Missing => None
  | _, v => Some v
  end.

(** A later dict [r] read under the columns of the first dict [r0]. *)
Definition under_columns (r0 r : row) : option row :=
  let d0 := row_dict r0 in
  let d := row_dict r in
  s ← under_column (i_source d0) (i_source d);
  sid ← under_column (i_source_id d0) (i_source_id d);
  c ← under_column (i_category d0) (i_category d);
  t ← under_column (i_item_type d0) (i_item_type d);
  ti ← under_column (i_title d0) (i_title d);
  co ← under_column (i_content d0) (i_content d);
  md ← under_column (metadata_entry r0) (later_metadata_entry r);
  tg ← under_column (i_tags d0) (i_tags d);
  pub ← under_column (i_is_public d0) (i_is_public d);
  url ← under_column (i_source_url d0) (i_source_url d);
  ca ← under_column (i_created_at d0) (i_created_at d);
  sy ← under_column (i_synced_at d0) (i_synced_at d);
  Some {| row_dict := mk_item s sid c t ti co Missing Missing tg pub url ca sy;
          row_metadata_col := md |}.

(** The rows of [VALUES], each as a dict over the columns of the first;
    [None] when the statement cannot be compiled. *)
Definition values_rows (batch : list row) : option (list row) :=
  match batch with
  | [] => Some []
  | r0 :: rest => rest' ← mapM (under_columns r0) rest; Some (r0 :: rest')
  end.

(** The tuple proposed for insertion (PostgreSQL's [EXCLUDED]) by a row
    of [VALUES], with the server defaults of [models.py] for the columns
    that are not the statement's; [None] when a [NOT NULL] column would be
    NULL. *)
Definition proposed (now : datetime) (r : row) : option DataItem :=
  let d := row_dict r in
  match i_source d, i_source_id d, i_category d, i_item_type d, i_created_at d with
  | Py s, Py sid, Py c, Py t, Py ca =>
      md ← column_not_null (JDict []) (metadata_entry r);
      tg ← column_not_null [] (i_tags d);
      pub ← column_not_null false (i_is_public d);
      sy ← column_not_null now (i_synced_at d);
      Some {| source := s;
              source_id := sid;
              category := c;
              item_type := t;
              title := column None (i_title d);
              content := column None (i_content d);
              metadata := Some md;
              tags := Some tg;
              is_public := Some pub;
              source_url := column None (i_source_url d);
              created_at := ca;
              synced_at := Some sy |}
  | _, _, _, _, _ => None
  end.

(** The tuples a statement proposes for [.values(batch)]: a [CompileError]
    of SQLAlchemy when a later dict lacks a column of the first, raised
    before anything is sent to the store; the store's [IntegrityError] when
    a [NOT NULL] column would be NULL. *)
Definition statement_tuples (now : datetime) (batch : list row)
  : outcome (list DataItem) :=
  match values_rows batch with
  | None =>
      Raise (PyException "CompileError"
               "a Python-side value or SQL expression is required")
  | Some rows =>
      match mapM (proposed now) rows with
      | None => Raise (IntegrityError "null value in column violates not-null constraint")
      | Some ps => Return ps
      end
  end.

(** The unique index [uq_source_source_id]. *)
Definition row_key (x : DataItem) : string * string := (source x, source_id x).

(** The [set_] of [on_conflict_do_update], applied to the stored row [x]. *)
Definition do_update (now : datetime) (excluded x : DataItem) : DataItem :=
  {| source := source x;
     source_id := source_id x;
     category := category x;
     item_type := item_type x;
     title := title excluded;
     content := content excluded;
     metadata := metadata excluded;
     tags := tags excluded;
     is_public := is_public excluded;
     source_url := source_url excluded;
     created_at := created_at excluded;
     synced_at := Some now |}.

(** One proposed tuple: updated in place on a conflict with a stored row,
    appended otherwise. *)
Fixpoint insert_on_conflict (now : datetime) (p : DataItem) (t : list DataItem)
  : list DataItem :=
  match t with
  | [] => [p]
  | x :: t' =>
      if decide (row_key x = row_key p)
      then do_update now p x :: t'
      else x :: insert_on_conflict now p t'
  end.

(** The statement on a table.  It is atomic: what fails the proposal of
    one tuple fails it as a whole, and so do two proposed tuples with one
    key (PostgreSQL refuses to update a row twice in one command). *)
Definition insert_statement (now : datetime) (batch : list row) (t : list DataItem)
  : outcome (list DataItem) :=
  match statement_tuples now batch with
  | Raise e => Raise e
  | Return ps =>
      if decide (NoDup (row_key <$> ps))
      then Return (foldl (fun t p => insert_on_conflict now p t) t ps)
      else Raise (CardinalityViolation
                    "ON CONFLICT DO UPDATE command cannot affect row a second time")
  end.

(** [await session.execute(stmt)] for that statement. *)
Definition execute_insert (now : datetime) (batch : list row) : M unit :=
  record_call (ExecuteInsertDataItems (length batch));;
  t ← get_data_items;
  match insert_statement now batch t with
  | Raise e => raise e
  | Return t' => put_data_items t'
  end.

(** [for batch in ...: await session.execute(stmt)]. *)
Fixpoint for_each {A} (xs : list A) (body : A -> M unit) : M unit :=
  match xs with
  | [] => ret tt
  | x :: xs' => body x;; for_each xs' body
  end.

(** [upsert_items(session, items)]; [now] is the database's [now()] for the
    transaction the call runs in. *)
Definition upsert_items (now : datetime) (items : list item) : M nat :=
  match items with
  | [] => ret 0
  | _ =>
      match dedup_loop [] items with
      | Raise e => raise e
      | Return seen =>
          let db_items := prepare_row <$> (snd <$> seen) in
          for_each (batches batch_size db_items) (execute_insert now);;
          commit;;
          ret (length items)
      end
  end.

(** *** The statement [INSERT ... ON CONFLICT (source, source_id) DO NOTHING] *)

(** One proposed tuple: left out on a conflict with a stored row, appended
    otherwise. *)
Fixpoint insert_do_nothing (p : DataItem) (t : list DataItem) : list DataItem :=
  match t with
  | [] => [p]
  | x :: t' =>
      if decide (row_key x = row_key p)
      then x :: t'
      else x :: insert_do_nothing p t'
  end.

(** The statement on a table: atomic, and failed as a whole by what fails
    the proposal of one tuple.  Two proposed tuples with one key are no
    error here: the second meets the row the first one made. *)
Definition insert_nothing_statement (now : datetime) (batch : list row)
  (t : list DataItem) : outcome (list DataItem) :=
  match statement_tuples now batch with
  | Raise e => Raise e
  | Return ps => Return (foldl (fun t p => insert_do_nothing p t) t ps)
  end.

(** [await session.execute(stmt)] for that statement. *)
Definition execute_insert_nothing (now : datetime) (batch : list row) : M unit :=
  record_call (ExecuteInsertDataItems (length batch));;
  t ← get_data_items;
  match insert_nothing_statement now batch t with
  | Raise e => raise e
  | Return t' => put_data_items t'
  end.

(** [insert_if_not_exists(session, items)]. *)
Definition insert_if_not_exists (now : datetime) (items : list item) : M nat :=
  match items with
  | [] => ret 0
  | _ =>
      match dedup_loop [] items with
      | Raise e => raise e
      | Return seen =>
          let db_items := prepare_row <$> (snd <$> seen) in
          for_each (batches batch_size db_items) (execute_insert_nothing now);;
          commit;;
          ret (length items)
      end
  end.

(** ** The sync-state tracker *)

(** [update_sync_state(session, status=..., error=..., items_synced=...,
    cursor=...)] of the collector whose [source] is [src]; [now] is the
    reading of [datetime.now(timezone.utc)].  The statement inserts the row
    with [cursor or {}], and on a conflict on [source] sets the four
    columns of [set_], and [cursor] only when one was passed.  This is the
    call on a session whose transaction holds no refused statement, with
    values the columns can hold: there the statement succeeds. *)
Definition update_sync_state (src : string) (now : datetime) (status_ : string)
  (error : option string) (items_synced_ : Z) (cursor_ : option (list (string * json)))
  : M unit :=
  record_call (ExecuteInsertSyncState src);;
  t ← get_sync_state;
  put_sync_state
    (match t !! src with
     | None =>
         <[src := {| last_sync_at := Some now;
                     next_sync_at := None;
                     cursor := default [] cursor_;
                     status := status_;
                     error_message := error;
                     items_synced := items_synced_ |}]> t
     | Some x =>
         <[src := {| last_sync_at := Some now;
                     next_sync_at := next_sync_at x;
                     cursor := match cursor_ with
                               | Some c => c
                               | None => cursor x
                               end;
                     status := status_;
                     error_message := error;
                     items_synced := items_synced_ |}]> t
     end);;
  commit.

(** [get_cursor(session)]: [row or {}] on the selected [cursor]. *)
Definition get_cursor (src : string) : M (list (string * json)) :=
  record_call (ExecuteSelectCursor src);;
  t ← get_sync_state;
  mret (default [] (cursor <$> t !! src)).

(** ** The collector orchestrator *)

(** A subclass of [BaseCollector]: its two class attributes and its
    [collect], which returns the number of items synced or raises.  A
    [pyexc] stands for an instance of [Exception], which is what the
    handler of [run] names. *)
Record collector : Type := mk_collector {
  collector_source : string;
  collector_category : string;
  collect : M Z
}.

(** [run(session)]; [t_start] and [t_end] are the clock readings of the
    first and of the second [update_sync_state].  The defaults of the
    keyword arguments ([error=None], [items_synced=0], [cursor=None]) are
    written out. *)
Definition run (c : collector) (t_start t_end : datetime) : M unit :=
  update_sync_state (collector_source c) t_start "running" None 0 None;;
  try_except
    (count ← collect c;
     update_sync_state (collector_source c) t_end "idle" None count None)
    (fun e =>
       update_sync_state (collector_source c) t_end "error"
         (Some (str_take 500 (exc_str e))) 0 None).

(** ** Python's [str] methods and [datetime] functions used by the webhook *)

(** [c in s] for a one-character [c]. *)
Fixpoint str_contains (c : ascii) (s : string) : bool :=
  match s with
  | EmptyString => false
  | String c' s' => Ascii.eqb c' c || str_contains c s'
  end.

(** [s.replace(c, by)] for a one-character [c]. *)
Fixpoint str_replace (c : ascii) (by_ : string) (s : string) : string :=
  match s with
  | EmptyString => EmptyString
  | String c' s' =>
      if Ascii.eqb c' c then by_ +:+ str_replace c by_ s'
      else String c' (str_replace c by_ s')
  end.

(** [s.lower()] on ASCII text: the letters A to Z. *)
Definition ascii_lower (c : ascii) : ascii :=
  let n := nat_of_ascii c in
  if (65 <=? n) && (n <=? 90) then ascii_of_nat (n + 32) else c.

Fixpoint str_lower (s : string) : string :=
  match s with
  | EmptyString => EmptyString
  | String c s' => String (ascii_lower c) (str_lower s')
  end.

Definition digit_value (c : ascii) : option Z :=
  let n := Z.of_N (N_of_ascii c) in
  if (48 <=? n)%Z && (n <=? 57)%Z then Some (n - 48)%Z else None.

Definition digit_char (d : Z) : ascii := ascii_of_N (Z.to_N (48 + d)).

(** The decimal text of [n] on [width] digits, zero padded. *)
Fixpoint zero_padded (width : nat) (n : Z) : string :=
  match width with
  | 0 => EmptyString
  | S w => zero_padded w (n / 10)%Z +:+ String (digit_char (n mod 10)%Z) EmptyString
  end.

(** Read [k] decimal digits. *)
Fixpoint parse_digits (k : nat) (acc : Z) (s : string) : option (Z * string) :=
  match k with
  | 0 => Some (acc, s)
  | S k' =>
      match s with
      | EmptyString => None
      | String c s' =>
          d ← digit_value c;
          parse_digits k' (10 * acc + d)%Z s'
      end
  end.

Definition expect_char (c : ascii) (s : string) : option string :=
  match s with
  | EmptyString => None
  | String c' s' => if Ascii.eqb c' c then Some s' else None
  end.

(** [YYYY-MM-DD], and what follows it. *)
Definition parse_isoformat_date (s : string) : option (Z * Z * Z * string) :=
  '(y, s) ← parse_digits 4 0%Z s;
  s ← expect_char "-" s;
  '(m, s) ← parse_digits 2 0%Z s;
  s ← expect_char "-" s;
  '(d, s) ← parse_digits 2 0%Z s;
  Some (y, m, d, s).

(** [.fff] or [.ffffff], after the dot: microseconds. *)
Definition parse_fraction (s : string) : option Z :=
  match String.length s with
  | 3 => '(f, _) ← parse_digits 3 0%Z s; Some (f * 1000)%Z
  | 6 => '(f, _) ← parse_digits 6 0%Z s; Some f
  | _ => None
  end.

(** [HH[:MM[:SS[.fff[fff]]]]], the whole string. *)
Definition parse_hh_mm_ss_ff (s : string) : option (Z * Z * Z * Z) :=
  '(h, s) ← parse_digits 2 0%Z s;
  match s with
  | EmptyString => Some (h, 0, 0, 0)%Z
  | String c s =>
      if Ascii.eqb c ":" then
        '(m, s) ← parse_digits 2 0%Z s;
        match s with
        | EmptyString => Some (h, m, 0, 0)%Z
        | String c s =>
            if Ascii.eqb c ":" then
              '(sec, s) ← parse_digits 2 0%Z s;
              match s with
              | EmptyString => Some (h, m, sec, 0%Z)
              | String c s =>
                  if Ascii.eqb c "." then
                    f ← parse_fraction s; Some (h, m, sec, f)
                  else None
              end
            else None
        end
      else None
  end.

(** The time string cut at its first sign: the time, and the sign (true
    for minus) with the offset text when there is one. *)
Fixpoint split_tz (s : string) : string * option (bool * string) :=
  match s with
  | EmptyString => (EmptyString, None)
  | String c s' =>
      if Ascii.eqb c "+" then (EmptyString, Some (false, s'))
      else if Ascii.eqb c "-" then (EmptyString, Some (true, s'))
      else let '(t, z) := split_tz s' in (String c t, z)
  end.

Definition microseconds_per_day : Z := 86400000000%Z.

(** [+HH:MM[:SS[.ffffff]]], the sign apart: the offset in microseconds, which
    [timezone] wants strictly within a day. *)
Definition parse_utcoffset (negative : bool) (s : string) : option Z :=
  let n := String.length s in
  if (n =? 5) || (n =? 8) || (n =? 15) then
    '(h, m, sec, us) ← parse_hh_mm_ss_ff s;
    let off := ((h * 3600 + m * 60 + sec) * 1000000 + us)%Z in
    if (off <? microseconds_per_day)%Z
    then Some (if negative then (- off)%Z else off)
    else None
  else None.

Definition parse_isoformat_time (s : string)
  : option (Z * Z * Z * Z * option Z) :=
  let '(timestr, tz) := split_tz s in
  '(h, m, sec, us) ← parse_hh_mm_ss_ff timestr;
  match tz with
  | None => Some (h, m, sec, us, None)
  | Some (negative, tzstr) =>
      off ← parse_utcoffset negative tzstr;
      Some (h, m, sec, us, Some off)
  end.

Definition is_leap (y : Z) : bool :=
  (y mod 4 =? 0)%Z && (negb (y mod 100 =? 0)%Z || (y mod 400 =? 0)%Z).

Definition days_in_month (y m : Z) : Z :=
  match m with
  | 1 | 3 | 5 | 7 | 8 | 10 | 12 => 31
  | 4 | 6 | 9 | 11 => 30
  | 2 => if is_leap y then 29 else 28
  | _ => 0
  end%Z.

(** The range checks of the [datetime] constructor. *)
Definition valid_date (y m d : Z) : bool :=
  ((1 <=? y) && (y <=? 9999) && (1 <=? m) && (m <=? 12)
   && (1 <=? d) && (d <=? days_in_month y m))%Z.

Definition valid_time (h m sec us : Z) : bool :=
  ((0 <=? h) && (h <? 24) && (0 <=? m) && (m <? 60)
   && (0 <=? sec) && (sec <? 60) && (0 <=? us) && (us <? 1000000))%Z.

(** [datetime.fromisoformat(s)] on the strings [isoformat()] emits,
    [YYYY-MM-DD[*HH[:MM[:SS[.fff[fff]]]][+HH:MM[:SS[.ffffff]]]]], where [*]
    is any one character: the grammar of Python 3.7 to 3.10, whose strings
    every later version parses to the same value.  [None] is the
    [ValueError] of those versions; Python 3.11 and later parse more. *)
Definition fromisoformat (s : string) : option datetime :=
  '(y, m, d, rest) ← parse_isoformat_date s;
  '(h, mi, sec, us, tz) ←
    match rest with
    | EmptyString => Some (0, 0, 0, 0, None)%Z
    | String _ tstr => parse_isoformat_time tstr
    end;
  if valid_date y m d && valid_time h mi sec us
  then Some (mk_datetime y m d h mi sec us tz)
  else None.

(** [dt.strftime('%Y%m%d-%H%M')], for a year from 1000 on (below, [%Y]
    gives fewer than four digits on some platforms). *)
Definition strftime_minute (dt : datetime) : string :=
  zero_padded 4 (year dt) +:+ zero_padded 2 (month dt) +:+ zero_padded 2 (day dt)
  +:+ "-" +:+ zero_padded 2 (hour dt) +:+ zero_padded 2 (minute dt).

(** ** The webhook normaliser: [HealthWebhookCollector] *)

(** [d.get(k, dflt)] on a decoded JSON object. *)
Fixpoint dict_get (k : string) (dflt : json) (d : list (string * json)) : json :=
  match d with
  | [] => dflt
  | (k', v) :: d' => if String.eqb k' k then v else dict_get k dflt d'
  end.

Definition is_str (s : string) (v : json) : bool :=
  match v with
  | JStr s' => String.eqb s' s
  | _ => false
  end.

(** What the [try] block of the loop makes of [date_str]. *)
Inductive parsed_date : Type :=
| DateOk (created_at_ : datetime)
| DateInvalid
| DateRaises (e : pyexc).

Section Webhook.

(** Python's [str()] of a payload value, as an f-string renders it. *)
Variable py_str : json -> string.

Definition of_iso (o : option datetime) : parsed_date :=
  match o with
  | Some dt => DateOk dt
  | None => DateInvalid
  end.

(** The [try] block.  On a value that is no [str]: ["T" in v] is a
    [TypeError] (caught) unless [v] is a list or a dict, where it is a
    membership test; [v.replace] is then an [AttributeError], which the
    [except] clause does not name. *)
Definition parse_date (date_str : json) : parsed_date :=
  match date_str with
  | JStr s =>
      if str_contains "T" s
      then of_iso (fromisoformat (str_replace "Z" "+00:00" s))
      else of_iso (fromisoformat (s +:+ "T00:00:00+00:00"))
  | JList xs =>
      if existsb (is_str "T") xs
      then DateRaises (AttributeError "'list' object has no attribute 'replace'")
      else of_iso (fromisoformat (py_str date_str +:+ "T00:00:00+00:00"))
  | JDict kvs =>
      if existsb (fun kv => String.eqb (fst kv) "T") kvs
      then DateRaises (AttributeError "'dict' object has no attribute 'replace'")
      else of_iso (fromisoformat (py_str date_str +:+ "T00:00:00+00:00"))
  | _ => DateInvalid
  end.

(** The dict appended to [items] for a metric whose date parsed and whose
    type is the [str] [metric_type]. *)
Definition health_item (metric : list (string * json)) (created_at_ : datetime)
  (metric_type : string) : item :=
  let value := dict_get "value" JNull metric in
  let unit_ := dict_get "unit" (JStr "") metric in
  {| i_source := Py "health-webhook";
     i_source_id := Py (str_lower metric_type +:+ "-" +:+ strftime_minute created_at_);
     i_category := Py "health";
     i_item_type := Py (str_lower metric_type);
     i_title := Py (metric_type +:+ ": " +:+ py_str value +:+ " " +:+ py_str unit_);
     i_content := PyNone;
     i_metadata_ := Py (JDict [("value", value);
                               ("unit", unit_);
                               ("type", JStr metric_type);
                               ("device", dict_get "source" (JStr "Unknown") metric);
                               ("raw", JDict metric)]);
     i_metadata := Missing;
     i_tags := Py ["health"; "webhook"; str_lower metric_type];
     i_is_public := Py false;
     i_source_url := PyNone;
     i_created_at := Py created_at_;
     i_synced_at := Missing |}.

(** The loop [for metric in metrics], from the list [items] built so far.
    A date that does not parse is the [continue]; a [type] that is no [str]
    has no [lower]. *)
Fixpoint metrics_loop (items : list item) (metrics : list (list (string * json)))
  : outcome (list item) :=
  match metrics with
  | [] => Return items
  | metric :: rest =>
      match parse_date (dict_get "date" (JStr "") metric) with
      | DateInvalid => metrics_loop items rest
      | DateRaises e => Raise e
      | DateOk created_at_ =>
          match dict_get "type" (JStr "Unknown") metric with
          | JStr metric_type =>
              metrics_loop (items ++ [health_item metric created_at_ metric_type]) rest
          | _ => Raise (AttributeError "object has no attribute 'lower'")
          end
      end
  end.

(** [process_webhook_data(session, metrics)]. *)
Definition process_webhook_data (now : datetime) (metrics : list (list (string * json)))
  : M nat :=
  match metrics_loop [] metrics with
  | Raise e => raise e
  | Return items =>
      count ← upsert_items now items;
      mret count
  end.

End Webhook.

(** [HealthWebhookCollector]: its [collect] fetches nothing. *)
Definition HealthWebhookCollector : collector :=
  {| collector_source := "health-webhook";
     collector_category := "health";
     collect := mret 0%Z |}.

(** ** More of Python's [str] methods *)

(** [s.lstrip(chars)] and [s.rstrip(chars)], the characters to strip given
    by a test. *)
Fixpoint str_lstrip (strip_ : ascii -> bool) (s : string) : string :=
  match s with
  | EmptyString => EmptyString
  | String c s' => if strip_ c then str_lstrip strip_ s' else s
  end.

Fixpoint str_rstrip (strip_ : ascii -> bool) (s : string) : string :=
  match s with
  | EmptyString => EmptyString
  | String c s' =>
      match str_rstrip strip_ s' with
      | EmptyString => if strip_ c then EmptyString else String c EmptyString
      | r => String c r
      end
  end.

(** [c.isspace()] on the code points below 256. *)
Definition is_space (c : ascii) : bool :=
  let n := nat_of_ascii c in
  ((9 <=? n) && (n <=? 13)) || ((28 <=? n) && (n <=? 32)) || (n =? 133) || (n =? 160).

(** [s.strip()]. *)
Definition str_strip (s : string) : string := str_rstrip is_space (str_lstrip is_space s).

(** [s.split(",")]. *)
Fixpoint str_split_comma (s : string) : list string :=
  match s with
  | EmptyString => [EmptyString]
  | String c s' =>
      if Ascii.eqb c ","
      then EmptyString :: str_split_comma s'
      else match str_split_comma s' with
           | [] => [String c EmptyString]
           | x :: xs => String c x :: xs
           end
  end.

(** ** The settings of [api/config.py] *)

(** The fields of [Settings] the modelled code reads. *)
Record Settings : Type := mk_Settings {
  api_key : string;
  cors_origins : string
}.

(** The property [cors_origins_list]. *)
Definition cors_origins_list (self : Settings) : list string :=
  str_strip <$> filter (fun origin => str_strip origin ≠ "")
                  (str_split_comma (cors_origins self)).

(** ** The API-key middleware of [api/main.py] *)

(** The frozenset of the paths that need no key. *)
Definition _PUBLIC_PATHS : gset string :=
  {[ "/"; "/health"; "/docs"; "/openapi.json"; "/api/status";
     "/api/health/whoop/callback"; "/api/health/withings/callback";
     "/api/health/webhook" ]}.

(** What [dispatch] reads of a [Request]: the path of its URL, its method,
    and its headers, names in lower case as the server hands them over. *)
Record request : Type := mk_request {
  url_path : string;
  method : string;
  headers : list (string * string)
}.

(** [request.headers.get(key, dflt)]: the first header of that name, the
    name compared in lower case. *)
Fixpoint headers_get (key dflt : string) (hs : list (string * string)) : string :=
  match hs with
  | [] => dflt
  | (k, v) :: hs' => if String.eqb k (str_lower key) then v else headers_get key dflt hs'
  end.

(** What [dispatch] returns: the response of [call_next(request)], or a
    [JSONResponse] of its own. *)
Inductive response : Type :=
| CallNext
| JSONResponse (status_code : nat) (detail : string).

(** All code points of the [str] are below 128. *)
Fixpoint is_ascii_str (s : string) : bool :=
  match s with
  | EmptyString => true
  | String c s' => (nat_of_ascii c <? 128) && is_ascii_str s'
  end.

(** [hmac.compare_digest(a, b)] on two [str]: a [TypeError] unless both
    are ASCII. *)
Definition compare_digest (a b : string) : outcome bool :=
  if is_ascii_str a && is_ascii_str b
  then Return (String.eqb a b)
  else Raise (PyException "TypeError"
                "comparing strings with non-ASCII characters is not supported").

(** [ApiKeyMiddleware.dispatch(request, call_next)]. *)
Definition dispatch (settings : Settings) (req : request) : outcome response :=
  if String.eqb (api_key settings) ""
  then Return CallNext
  else
    let path := str_rstrip (Ascii.eqb "/") (url_path req) in
    if bool_decide (path ∈ _PUBLIC_PATHS) || String.eqb (method req) "OPTIONS"
    then Return CallNext
    else
      let provided := headers_get "X-API-Key" "" (headers req) in
      if String.eqb provided ""
      then Return (JSONResponse 401 "Invalid or missing API key")
      else
        match compare_digest provided (api_key settings) with
        | Raise e => Raise e
        | Return true => Return CallNext
        | Return false => Return (JSONResponse 401 "Invalid or missing API key")
        end.

(** * Vocabulary of the statements *)

#[global] Instance slot_eq_dec {A} `{EqDecision A} : EqDecision (slot A).
Proof. solve_decision. Defined.

#[global] Instance pyexc_eq_dec : EqDecision pyexc.
Proof. solve_decision. Defined.

#[global] Instance outcome_eq_dec {A} `{EqDecision A} : EqDecision (outcome A).
Proof. solve_decision. Defined.

(** The row [update_sync_state] leaves for its source in the table [t]. *)
Definition sync_row_after (src : string) (now : datetime) (status_ : string)
  (error : option string) (n : Z) (cursor_ : option (list (string * json)))
  (t : gmap string SyncState) : SyncState :=
  {| last_sync_at := Some now;
     next_sync_at := x ← t !! src; next_sync_at x;
     cursor := match cursor_ with
               | Some c => c
               | None => default [] (cursor <$> t !! src)
               end;
     status := status_;
     error_message := error;
     items_synced := n |}.

(** The stored row with the key [k], the first one in table order. *)
Fixpoint find_row (k : string * string) (t : list DataItem) : option DataItem :=
  match t with
  | [] => None
  | x :: t' => if decide (row_key x = k) then Some x else find_row k t'
  end.

(** The proposed tuples [ps] written one after the other. *)
Definition upsert_all (now : datetime) (ps t : list DataItem) : list DataItem :=
  foldl (fun t p => insert_on_conflict now p t) t ps.

(** [d.get(k)] on an insertion-ordered dict. *)
Fixpoint dict_lookup {K V} `{EqDecision K} (k : K) (d : list (K * V)) : option V :=
  match d with
  | [] => None
  | (k', v) :: d' => if decide (k' = k) then Some v else dict_lookup k d'
  end.

(** The dict has the two keys the dedup loop reads. *)
Definition key_present (it : item) : bool :=
  match i_source it, i_source_id it with
  | Missing, _ | _, Missing => false
  | _, _ => true
  end.

Definition is_py {A} (v : slot A) : bool :=
  match v with Py _ => true | _ => false end.

(** The dict gives a value for each of the five [nullable=False] columns
    the engine writes. *)
Definition well_formed (it : item) : bool :=
  is_py (i_source it) && is_py (i_source_id it) && is_py (i_category it)
  && is_py (i_item_type it) && is_py (i_created_at it).

(** The last element of [items] whose key is [k]. *)
Definition last_with_key (k : option string * option string) (items : list item)
  : option item :=
  last (filter (fun it => item_key it = Return k) items).

(** The key of a stored row, as the dedup loop computes it from a dict. *)
Definition lift_key (k : string * string) : option string * option string :=
  (Some k.1, Some k.2).

(** What the dict gives for the column [metadata], under either name. *)
Definition given_metadata (it : item) : slot json :=
  match i_metadata it with
  | Missing => i_metadata_ it
  | v => v
  end.

(** The tuple [p] is the dict [it] written column by column. *)
Record written (now : datetime) (it : item) (p : DataItem) : Prop := {
  written_source : i_source it = Py (source p);
  written_source_id : i_source_id it = Py (source_id p);
  written_category : i_category it = Py (category p);
  written_item_type : i_item_type it = Py (item_type p);
  written_created_at : i_created_at it = Py (created_at p);
  written_title : title p = column None (i_title it);
  written_content : content p = column None (i_content it);
  written_metadata : metadata p = column (Some (JDict [])) (given_metadata it);
  written_tags : tags p = column (Some []) (i_tags it);
  written_is_public : is_public p = column (Some false) (i_is_public it);
  written_source_url : source_url p = column None (i_source_url it);
  written_synced_at : synced_at p = column (Some now) (i_synced_at it)
}.

(** The five columns no default fills are, in the tuple [p], those of the
    dict [it]. *)
Definition identity_written (it : item) (p : DataItem) : Prop :=
  i_source it = Py (source p)
  ∧ i_source_id it = Py (source_id p)
  ∧ i_category it = Py (category p)
  ∧ i_item_type it = Py (item_type p)
  ∧ i_created_at it = Py (created_at p).

(** The seven columns [on_conflict_do_update] takes from [EXCLUDED], as a
    stored row holds them and as a dict gives them. *)
Definition mutable_columns (x : DataItem) :=
  (title x, content x, metadata x, tags x, is_public x, source_url x,
   Some (created_at x)).


(** Every column but [synced_at]. *)
Definition without_synced_at (x : DataItem) :=
  (source x, source_id x, category x, item_type x, mutable_columns x).

(** *** The records and counts the store takes *)

Definition has_key {A} (v : slot A) : bool :=
  match v with Missing => false | _ => true end.

Definition not_none {A} (v : slot A) : bool :=
  match v with PyNone => false | _ => true end.

Definition slot_all {A} (f : A -> bool) (v : slot A) : bool :=
  match v with Py a => f a | _ => true end.

(** The columns a dict gives. *)
Definition columns_of (it : item) : list bool :=
  [has_key (i_source it); has_key (i_source_id it); has_key (i_category it);
   has_key (i_item_type it); has_key (i_title it); has_key (i_content it);
   has_key (given_metadata it); has_key (i_tags it); has_key (i_is_public it);
   has_key (i_source_url it); has_key (i_created_at it); has_key (i_synced_at it)].

(** The columns of the dicts the webhook loop builds: all but [synced_at]. *)
Definition health_columns : list bool :=
  [true; true; true; true; true; true; true; true; true; true; true; false].

(** The dicts of the batch give the same columns: whichever comes first in
    a chunk, the statement has the columns of each. *)
Definition uniform (items : list item) : bool :=
  match items with
  | [] => true
  | it0 :: rest => forallb (fun it => bool_decide (columns_of it = columns_of it0)) rest
  end.

(** No [None] for a column that is [NOT NULL] and has a server default. *)
Definition no_null (it : item) : bool :=
  not_none (given_metadata it) && not_none (i_tags it)
  && not_none (i_is_public it) && not_none (i_synced_at it).

(** The dict does not hold [None] for the document [metadata], a value
    whose storage depends on the [none_as_null] of the JSON type. *)
Definition document_given (it : item) : bool :=
  not_none (i_metadata_ it) && not_none (i_metadata it).

(** The dict has one key at most for the column [metadata]. *)
Definition one_metadata_key (it : item) : bool :=
  negb (has_key (i_metadata_ it) && has_key (i_metadata it)).

(** A text PostgreSQL stores: without the character NUL. *)
Definition no_nul (s : string) : bool := negb (str_contains "000" s).

(** A text an index of [data_items] takes as well: the entries of an index
    are bounded in size. *)
Definition indexable (s : string) : bool := no_nul s && (String.length s <=? 500).

Definition is_digit (c : ascii) : bool :=
  match digit_value c with Some _ => true | None => false end.

(** The literal of a finite number in plain decimal notation. *)
Fixpoint decimal_chars (s : string) : bool :=
  match s with
  | EmptyString => true
  | String c s' =>
      (is_digit c || Ascii.eqb c "." || Ascii.eqb c "-") && decimal_chars s'
  end.

Definition plain_decimal (lit : string) : bool :=
  decimal_chars lit && (String.length lit <=? 300).

(** A document [JSONB] stores: its texts and keys without NUL, its floats
    finite, the keys of each object distinct (as those of a [dict] are). *)
Fixpoint json_ok (v : json) : bool :=
  match v with
  | JNull | JBool _ | JInt _ => true
  | JFloat lit => plain_decimal lit
  | JStr s => no_nul s
  | JList xs => forallb json_ok xs
  | JDict kvs =>
      bool_decide (NoDup kvs.*1)
      && forallb (fun kv => match kv with (k, v') => no_nul k && json_ok v' end) kvs
  end.

(** A [datetime] the driver converts to UTC without overflow. *)
Definition datetime_ok (dt : datetime) : bool :=
  valid_date (year dt) (month dt) (day dt)
  && valid_time (hour dt) (minute dt) (second dt) (microsecond dt)
  && (1 <? year dt)%Z && (year dt <? 9999)%Z
  && match utcoffset dt with
     | None => true
     | Some off => (- microseconds_per_day <? off)%Z && (off <? microseconds_per_day)%Z
     end.

(** The values of the dict are values the columns hold. *)
Definition values_ok (it : item) : bool :=
  slot_all indexable (i_source it) && slot_all indexable (i_source_id it)
  && slot_all indexable (i_category it) && slot_all no_nul (i_item_type it)
  && slot_all no_nul (i_title it) && slot_all no_nul (i_content it)
  && slot_all json_ok (i_metadata_ it) && slot_all json_ok (i_metadata it)
  && slot_all (forallb indexable) (i_tags it) && slot_all no_nul (i_source_url it)
  && slot_all datetime_ok (i_created_at it) && slot_all datetime_ok (i_synced_at it).

(** A record the store takes: it gives the five columns without default,
    no [None] for another [NOT NULL] column, one key for [metadata], and
    values the columns and their indexes hold. *)
Definition storable (it : item) : bool :=
  well_formed it && no_null it && one_metadata_key it && values_ok it.

(** A count the column [items_synced], an [INTEGER], holds. *)
Definition int32 (n : Z) : bool := (-2147483648 <=? n)%Z && (n <=? 2147483647)%Z.

(** No transaction is in progress on the session: the last call made on it
    is a [commit].  A statement made then is the first of its transaction,
    which no earlier refusal has aborted. *)
Definition committed (s : session) : bool :=
  match last (calls s) with
  | Some Commit => true
  | _ => false
  end.

(** [YYYY-MM-DD] and [HH:MM:SS], as [isoformat()] writes them. *)
Definition iso_date (y m d : Z) : string :=
  zero_padded 4 y +:+ "-" +:+ zero_padded 2 m +:+ "-" +:+ zero_padded 2 d.

Definition iso_time (h mi sec : Z) : string :=
  zero_padded 2 h +:+ ":" +:+ zero_padded 2 mi +:+ ":" +:+ zero_padded 2 sec.

(** The date of the metric parses: the loop builds a dict for it. *)
Definition date_parses (py_str : json -> string) (metric : list (string * json)) : bool :=
  match parse_date py_str (dict_get "date" (JStr "") metric) with
  | DateOk _ => true
  | _ => false
  end.

(** The loop body does not raise on the metric: its date is no list or dict
    holding ["T"], and its [type], when its date parses, is a [str]. *)
Definition loop_accepts (py_str : json -> string) (metric : list (string * json)) : bool :=
  match parse_date py_str (dict_get "date" (JStr "") metric) with
  | DateOk _ =>
      match dict_get "type" (JStr "Unknown") metric with
      | JStr _ => true
      | _ => false
      end
  | DateInvalid => true
  | DateRaises _ => false
  end.

(** The text the loop hands to [fromisoformat] for the [str] [date_str]. *)
Definition iso_text (date_str : string) : string :=
  if str_contains "T" date_str
  then str_replace "Z" "+00:00" date_str
  else date_str +:+ "T00:00:00+00:00".

Definition four_digits (s : string) : bool :=
  match parse_digits 4 0%Z s with Some _ => true | None => false end.

(** A date no version of Python reads: a value that is no [str], list or
    dict, on which the test ["T" in date_str] is a [TypeError], or a [str]
    whose text does not start with the four digits of a year. *)
Definition date_refused (v : json) : bool :=
  match v with
  | JStr s => negb (four_digits (iso_text s))
  | JList _ | JDict _ => false
  | _ => true
  end.

(** A metric the loop and the store deal with as modelled: its date is
    refused, or it parses to a year of four digits, its [type] is a [str]
    of ASCII text and the dict built for it is one the store takes. *)
Definition metric_ok (py_str : json -> string) (metric : list (string * json)) : bool :=
  match parse_date py_str (dict_get "date" (JStr "") metric) with
  | DateOk dt =>
      match dict_get "type" (JStr "Unknown") metric with
      | JStr ty =>
          (1000 <=? year dt)%Z && is_ascii_str ty
          && storable (health_item py_str metric dt ty)
      | _ => false
      end
  | DateInvalid => date_refused (dict_get "date" (JStr "") metric)
  | DateRaises _ => false
  end.

(** Pushed alone, the metric is written as one row, by this call, and that
    row's [created_at] is [dt]; the other rows are rows of before. *)
Definition stored_at (py_str : json -> string) (now : datetime) (s : session)
  (metric : list (string * json)) (dt : datetime) : Prop :=
  ∃ s' x,
    process_webhook_data py_str now [metric] s = (Return 1, s')
    ∧ x ∈ data_items s'
    ∧ source x = "health-webhook"
    ∧ created_at x = dt
    ∧ synced_at x = Some now
    ∧ ∀ y, y ∈ data_items s' → y = x ∨ y ∈ data_items s.

(** A run of calls [update_sync_state(session, status=..., error=...,
    items_synced=...)], none of which passes a cursor; each is given by its
    clock reading and its three arguments. *)
Definition status_only_updates (src : string)
  (updates : list (datetime * string * option string * Z)) (s : session) : session :=
  foldl (fun s '(now, st, err, n) => (update_sync_state src now st err n None s).2)
    s updates.

(** The proposed tuples [ps] offered one after the other. *)
Definition insert_all_nothing (ps t : list DataItem) : list DataItem :=
  foldl (fun t p => insert_do_nothing p t) t ps.

(** The four columns no [set_] names. *)
Definition identity_columns (x : DataItem) :=
  (source x, source_id x, category x, item_type x).

(** [n] slashes, and [sep.join(l)] for the separator [","]. *)
Fixpoint slashes (n : nat) : string :=
  match n with
  | 0 => EmptyString
  | S n' => String "/" (slashes n')
  end.

Fixpoint join_comma (l : list string) : string :=
  match l with
  | [] => EmptyString
  | [x] => x
  | x :: l' => x +:+ "," +:+ join_comma l'
  end.

(** An origin as [cors_origins_list] returns them: not empty, without a
    comma, without white space at either end. *)
Definition clean_origin (o : string) : Prop :=
  o ≠ "" ∧ str_contains "," o = false ∧ str_strip o = o.

(** The paths [dispatch] lets through without a key: a public path other
    than the root, followed by any number of slashes. *)
Definition public_path (p : string) : Prop :=
  ∃ q n, q ∈ _PUBLIC_PATHS ∧ q ≠ "/" ∧ p = q +:+ slashes n.

Definition unauthorized : response := JSONResponse 401 "Invalid or missing API key".

(** ** The claims the code does not meet, as they are stated *)

(** After a run whose [collect] raised, the row has [status = 'error'], a
    non-empty message of at most 500 characters, and the [items_synced] it
    had before the run. *)
Definition error_capture_as_stated : Prop :=
  ∀ c t0 t1 s e s2 before,
    sync_state s !! collector_source c = Some before →
    collect c (update_sync_state (collector_source c) t0 "running" None 0 None s).2
      = (Raise e, s2) →
    ∃ row_ msg,
      sync_state (run c t0 t1 s).2 !! collector_source c = Some row_
      ∧ status row_ = "error"
      ∧ error_message row_ = Some msg
      ∧ msg ≠ ""
      ∧ String.length msg ≤ 500
      ∧ items_synced row_ = items_synced before.

(** A batch with a record that lacks a required column fails with the
    session as it was: no call was made on it. *)
Definition validation_as_stated : Prop :=
  ∀ now items s,
    Exists (fun it => well_formed it = false) items →
    ∃ e, upsert_items now items s = (Raise e, s).

(** ** Sample data *)

Definition t_2026_02_21 : datetime := mk_datetime 2026 2 21 0 0 0 0 utc.
Definition t_2026_02_22 : datetime := mk_datetime 2026 2 22 0 0 0 0 utc.
Definition t_2026_02_23 : datetime := mk_datetime 2026 2 23 0 0 0 0 utc.

Definition empty_session : session :=
  {| data_items := []; sync_state := ∅; calls := [] |}.

(** A collector whose [collect] raises at once. *)
Definition failing_collector : collector :=
  {| collector_source := "whoop";
     collector_category := "health";
     collect := raise (PyException "CollectionError" "token expired") |}.

(** A session whose source has synced five items before. *)
Definition synced_whoop : session :=
  {| data_items := [];
     sync_state := {[ "whoop" := {| last_sync_at := Some t_2026_02_21;
                                    next_sync_at := None;
                                    cursor := [("page", JInt 7)];
                                    status := "idle";
                                    error_message := None;
                                    items_synced := 5 |} ]};
     calls := [] |}.

Definition steps_item (title_ : string) (synced : slot datetime) : item :=
  {| i_source := Py "apple-health";
     i_source_id := Py "steps-20260221";
     i_category := Py "health";
     i_item_type := Py "steps";
     i_title := Py title_;
     i_content := Missing;
     i_metadata_ := Missing;
     i_metadata := Missing;
     i_tags := Missing;
     i_is_public := Missing;
     i_source_url := Missing;
     i_created_at := Py t_2026_02_21;
     i_synced_at := synced |}.

Definition item_without (source_id_ : slot string) (category_ : slot string) : item :=
  {| i_source := Py "apple-health";
     i_source_id := source_id_;
     i_category := category_;
     i_item_type := Py "steps";
     i_title := Py "8542 steps";
     i_content := Missing;
     i_metadata_ := Missing;
     i_metadata := Missing;
     i_tags := Missing;
     i_is_public := Missing;
     i_source_url := Missing;
     i_created_at := Py t_2026_02_21;
     i_synced_at := Missing |}.

Definition stored_steps : DataItem :=
  {| source := "apple-health";
     source_id := "steps-20260221";
     category := "health";
     item_type := "steps";
     title := Some "old";
     content := None;
     metadata := Some (JDict []);
     tags := Some [];
     is_public := Some false;
     source_url := None;
     created_at := t_2026_02_21;
     synced_at := Some t_2026_02_22 |}.

Definition session_with_steps : session :=
  {| data_items := [stored_steps]; sync_state := ∅; calls := [] |}.

(** The payload of the docstring of [process_webhook_data], and a metric
    whose date is no ISO date. *)
Definition step_count : list (string * json) :=
  [("type", JStr "StepCount"); ("value", JInt 8542); ("unit", JStr "count");
   ("date", JStr "2026-02-21"); ("source", JStr "iPhone")].

Definition heart_rate : list (string * json) :=
  [("type", JStr "HeartRate"); ("value", JInt 68); ("unit", JStr "bpm");
   ("date", JStr "2026-02-21T10:30:00Z"); ("source", JStr "Apple Watch")].

Definition undated : list (string * json) :=
  [("type", JStr "HeartRate"); ("value", JInt 70); ("unit", JStr "bpm");
   ("date", JStr "yesterday"); ("source", JStr "Apple Watch")].

(** A rendering to run the normaliser with, where the text of a title does
    not matter. *)
Definition opaque_str (v : json) : string :=
  match v with
  | JStr s => s
  | _ => "?"
  end.

(** A second reading of the heart rate, in the minute of [heart_rate] and
    in another zone, and a metric whose type is no string. *)
Definition heart_rate_again : list (string * json) :=
  [("type", JStr "HEARTRATE"); ("value", JInt 71); ("unit", JStr "bpm");
   ("date", JStr "2026-02-21T10:30:45+09:00"); ("source", JStr "Apple Watch")].

Definition untyped : list (string * json) :=
  [("type", JInt 7); ("value", JInt 1); ("date", JStr "2026-02-21")].

Ltac unfold_M :=
  unfold mbind, mret, M_bind, M_ret, bind, ret, raise, try_except, commit,
    record_call, get_sync_state, put_sync_state, get_data_items, put_data_items in *.

Ltac fields :=
  cbn [sync_state data_items calls fst snd status error_message items_synced
       cursor last_sync_at next_sync_at sync_row_after] in *.

(** * Properties *)

(** ** The sync-state tracker and the orchestrator *)

Lemma update_sync_state_eq src now st err n c s :
  update_sync_state src now st err n c s =
  (Return tt,
   {| data_items := data_items s;
      sync_state := <[src := sync_row_after src now st err n c (sync_state s)]> (sync_state s);
      calls := calls s ++ [ExecuteInsertSyncState src; Commit] |}).
Proof.
  unfold update_sync_state, sync_row_after. unfold_M. simpl.
  rewrite <- app_assoc. simpl.
  destruct (sync_state s !! src) as [x|] eqn:E; simpl; destruct c; reflexivity.
Qed.

Lemma get_cursor_eq src s :
  get_cursor src s =
  (Return (default [] (cursor <$> sync_state s !! src)),
   {| data_items := data_items s;
      sync_state := sync_state s;
      calls := calls s ++ [ExecuteSelectCursor src] |}).
Proof. reflexivity. Qed.

Lemma str_take_length n s : String.length (str_take n s) <= n.
Proof.
  revert s. induction n as [|n IH]; intros [|c s]; simpl; try lia.
  specialize (IH s). lia.
Qed.

Lemma str_take_all n s : String.length s ≤ n → str_take n s = s.
Proof.
  revert s. induction n as [|n IH]; intros [|c s]; simpl; try done; try lia.
  intros H. f_equal. apply IH. lia.
Qed.

Lemma str_take_empty n s : str_take (S n) s = "" ↔ s = "".
Proof. destruct s; simpl; split; done. Qed.

Lemma run_eq c t0 t1 s :
  run c t0 t1 s =
  let s1 := (update_sync_state (collector_source c) t0 "running" None 0 None s).2 in
  match collect c s1 with
  | (Return count, s2) => update_sync_state (collector_source c) t1 "idle" None count None s2
  | (Raise e, s2) =>
      update_sync_state (collector_source c) t1 "error"
        (Some (str_take 500 (exc_str e))) 0 None s2
  end.
Proof.
  unfold run. unfold_M. rewrite update_sync_state_eq. simpl.
  destruct (collect c _) as [[count|e] s2]; reflexivity.
Qed.

Lemma run_raised c t0 t1 s e s2 :
  collect c (update_sync_state (collector_source c) t0 "running" None 0 None s).2
    = (Raise e, s2) →
  run c t0 t1 s =
  (Return tt,
   {| data_items := data_items s2;
      sync_state :=
        <[collector_source c :=
            sync_row_after (collector_source c) t1 "error"
              (Some (str_take 500 (exc_str e))) 0 None (sync_state s2)]>
          (sync_state s2);
      calls := calls s2 ++ [ExecuteInsertSyncState (collector_source c); Commit] |}).
Proof. intros H. rewrite run_eq. cbv zeta. rewrite H. apply update_sync_state_eq. Qed.

(** C1, as stated, fails: after five items were synced, a run whose
    [collect] raises leaves [items_synced = 0], not 5. *)
Lemma error_capture_resets_items_synced : ¬ error_capture_as_stated.
Proof.
  intros H.
  destruct (H failing_collector t_2026_02_22 t_2026_02_23 synced_whoop
              (PyException "CollectionError" "token expired")
              (update_sync_state "whoop" t_2026_02_22 "running" None 0 None synced_whoop).2
              {| last_sync_at := Some t_2026_02_21;
                 next_sync_at := None;
                 cursor := [("page", JInt 7)];
                 status := "idle";
                 error_message := None;
                 items_synced := 5 |})
    as (row_ & msg & Hrow & _ & _ & _ & _ & Hn).
  - reflexivity.
  - reflexivity.
  - rewrite (run_raised failing_collector t_2026_02_22 t_2026_02_23 synced_whoop
               (PyException "CollectionError" "token expired")
               (update_sync_state "whoop" t_2026_02_22 "running" None 0 None synced_whoop).2
               eq_refl) in Hrow.
    fields.
    rewrite lookup_insert_eq in Hrow. injection Hrow as <-. fields. discriminate.
Qed.

(** C1, amended.  After a run whose [collect] raised [e] with no
    transaction left in progress on the session (its last call is a
    [commit]: what [collect] wrote is committed, and no refused statement is
    pending), the run returns and the collector's row has
    [status = "error"], [error_message] the first 500 characters of [str(e)]
    (empty exactly when [str(e)] is), and [items_synced = 0]: both calls of
    [update_sync_state] in that run pass the default count.  The message is
    a text the store takes. *)
Theorem run_error_row c t0 t1 s e s2 :
  collect c (update_sync_state (collector_source c) t0 "running" None 0 None s).2
    = (Raise e, s2) →
  committed s2 = true →
  no_nul (exc_str e) = true →
  (run c t0 t1 s).1 = Return tt
  ∧ ∃ row_,
      sync_state (run c t0 t1 s).2 !! collector_source c = Some row_
      ∧ status row_ = "error"
      ∧ error_message row_ = Some (str_take 500 (exc_str e))
      ∧ String.length (str_take 500 (exc_str e)) ≤ 500
      ∧ (str_take 500 (exc_str e) = "" ↔ exc_str e = "")
      ∧ items_synced row_ = 0%Z.
Proof.
  intros H _ _. rewrite (run_raised _ _ _ _ _ _ H). fields. split; [done |].
  eexists. split; [apply lookup_insert_eq |]. fields.
  split_and!; [done | done | apply str_take_length | apply str_take_empty | done].
Qed.

Lemma run_error_row_witness :
  (run failing_collector t_2026_02_22 t_2026_02_23 synced_whoop).1 = Return tt
  ∧ ∃ row_,
    sync_state (run failing_collector t_2026_02_22 t_2026_02_23 synced_whoop).2 !! "whoop"
      = Some row_
    ∧ status row_ = "error"
    ∧ error_message row_ = Some (str_take 500 "token expired")
    ∧ String.length (str_take 500 "token expired") ≤ 500
    ∧ (str_take 500 "token expired" = "" ↔ "token expired" = "")
    ∧ items_synced row_ = 0%Z.
Proof.
  apply (run_error_row failing_collector t_2026_02_22 t_2026_02_23 synced_whoop
           (PyException "CollectionError" "token expired")
           (update_sync_state "whoop" t_2026_02_22 "running" None 0 None synced_whoop).2);
    reflexivity.
Defined.

(** C5.  An [update_sync_state] without a cursor leaves what [get_cursor]
    returns unchanged; one with a cursor makes [get_cursor] return it, also
    after any number of later updates that pass none. *)
Theorem cursor_preserved_unless_supplied src now st err n s c :
  (get_cursor src (update_sync_state src now st err n None s).2).1
    = (get_cursor src s).1
  ∧ (get_cursor src (update_sync_state src now st err n (Some c) s).2).1 = Return c
  ∧ ∀ updates,
      (get_cursor src
         (status_only_updates src updates
            (update_sync_state src now st err n (Some c) s).2)).1 = Return c.
Proof.
  assert (Hnone : ∀ now st err n s,
            (get_cursor src (update_sync_state src now st err n None s).2).1
            = (get_cursor src s).1).
  { intros. rewrite update_sync_state_eq, !get_cursor_eq. simpl.
    rewrite lookup_insert_eq. simpl. done. }
  assert (Hsome : (get_cursor src (update_sync_state src now st err n (Some c) s).2).1
                  = Return c).
  { rewrite update_sync_state_eq, get_cursor_eq. simpl.
    rewrite lookup_insert_eq. done. }
  split_and!; [apply Hnone | exact Hsome |].
  intros updates. rewrite <- Hsome.
  generalize (update_sync_state src now st err n (Some c) s).2. clear Hsome.
  induction updates as [|[[[now' st'] err'] n'] updates IH]; intros s0; [done |].
  cbn [status_only_updates foldl]. 
  etrans; [apply IH |]. apply Hnone.
Qed.

(** ** Tables under the conflict clause *)

Lemma row_key_do_update now p x : row_key (do_update now p x) = row_key x.
Proof. reflexivity. Qed.

Lemma do_update_columns now p x :
  mutable_columns (do_update now p x) = mutable_columns p.
Proof. reflexivity. Qed.

Lemma find_row_insert now p t k :
  find_row k (insert_on_conflict now p t) =
  if decide (row_key p = k)
  then Some (match find_row k t with Some x => do_update now p x | None => p end)
  else find_row k t.
Proof.
  induction t as [|x t IH]; simpl.
  - reflexivity.
  - destruct (decide (row_key x = row_key p)) as [E|E]; simpl.
    + rewrite row_key_do_update.
      destruct (decide (row_key x = k)), (decide (row_key p = k)); congruence.
    + rewrite IH.
      destruct (decide (row_key x = k)), (decide (row_key p = k)); congruence.
Qed.

Lemma keys_insert now p t :
  row_key <$> insert_on_conflict now p t =
  if decide (row_key p ∈ row_key <$> t) then row_key <$> t
  else (row_key <$> t) ++ [row_key p].
Proof.
  induction t as [|x t IH]; [reflexivity |].
  cbn [insert_on_conflict].
  destruct (decide (row_key x = row_key p)) as [E|E]; rewrite !fmap_cons.
  - rewrite row_key_do_update, decide_True; [reflexivity | rewrite E; left].
  - rewrite IH. destruct (decide (row_key p ∈ row_key <$> t)) as [H|H].
    + rewrite decide_True; [reflexivity | by right].
    + rewrite decide_False; [reflexivity |].
      intros [?|?]%elem_of_cons; congruence.
Qed.

Lemma NoDup_insert now p t :
  NoDup (row_key <$> t) → NoDup (row_key <$> insert_on_conflict now p t).
Proof.
  intros H. rewrite keys_insert. case_decide; [done |].
  apply NoDup_app. split; [done |]. split; [| apply NoDup_singleton].
  intros k Hk ->%list_elem_of_singleton. done.
Qed.

Lemma NoDup_upsert_all now ps t :
  NoDup (row_key <$> t) → NoDup (row_key <$> upsert_all now ps t).
Proof.
  revert t. induction ps as [|p ps IH]; intros t H; simpl; [done |].
  apply IH, NoDup_insert, H.
Qed.

Lemma find_row_None k t : k ∉ row_key <$> t → find_row k t = None.
Proof.
  induction t as [|x t IH]; simpl; [done |].
  intros H. rewrite not_elem_of_cons in H. destruct H as [H1 H2].
  rewrite decide_False by congruence. auto.
Qed.

Lemma find_row_Some k t x : find_row k t = Some x → x ∈ t ∧ row_key x = k.
Proof.
  induction t as [|y t IH]; simpl; [done |].
  case_decide.
  - intros [= ->]. split; [left | done].
  - intros [? ?]%IH. split; [by right | done].
Qed.

Lemma find_row_elem p ps :
  NoDup (row_key <$> ps) → p ∈ ps → find_row (row_key p) ps = Some p.
Proof.
  induction ps as [|q ps IH]; [by intros _ ?%elem_of_nil |].
  rewrite fmap_cons. intros [Hq Hnd]%NoDup_cons [->|Hin]%elem_of_cons; simpl.
  - by rewrite decide_True.
  - rewrite decide_False; [by apply IH |].
    intros E. apply Hq. rewrite E. by apply list_elem_of_fmap_2.
Qed.

Lemma filter_key_find_row k t :
  NoDup (row_key <$> t) →
  filter (fun x => row_key x = k) t = option_list (find_row k t).
Proof.
  induction t as [|x t IH]; simpl; [done |].
  intros [Hx Ht]%NoDup_cons. rewrite filter_cons.
  destruct (decide (row_key x = k)) as [E|E].
  - rewrite IH by done. rewrite find_row_None; [done | by rewrite <- E].
  - by apply IH.
Qed.

Lemma upsert_all_find now ps t k :
  NoDup (row_key <$> ps) →
  find_row k (upsert_all now ps t) =
  match find_row k ps with
  | Some p => Some (match find_row k t with Some x => do_update now p x | None => p end)
  | None => find_row k t
  end.
Proof.
  revert t. induction ps as [|p ps IH]; intros t; simpl; [done |].
  intros [Hp Hps]%NoDup_cons. rewrite IH by done.
  rewrite find_row_insert.
  destruct (decide (row_key p = k)) as [E|E]; [| done].
  rewrite find_row_None; [done | by rewrite <- E].
Qed.

Lemma without_synced_at_key x y :
  without_synced_at x = without_synced_at y →
  row_key x = row_key y ∧ mutable_columns x = mutable_columns y.
Proof. unfold without_synced_at, row_key. intros H. split; congruence. Qed.

Lemma insert_same now p t0 : ∀ t,
  Forall2 (fun x y => without_synced_at x = without_synced_at y) t0 t →
  (∃ x, find_row (row_key p) t0 = Some x ∧ mutable_columns x = mutable_columns p) →
  Forall2 (fun x y => without_synced_at x = without_synced_at y) t0
    (insert_on_conflict now p t).
Proof.
  intros t H. induction H as [|x y t0 t Hxy Ht IH]; intros (x0 & Hf & Hm).
  - done.
  - simpl in Hf. simpl.
    assert (Hk : row_key x = row_key y).
    { unfold without_synced_at in Hxy. unfold row_key. by injection Hxy as -> -> _ _ _. }
    rewrite <- Hk.
    destruct (decide (row_key x = row_key p)) as [E|E].
    + injection Hf as <-. constructor; [| done].
      unfold without_synced_at in *. rewrite do_update_columns, <- Hm.
      simpl. by injection Hxy as <- <- <- <- _.
    + constructor; [done |]. apply IH. eauto.
Qed.

Lemma upsert_all_same now ps t0 : ∀ t,
  Forall2 (fun x y => without_synced_at x = without_synced_at y) t0 t →
  Forall (fun p => ∃ x, find_row (row_key p) t0 = Some x
                        ∧ mutable_columns x = mutable_columns p) ps →
  Forall2 (fun x y => without_synced_at x = without_synced_at y) t0
    (upsert_all now ps t).
Proof.
  induction ps as [|p ps IH]; intros t Ht Hps; [done |].
  apply Forall_cons in Hps as [Hp Hps]. simpl.
  apply IH; [| done]. by apply insert_same.
Qed.

(** ** The dedup loop *)

Lemma dict_lookup_set {K V} `{EqDecision K} (k k' : K) (v : V) d :
  dict_lookup k (dict_set k' v d) =
  if decide (k' = k) then Some v else dict_lookup k d.
Proof.
  induction d as [|[k0 v0] d IH]; simpl; [done |].
  destruct (decide (k0 = k')) as [->|E]; simpl.
  - destruct (decide (k' = k)); done.
  - rewrite IH. destruct (decide (k0 = k)), (decide (k' = k)); congruence.
Qed.

Lemma keys_dict_set {K V} `{EqDecision K} (k : K) (v : V) d :
  (dict_set k v d).*1 = if decide (k ∈ d.*1) then d.*1 else d.*1 ++ [k].
Proof.
  induction d as [|[k0 v0] d IH]; [reflexivity |].
  cbn [dict_set].
  destruct (decide (k0 = k)) as [->|E]; rewrite !fmap_cons; cbn [fst].
  - rewrite decide_True; [reflexivity | left].
  - rewrite IH. destruct (decide (k ∈ d.*1)) as [Hk|Hk].
    + rewrite decide_True; [reflexivity | by right].
    + rewrite decide_False; [reflexivity |].
      intros [?|?]%elem_of_cons; congruence.
Qed.

Lemma NoDup_dict_set {K V} `{EqDecision K} (k : K) (v : V) d :
  NoDup d.*1 → NoDup (dict_set k v d).*1.
Proof.
  intros Hd. rewrite keys_dict_set. case_decide; [done |].
  apply NoDup_app. split; [done |]. split; [| apply NoDup_singleton].
  intros k' Hk ->%list_elem_of_singleton. done.
Qed.

Lemma elem_of_dict_set {K V} `{EqDecision K} (k : K) (v : V) d kv :
  kv ∈ dict_set k v d → kv = (k, v) ∨ kv ∈ d.
Proof.
  induction d as [|[k0 v0] d IH]; simpl.
  - intros ->%list_elem_of_singleton. by left.
  - case_decide.
    + intros [->|?]%elem_of_cons; [by left | right; by right].
    + intros [->|[->|?]%IH]%elem_of_cons; [right; left | by left | right; by right].
Qed.

Lemma key_present_item_key it :
  key_present it = true → ∃ k, item_key it = Return k.
Proof.
  unfold key_present, item_key.
  destruct (i_source it), (i_source_id it); simpl; try done; eauto.
Qed.

Lemma item_key_cases it :
  match item_key it with
  | Return _ => key_present it = true
  | Raise e => key_present it = false
               ∧ (e = KeyError "source" ∨ e = KeyError "source_id")
  end.
Proof.
  unfold item_key, key_present.
  destruct (i_source it), (i_source_id it); simpl; auto.
Qed.

Lemma dedup_loop_spec items : ∀ seen0,
  Forall (fun it => key_present it = true) items →
  ∃ seen,
    dedup_loop seen0 items = Return seen
    ∧ (NoDup seen0.*1 → NoDup seen.*1)
    ∧ (∀ kv, kv ∈ seen → kv ∈ seen0 ∨ (kv.2 ∈ items ∧ item_key kv.2 = Return kv.1))
    ∧ (∀ k, dict_lookup k seen =
            match last_with_key k items with
            | Some it => Some it
            | None => dict_lookup k seen0
            end).
Proof.
  induction items as [|it items IH]; intros seen0 Hall.
  - exists seen0. simpl. split_and!; auto.
  - apply Forall_cons in Hall as [Hit Hall].
    destruct (key_present_item_key it Hit) as [k Hk].
    destruct (IH (dict_set k it seen0) Hall) as (seen & Hrun & Hnd & Hin & Hlk).
    exists seen. simpl. rewrite Hk. split_and!.
    + done.
    + intros H0. apply Hnd, NoDup_dict_set, H0.
    + intros kv [[->|H1]%elem_of_dict_set|[H1 H2]]%Hin.
      * right. simpl. split; [left | done].
      * by left.
      * right. split; [by right | done].
    + intros k'. rewrite Hlk. unfold last_with_key. rewrite filter_cons.
      rewrite dict_lookup_set.
      destruct (last (filter _ items)) as [it'|] eqn:El.
      * case_decide; [| by rewrite El].
        rewrite last_cons, El. done.
      * apply last_None in El. rewrite El.
        destruct (decide (k = k')) as [->|E].
        -- rewrite decide_True by done. done.
        -- rewrite decide_False by congruence. done.
Qed.

Lemma dedup_loop_KeyError items : ∀ seen,
  Exists (fun it => key_present it = false) items →
  ∃ k, dedup_loop seen items = Raise (KeyError k) ∧ (k = "source" ∨ k = "source_id").
Proof.
  induction items as [|it items IH]; intros seen Hex.
  - by apply Exists_nil in Hex.
  - simpl. pose proof (item_key_cases it) as Hc.
    destruct (item_key it) as [k|e].
    + apply IH. apply Exists_cons in Hex as [Hex|Hex]; [congruence | done].
    + destruct Hc as [_ [->| ->]]; eauto.
Qed.

Lemma last_with_key_Some k items it :
  it ∈ items → item_key it = Return k → is_Some (last_with_key k items).
Proof.
  intros Hin Hk. unfold last_with_key.
  destruct (last _) eqn:E; [eauto |].
  apply last_None in E.
  assert (H : it ∈ filter (fun it => item_key it = Return k) items)
    by (apply list_elem_of_filter; done).
  rewrite E in H. by apply elem_of_nil in H.
Qed.

Lemma last_with_key_elem k items it :
  last_with_key k items = Some it → it ∈ items ∧ item_key it = Return k.
Proof.
  unfold last_with_key. intros H%last_Some_elem_of.
  apply list_elem_of_filter in H as [? ?]. done.
Qed.

(** ** Batches *)

Lemma range_step_covers n size : 0 < size → n ≤ Nat.div (n + size - 1) size * size.
Proof.
  intros Hs.
  pose proof (Nat.mul_succ_div_gt (n + size - 1) size ltac:(lia)) as H.
  nia.
Qed.

Lemma concat_take_drop {A} size (l : list A) k :
  concat ((fun i => take size (drop i l)) <$> ((fun j => j * size) <$> seq 0 k))
  = take (k * size) l.
Proof.
  induction k as [|k IH].
  - by rewrite take_0.
  - rewrite seq_S, !fmap_app, concat_app, IH. simpl.
    rewrite app_nil_r, take_take_drop. f_equal. lia.
Qed.

Lemma concat_batches {A} size (l : list A) : 0 < size → concat (batches size l) = l.
Proof.
  intros Hs. unfold batches, range_step. rewrite concat_take_drop.
  apply take_ge, range_step_covers, Hs.
Qed.

Lemma batches_sublist {A} size (l b : list A) :
  b ∈ batches size l → b `sublist_of` l.
Proof.
  unfold batches. intros (i & -> & _)%list_elem_of_fmap.
  etrans; [apply sublist_take | apply sublist_drop].
Qed.

(** ** From dicts to stored rows *)

Lemma metadata_entry_prepare it : metadata_entry (prepare_row it) = given_metadata it.
Proof.
  unfold metadata_entry, prepare_row, given_metadata.
  destruct (i_metadata_ it) eqn:E1, (i_metadata it) eqn:E2; simpl; rewrite ?E1, ?E2; done.
Qed.

Lemma later_metadata_entry_prepare it :
  one_metadata_key it = true → later_metadata_entry (prepare_row it) = given_metadata it.
Proof.
  unfold later_metadata_entry, prepare_row, given_metadata, one_metadata_key.
  destruct (i_metadata_ it) eqn:E1, (i_metadata it) eqn:E2; simpl; rewrite ?E1, ?E2; done.
Qed.

Lemma row_dict_prepare it :
  let d := row_dict (prepare_row it) in
  i_source d = i_source it ∧ i_source_id d = i_source_id it
  ∧ i_category d = i_category it ∧ i_item_type d = i_item_type it
  ∧ i_title d = i_title it ∧ i_content d = i_content it
  ∧ i_tags d = i_tags it ∧ i_is_public d = i_is_public it
  ∧ i_source_url d = i_source_url it ∧ i_created_at d = i_created_at it
  ∧ i_synced_at d = i_synced_at it.
Proof.
  unfold prepare_row.
  destruct (i_metadata_ it); [destruct (i_metadata it) | |]; simpl; split_and!; done.
Qed.

Lemma item_key_prepare it : item_key (row_dict (prepare_row it)) = item_key it.
Proof.
  unfold item_key. by destruct (row_dict_prepare it) as (-> & -> & _).
Qed.

Lemma proposed_written now it p :
  proposed now (prepare_row it) = Some p → written now it p.
Proof.
  unfold proposed. rewrite metadata_entry_prepare.
  destruct (row_dict_prepare it) as (-> & -> & -> & -> & -> & -> & -> & -> & -> & -> & ->).
  destruct (i_source it) eqn:E1, (i_source_id it) eqn:E2, (i_category it) eqn:E3,
    (i_item_type it) eqn:E4, (i_created_at it) eqn:E5; try done.
  destruct (given_metadata it) eqn:E6, (i_tags it) eqn:E7, (i_is_public it) eqn:E8,
    (i_synced_at it) eqn:E9; try done.
  all: intros [= <-]; constructor; cbn; rewrite ?E6, ?E7, ?E8, ?E9; done.
Qed.

Lemma storable_inv it :
  storable it = true →
  well_formed it = true ∧ no_null it = true ∧ one_metadata_key it = true
  ∧ values_ok it = true.
Proof. unfold storable. rewrite !andb_true_iff. tauto. Qed.

Lemma proposed_total now it :
  storable it = true → is_Some (proposed now (prepare_row it)).
Proof.
  intros (Hwf & Hnn & _)%storable_inv. revert Hwf Hnn.
  unfold well_formed, no_null, proposed. rewrite metadata_entry_prepare.
  destruct (row_dict_prepare it) as (-> & -> & -> & -> & _ & _ & -> & -> & _ & -> & ->).
  destruct (i_source it), (i_source_id it), (i_category it), (i_item_type it),
    (i_created_at it); try done.
  destruct (given_metadata it), (i_tags it), (i_is_public it), (i_synced_at it);
    try done.
  all: intros _ _; cbn; eauto.
Qed.

Lemma written_without_synced_at now1 now2 it p1 p2 :
  written now1 it p1 → written now2 it p2 →
  without_synced_at p1 = without_synced_at p2.
Proof.
  intros [] []. unfold without_synced_at, mutable_columns.
  repeat match goal with
         | H : ?x = Py _, H' : ?x = Py _ |- _ => rewrite H in H'; injection H' as <-
         end.
  congruence.
Qed.

Lemma written_item_key now it p :
  written now it p → item_key it = Return (lift_key (row_key p)).
Proof. intros [H1 H2]. unfold item_key. by rewrite H1, H2. Qed.


Lemma well_formed_key_present it : well_formed it = true → key_present it = true.
Proof.
  unfold well_formed, key_present.
  destruct (i_source it), (i_source_id it); done.
Qed.

Lemma storable_key_present it : storable it = true → key_present it = true.
Proof. intros (? & _)%storable_inv. by apply well_formed_key_present. Qed.

(** ** The columns of a statement *)

Lemma under_column_same {A} (first later : slot A) :
  has_key later = has_key first → under_column first later = Some later.
Proof. by destruct first, later. Qed.

Lemma under_column_Py {A} (first later : slot A) a :
  under_column first later = Some (Py a) → later = Py a.
Proof. destruct first, later; simpl; congruence. Qed.

(** A later dict with the columns of the first is written as if it were
    first. *)
Lemma under_columns_prepare it0 it :
  columns_of it = columns_of it0 → one_metadata_key it = true →
  ∃ r, under_columns (prepare_row it0) (prepare_row it) = Some r
       ∧ ∀ now, proposed now r = proposed now (prepare_row it).
Proof.
  intros Hc Hone. unfold columns_of in Hc.
  injection Hc as H1 H2 H3 H4 H5 H6 H7 H8 H9 H10 H11 H12.
  unfold under_columns.
  rewrite metadata_entry_prepare, (later_metadata_entry_prepare it Hone).
  destruct (row_dict_prepare it0) as (-> & -> & -> & -> & -> & -> & -> & -> & -> & -> & ->).
  pose proof (row_dict_prepare it) as Hd. cbn zeta in Hd.
  destruct Hd as (E1 & E2 & E3 & E4 & E5 & E6 & E7 & E8 & E9 & E10 & E11).
  rewrite E1, E2, E3, E4, E5, E6, E7, E8, E9, E10, E11.
  rewrite !under_column_same by done. cbn.
  eexists. split; [reflexivity |].
  intros now. unfold proposed. rewrite metadata_entry_prepare.
  rewrite E1, E2, E3, E4, E5, E6, E7, E8, E9, E10, E11. reflexivity.
Qed.

(** A chunk of records the store takes, all with the same columns, is
    written record by record. *)
Lemma statement_tuples_ok now its cols :
  Forall (fun it => storable it = true ∧ columns_of it = cols) its →
  ∃ ps, statement_tuples now (prepare_row <$> its) = Return ps
        ∧ Forall2 (written now) its ps.
Proof.
  intros Hall. destruct its as [|it0 rest].
  { exists []. split; [reflexivity | constructor]. }
  apply Forall_cons in Hall as [[Hst0 Hc0] Hrest].
  assert (Hr : Forall (fun it => ∃ r, under_columns (prepare_row it0) (prepare_row it)
                                      = Some r
                                      ∧ ∀ now, proposed now r = proposed now (prepare_row it))
                 rest).
  { eapply Forall_impl; [exact Hrest |]. intros it [Hst Hc].
    apply under_columns_prepare; [congruence |].
    by apply storable_inv in Hst as (_ & _ & ? & _). }
  apply Forall_exists_Forall2_l in Hr as [rest' Hr].
  assert (Hm : mapM (under_columns (prepare_row it0)) (prepare_row <$> rest) = Some rest').
  { apply mapM_Some, Forall2_fmap_l.
    eapply Forall2_impl; [exact Hr | by intros ?? [? _]]. }
  destruct (proposed_total now it0 Hst0) as [p0 Hp0].
  assert (Hps : Forall (fun it => ∃ p, proposed now (prepare_row it) = Some p) rest).
  { eapply Forall_impl; [exact Hrest |]. intros it [Hst _].
    by apply proposed_total. }
  apply Forall_exists_Forall2_l in Hps as [ps Hps].
  exists (p0 :: ps). split.
  - unfold statement_tuples, values_rows. rewrite fmap_cons, Hm.
    cbn [mbind option_bind].
    assert (Hq : mapM (proposed now) (prepare_row it0 :: rest') = Some (p0 :: ps)).
    { apply mapM_Some. constructor; [done |].
      apply Forall2_same_length_lookup_2.
      - rewrite <- (Forall2_length _ _ _ Hr). by eapply Forall2_length.
      - intros i r p Hi Hp.
        destruct (Forall2_lookup_r _ _ _ _ _ Hr Hi) as (it & Hit & _ & Heq).
        destruct (Forall2_lookup_l _ _ _ _ _ Hps Hit) as (p' & Hp' & Hpr).
        rewrite Heq. congruence. }
    by rewrite Hq.
  - constructor; [by apply proposed_written |].
    eapply Forall2_impl; [exact Hps |]. intros ??. apply proposed_written.
Qed.

Lemma proposed_identity now r p :
  proposed now r = Some p → identity_written (row_dict r) p.
Proof.
  unfold proposed, identity_written.
  destruct (i_source (row_dict r)), (i_source_id (row_dict r)),
    (i_category (row_dict r)), (i_item_type (row_dict r)),
    (i_created_at (row_dict r)); try done.
  destruct (column_not_null _ (metadata_entry r)), (column_not_null _ (i_tags _)),
    (column_not_null _ (i_is_public _)), (column_not_null _ (i_synced_at _)); try done.
  by intros [= <-].
Qed.

Lemma under_columns_identity r0 r r' p :
  under_columns r0 r = Some r' →
  identity_written (row_dict r') p → identity_written (row_dict r) p.
Proof.
  unfold under_columns, identity_written.
  destruct (under_column (i_source _) _) as [s|] eqn:E1; [| done].
  destruct (under_column (i_source_id _) _) as [sid|] eqn:E2; [| done].
  destruct (under_column (i_category _) _) as [c|] eqn:E3; [| done].
  destruct (under_column (i_item_type _) _) as [t|] eqn:E4; [| done].
  destruct (under_column (i_title _) _) as [ti|]; [| done].
  destruct (under_column (i_content _) _) as [co|]; [| done].
  destruct (under_column (metadata_entry _) _) as [md|]; [| done].
  destruct (under_column (i_tags _) _) as [tg|]; [| done].
  destruct (under_column (i_is_public _) _) as [pub|]; [| done].
  destruct (under_column (i_source_url _) _) as [url|]; [| done].
  destruct (under_column (i_created_at _) _) as [ca|] eqn:E5; [| done].
  destruct (under_column (i_synced_at _) _) as [sy|]; [| done].
  cbn. intros [= <-]. cbn. intros (-> & -> & -> & -> & ->).
  apply under_column_Py in E1, E2, E3, E4, E5. done.
Qed.

Lemma statement_tuples_identity now b ps :
  statement_tuples now b = Return ps →
  Forall2 (fun r p => identity_written (row_dict r) p) b ps.
Proof.
  unfold statement_tuples, values_rows.
  destruct b as [|r0 rest].
  { cbn. intros [= <-]. constructor. }
  destruct (mapM (under_columns r0) rest) as [rest'|] eqn:Hm;
    cbn [mbind option_bind]; [| done].
  destruct (mapM (proposed now) (r0 :: rest')) as [qs|] eqn:Hq; [| done].
  intros [= <-]. apply mapM_Some in Hm, Hq.
  apply Forall2_cons_inv_l in Hq as (p0 & ps & Hp0 & Hps & ->).
  constructor; [by eapply proposed_identity |].
  apply Forall2_same_length_lookup_2.
  - rewrite (Forall2_length _ _ _ Hm). by eapply Forall2_length.
  - intros i r p Hi Hp.
    destruct (Forall2_lookup_l _ _ _ _ _ Hm Hi) as (r' & Hr' & Hu).
    destruct (Forall2_lookup_l _ _ _ _ _ Hps Hr') as (p' & Hp' & Hpr).
    assert (p' = p) as -> by congruence.
    eapply under_columns_identity; [exact Hu |]. by eapply proposed_identity.
Qed.

Lemma identity_written_key it p :
  identity_written it p → item_key it = Return (lift_key (row_key p)).
Proof. intros (H1 & H2 & _). unfold item_key. by rewrite H1, H2. Qed.

Lemma identity_written_prepare it p :
  identity_written (row_dict (prepare_row it)) p → identity_written it p.
Proof.
  unfold identity_written.
  by destruct (row_dict_prepare it) as (-> & -> & -> & -> & _ & _ & _ & _ & _ & -> & _).
Qed.

(** ** The loop over the chunks *)

Lemma batches_fmap {A B} (f : A → B) size (l : list A) :
  batches size (f <$> l) = (fun b : list A => f <$> b) <$> batches size l.
Proof.
  unfold batches. rewrite length_fmap, <- list_fmap_compose.
  apply list_fmap_ext. intros _ i _. cbn. by rewrite fmap_take, fmap_drop.
Qed.

Lemma Forall2_concat_lists {A B} (R : A → B → Prop) ls ks :
  Forall2 (Forall2 R) ls ks → Forall2 R (concat ls) (concat ks).
Proof. induction 1; simpl; [constructor | by apply Forall2_app]. Qed.

Lemma NoDup_concat_elem {A B} (f : A → B) (ls : list (list A)) l :
  NoDup (f <$> concat ls) → l ∈ ls → NoDup (f <$> l).
Proof.
  induction ls as [|l0 ls IH]; [by intros _ ?%elem_of_nil |].
  cbn. rewrite fmap_app. intros (H0 & _ & Hls)%NoDup_app [->|Hin]%elem_of_cons; auto.
Qed.

Lemma execute_insert_ok now b ps s :
  statement_tuples now b = Return ps → NoDup (row_key <$> ps) →
  execute_insert now b s =
  (Return tt,
   {| data_items := upsert_all now ps (data_items s);
      sync_state := sync_state s;
      calls := calls s ++ [ExecuteInsertDataItems (length b)] |}).
Proof.
  intros Hps Hnd. unfold execute_insert, insert_statement. unfold_M. simpl.
  rewrite Hps, decide_True by done. reflexivity.
Qed.

Lemma for_each_execute now bs pss : ∀ s,
  Forall2 (fun b ps => statement_tuples now b = Return ps ∧ NoDup (row_key <$> ps)) bs pss →
  for_each bs (execute_insert now) s =
  (Return tt,
   {| data_items := upsert_all now (concat pss) (data_items s);
      sync_state := sync_state s;
      calls := calls s ++ ((fun b => ExecuteInsertDataItems (length b)) <$> bs) |}).
Proof.
  intros s H. revert s. induction H as [|b ps bs pss [Hb Hnd] _ IH]; intros s.
  - simpl. rewrite app_nil_r. by destruct s.
  - cbn [for_each]. unfold mbind, M_bind, bind.
    rewrite (execute_insert_ok _ _ _ _ Hb Hnd), IH. simpl.
    unfold upsert_all. rewrite foldl_app, <- app_assoc. reflexivity.
Qed.

(** A loop that returned made every statement succeed. *)
Lemma for_each_execute_Return now bs : ∀ s s',
  for_each bs (execute_insert now) s = (Return tt, s') →
  ∃ pss, Forall2 (fun b ps => statement_tuples now b = Return ps
                              ∧ NoDup (row_key <$> ps)) bs pss.
Proof.
  induction bs as [|b bs IH]; intros s s'.
  - exists []. constructor.
  - cbn [for_each]. unfold mbind, M_bind, bind.
    destruct (execute_insert now b s) as [[[]|e] s1] eqn:Hb; [| done].
    intros [pss Hpss]%IH.
    unfold execute_insert, insert_statement in Hb. unfold_M. simpl in Hb.
    destruct (statement_tuples now b) as [ps|e] eqn:Hps; [| done].
    destruct (decide (NoDup (row_key <$> ps))) as [Hnd|]; [| done].
    exists (ps :: pss). by constructor.
Qed.

Lemma Forall2_keys (seen : list ((option string * option string) * item)) ps :
  Forall2 (fun kv p => kv.1 = lift_key (row_key p)) seen ps →
  seen.*1 = lift_key <$> (row_key <$> ps).
Proof. induction 1 as [|kv p seen ps E _ IH]; [done |]. rewrite !fmap_cons, E, IH. done. Qed.

#[global] Instance lift_key_inj : Inj (=) (=) lift_key.
Proof. intros [a b] [c d] [= -> ->]. done. Qed.

Lemma uniform_columns items :
  uniform items = true → ∃ cols, Forall (fun it => columns_of it = cols) items.
Proof.
  destruct items as [|it0 rest]; [by exists [] |].
  cbn. intros H. exists (columns_of it0). constructor; [done |].
  apply Forall_forall. intros it Hin.
  rewrite forallb_forall in H.
  eapply bool_decide_eq_true_1, H, list_elem_of_In, Hin.
Qed.

(** The chunks of a batch of records the store takes, all of the same
    columns: every statement succeeds, on the records as they are. *)
Lemma chunks_ok now items :
  Forall (fun it => storable it = true) items →
  uniform items = true →
  ∃ seen pss,
    dedup_loop [] items = Return seen
    ∧ Forall2 (fun b qs => statement_tuples now b = Return qs ∧ NoDup (row_key <$> qs))
        (batches batch_size (prepare_row <$> seen.*2)) pss
    ∧ Forall2 (fun kv p => written now kv.2 p ∧ kv.1 = lift_key (row_key p))
        seen (concat pss)
    ∧ NoDup (row_key <$> concat pss).
Proof.
  intros Hst Hun.
  destruct (uniform_columns items Hun) as [cols Hcols].
  destruct (dedup_loop_spec items []) as (seen & Hrun & Hnd & Hin & _).
  { eapply Forall_impl; [exact Hst | apply storable_key_present]. }
  assert (Hseen : Forall (fun it => storable it = true ∧ columns_of it = cols) seen.*2).
  { apply Forall_forall. intros it ([k it'] & -> & Hkv)%list_elem_of_fmap.
    apply Hin in Hkv as [H0|[H1 _]]; [by apply elem_of_nil in H0 |].
    rewrite Forall_forall in Hst, Hcols. cbn in *. auto. }
  assert (Hbs : Forall (fun b => ∃ qs, statement_tuples now (prepare_row <$> b) = Return qs
                                       ∧ Forall2 (written now) b qs)
                  (batches batch_size seen.*2)).
  { apply Forall_forall. intros b Hb. apply (statement_tuples_ok now b cols).
    apply batches_sublist in Hb. rewrite Forall_forall in Hseen.
    apply Forall_forall. intros it Hit. eapply Hseen, elem_of_sublist; eauto. }
  apply Forall_exists_Forall2_l in Hbs as [pss Hpss].
  assert (Hw : Forall2 (written now) seen.*2 (concat pss)).
  { rewrite <- (concat_batches batch_size seen.*2) by (unfold batch_size; lia).
    apply Forall2_concat_lists. eapply Forall2_impl; [exact Hpss | by intros ?? [_ ?]]. }
  assert (Hps : Forall2 (fun kv p => written now kv.2 p ∧ kv.1 = lift_key (row_key p))
                  seen (concat pss)).
  { rewrite Forall2_fmap_l in Hw.
    apply Forall2_same_length_lookup_2; [by eapply Forall2_length |].
    intros i [k it] p Hi Hp.
    pose proof (Forall2_lookup_lr _ _ _ _ _ _ Hw Hi Hp) as Hwp. cbn in Hwp.
    split; [done |]. cbn.
    assert (Hk : (k, it) ∈ seen) by (by eapply list_elem_of_lookup_2).
    apply Hin in Hk as [H0|[_ Hk]]; [by apply elem_of_nil in H0 |]. cbn in Hk.
    apply written_item_key in Hwp. congruence. }
  assert (Hndps : NoDup (row_key <$> concat pss)).
  { eapply (NoDup_fmap_1 lift_key). rewrite <- (Forall2_keys seen).
    - apply Hnd, NoDup_nil_2.
    - eapply Forall2_impl; [exact Hps | by intros ?? [_ ?]]. }
  exists seen, pss. split_and!; try done.
  rewrite batches_fmap. apply Forall2_fmap_l.
  apply Forall2_same_length_lookup_2; [by eapply Forall2_length |].
  intros i b qs Hb Hqs.
  destruct (Forall2_lookup_lr _ _ _ _ _ _ Hpss Hb Hqs) as [Hbq _].
  split; [done |].
  eapply NoDup_concat_elem; [exact Hndps |]. by eapply list_elem_of_lookup_2.
Qed.

Lemma upsert_items_ok now items s :
  Forall (fun it => storable it = true) items →
  uniform items = true →
  ∃ seen ps cs,
    dedup_loop [] items = Return seen
    ∧ Forall2 (fun kv p => written now kv.2 p ∧ kv.1 = lift_key (row_key p)) seen ps
    ∧ NoDup (row_key <$> ps)
    ∧ upsert_items now items s =
      (Return (length items),
       {| data_items := upsert_all now ps (data_items s);
          sync_state := sync_state s;
          calls := calls s ++ cs |}).
Proof.
  intros Hst Hun.
  destruct (chunks_ok now items Hst Hun) as (seen & pss & Hrun & Hb & Hps & Hndps).
  exists seen, (concat pss).
  destruct items as [|it items'].
  - exists []. simpl in Hrun. injection Hrun as <-.
    split_and!; try done. simpl.
    apply Forall2_nil_inv_l in Hps as ->. simpl. rewrite app_nil_r. by destruct s.
  - eexists. split_and!; try done.
    unfold upsert_items. rewrite Hrun. unfold mbind, M_bind, bind.
    rewrite (for_each_execute _ _ _ _ Hb).
    unfold_M. simpl. rewrite <- app_assoc. reflexivity.
Qed.

Lemma find_row_proposed now seen ps k :
  Forall2 (fun kv p => written now kv.2 p ∧ kv.1 = lift_key (row_key p)) seen ps →
  match dict_lookup (lift_key k) seen with
  | Some it => ∃ p, written now it p ∧ find_row k ps = Some p
  | None => find_row k ps = None
  end.
Proof.
  induction 1 as [|[k0 it] p seen ps [Hp Hk] _ IH]; simpl in *; [done |].
  subst k0. destruct (decide (row_key p = k)) as [->|E].
  - rewrite decide_True by done. eauto.
  - rewrite decide_False; [exact IH |]. intros ?%(inj lift_key). done.
Qed.

Lemma upsert_items_rows now items s :
  Forall (fun it => storable it = true) items →
  uniform items = true →
  ∃ s',
    upsert_items now items s = (Return (length items), s')
    ∧ sync_state s' = sync_state s
    ∧ (NoDup (row_key <$> data_items s) → NoDup (row_key <$> data_items s'))
    ∧ ∀ k,
        match last_with_key (lift_key k) items with
        | Some it =>
            ∃ p, written now it p
                 ∧ find_row k (data_items s') =
                   Some (match find_row k (data_items s) with
                         | Some x => do_update now p x
                         | None => p
                         end)
        | None => find_row k (data_items s') = find_row k (data_items s)
        end.
Proof.
  intros Hst Hun.
  destruct (upsert_items_ok now items s Hst Hun)
    as (seen & ps & cs & Hrun & Hps & Hnd & Hup).
  destruct (dedup_loop_spec items []) as (seen' & Hrun' & _ & _ & Hlk).
  { eapply Forall_impl; [exact Hst | apply storable_key_present]. }
  rewrite Hrun in Hrun'. injection Hrun' as <-.
  eexists. split; [exact Hup |]. simpl. split_and!.
  - done.
  - apply NoDup_upsert_all.
  - intros k. rewrite upsert_all_find by done.
    pose proof (find_row_proposed now seen ps k Hps) as Hf.
    rewrite Hlk in Hf. simpl in Hf.
    destruct (last_with_key (lift_key k) items) as [it|].
    + destruct Hf as (p & Hp & ->). eauto.
    + by rewrite Hf.
Qed.

Lemma upsert_items_return_value now items s r s' :
  upsert_items now items s = (Return r, s') → r = length items.
Proof.
  unfold upsert_items. destruct items as [|it items]; [by intros [= <- _] |].
  destruct (dedup_loop [] (it :: items)); [| by unfold raise].
  unfold_M. destruct (for_each _ _ s) as [[[]|e] s1]; [| done].
  by intros [= <- _].
Qed.

Lemma filter_all_key k items it :
  Forall (fun it => item_key it = Return k) items → it ∈ items →
  is_Some (last_with_key k items).
Proof. intros H Hin. rewrite Forall_forall in H. eapply last_with_key_Some; eauto. Qed.

(** ** The upsert engine *)



(** C2.  The claim fails on the insert path: a record for a new key that
    carries a [synced_at] is stored with that value, not with the time of
    the write, which is 2026-02-23 here. *)
Example upsert_items_supplied_synced_at :
  ∃ s' x,
    upsert_items t_2026_02_23 [steps_item "A" (Py t_2026_02_21)] empty_session
    = (Return 1, s')
    ∧ data_items s' = [x]
    ∧ row_key x = ("apple-health", "steps-20260221")
    ∧ synced_at x = Some t_2026_02_21.
Proof.
  exists (upsert_items t_2026_02_23 [steps_item "A" (Py t_2026_02_21)] empty_session).2.
  eexists. vm_compute. split_and!; reflexivity.
Qed.

(** C4.  [upsert_items] never returns anything but the length of the list
    it was given.  For a batch of records the store takes, all giving the
    same columns, it returns: 0 for the empty list, with the session
    untouched, and [n] for [n] records of one key, which leave a single
    row. *)
Theorem upsert_items_returns_input_length now items s :
  Forall (fun it => storable it = true) items →
  uniform items = true →
  NoDup (row_key <$> data_items s) →
  (∀ items0 s0 r s0', upsert_items now items0 s0 = (Return r, s0') → r = length items0)
  ∧ ∃ s',
      upsert_items now items s = (Return (length items), s')
      ∧ upsert_items now [] s = (Return 0, s)
      ∧ (items = [] → s' = s)
      ∧ ∀ k, items ≠ [] →
          Forall (fun it => item_key it = Return (lift_key k)) items →
          length (filter (fun y => row_key y = k) (data_items s')) = 1.
Proof.
  intros Hst Hun Hnd.
  split; [intros items0 s0 r s0'; apply upsert_items_return_value |].
  destruct (upsert_items_rows now items s Hst Hun) as (s' & Hup & _ & Hnd' & Hrows).
  exists s'. split_and!; [done | done | |].
  - intros ->. simpl in Hup. by injection Hup.
  - intros k Hne Hall. destruct items as [|it items]; [done |].
    destruct (filter_all_key _ _ it Hall) as [last_ Hlast]; [left |].
    specialize (Hrows k). rewrite Hlast in Hrows. destruct Hrows as (p & _ & Hfind).
    rewrite filter_key_find_row by auto. by rewrite Hfind.
Qed.

Lemma upsert_items_returns_input_length_witness :
  (∀ items0 s0 r s0',
     upsert_items t_2026_02_23 items0 s0 = (Return r, s0') → r = length items0)
  ∧ ∃ s',
      upsert_items t_2026_02_23
        [steps_item "A" Missing; steps_item "B" Missing; steps_item "C" Missing]
        empty_session = (Return 3, s')
      ∧ upsert_items t_2026_02_23 [] empty_session = (Return 0, empty_session)
      ∧ ([steps_item "A" Missing; steps_item "B" Missing; steps_item "C" Missing] = []
         → s' = empty_session)
      ∧ ∀ k, [steps_item "A" Missing; steps_item "B" Missing; steps_item "C" Missing] ≠ [] →
          Forall (fun it => item_key it = Return (lift_key k))
            [steps_item "A" Missing; steps_item "B" Missing; steps_item "C" Missing] →
          length (filter (fun y => row_key y = k) (data_items s')) = 1.
Proof.
  apply (upsert_items_returns_input_length t_2026_02_23
           [steps_item "A" Missing; steps_item "B" Missing; steps_item "C" Missing]
           empty_session).
  - repeat constructor.
  - reflexivity.
  - apply NoDup_nil_2.
Defined.

Example missing_category_trace :
  upsert_items t_2026_02_23 [item_without (Py "steps-20260221") Missing] empty_session
  = (Raise (IntegrityError "null value in column violates not-null constraint"),
     {| data_items := []; sync_state := ∅; calls := [ExecuteInsertDataItems 1] |}).
Proof. reflexivity. Qed.

(** C8, as stated, fails: a record without [category] is not refused by the
    engine; the batch is sent to the store, whose constraint rejects it. *)
Lemma missing_category_reaches_the_store : ¬ validation_as_stated.
Proof.
  intros H.
  destruct (H t_2026_02_23 [item_without (Py "steps-20260221") Missing] empty_session)
    as [e He].
  - left. reflexivity.
  - vm_compute in He. discriminate.
Qed.

(** C8, amended.  A batch with a record that lacks the key [source] or
    [source_id] makes [upsert_items] raise a [KeyError] in the dedup loop:
    the session is the one it was given, no call made, no row changed. *)
Theorem upsert_items_missing_key now items s :
  Exists (fun it => key_present it = false) items →
  ∃ k,
    upsert_items now items s = (Raise (KeyError k), s)
    ∧ (k = "source" ∨ k = "source_id").
Proof.
  intros Hex.
  destruct (dedup_loop_KeyError items [] Hex) as (k & Hk & Hor).
  exists k. split; [| done].
  unfold upsert_items. destruct items as [|it items]; [by apply Exists_nil in Hex |].
  by rewrite Hk.
Qed.

Lemma upsert_items_missing_key_witness :
  ∃ k,
    upsert_items t_2026_02_23
      [steps_item "A" Missing; item_without Missing (Py "health")] session_with_steps
    = (Raise (KeyError k), session_with_steps)
    ∧ (k = "source" ∨ k = "source_id").
Proof.
  apply (upsert_items_missing_key t_2026_02_23
           [steps_item "A" Missing; item_without Missing (Py "health")] session_with_steps).
  right. left. reflexivity.
Defined.

(** C9.  Upserting a second time a batch of records the store takes, all
    giving the same columns, changes no column but [synced_at]: the table
    after the second call has the rows of the table after the first, in the
    same order. *)
Theorem upsert_items_idempotent now1 now2 items s :
  Forall (fun it => storable it = true) items →
  uniform items = true →
  NoDup (row_key <$> data_items s) →
  ∃ s1 s2,
    upsert_items now1 items s = (Return (length items), s1)
    ∧ upsert_items now2 items s1 = (Return (length items), s2)
    ∧ Forall2 (fun x y => without_synced_at x = without_synced_at y)
        (data_items s1) (data_items s2)
    ∧ sync_state s2 = sync_state s1.
Proof.
  intros Hst Hun Hnd.
  destruct (upsert_items_ok now1 items s Hst Hun)
    as (seen & ps1 & cs1 & Hrun1 & Hps1 & Hnd1 & Hup1).
  eexists.
  edestruct (upsert_items_ok now2 items) as (seen2 & ps2 & cs2 & Hrun2 & Hps2 & Hnd2 & Hup2);
    [exact Hst | exact Hun |].
  eexists. split; [exact Hup1 |]. split; [exact Hup2 |].
  rewrite Hrun1 in Hrun2. injection Hrun2 as <-.
  cbn [data_items sync_state]. split; [| done].
  apply upsert_all_same; [by apply Forall_Forall2_diag, Forall_true |].
  apply Forall_forall. intros p2 Hin.
  apply list_elem_of_lookup in Hin as [i Hi].
  destruct (Forall2_lookup_r _ _ _ _ _ Hps2 Hi) as ([k0 it] & Hkv & Hp2 & _).
  destruct (Forall2_lookup_l _ _ _ _ _ Hps1 Hkv) as (p1 & Hi1 & Hp1 & _).
  destruct (without_synced_at_key _ _ (written_without_synced_at _ _ _ _ _ Hp1 Hp2))
    as [Hkey Hmut].
  rewrite upsert_all_find by done. rewrite <- Hkey.
  rewrite find_row_elem; [| done | by eapply list_elem_of_lookup_2].
  eexists. split; [reflexivity |]. rewrite <- Hmut.
  by destruct (find_row (row_key p1) (data_items s)).
Qed.

Lemma upsert_items_idempotent_witness :
  ∃ s1 s2,
    upsert_items t_2026_02_22
      [steps_item "A" (Py t_2026_02_21); steps_item "B" (Py t_2026_02_21)]
      session_with_steps = (Return 2, s1)
    ∧ upsert_items t_2026_02_23
        [steps_item "A" (Py t_2026_02_21); steps_item "B" (Py t_2026_02_21)]
        s1 = (Return 2, s2)
    ∧ Forall2 (fun x y => without_synced_at x = without_synced_at y)
        (data_items s1) (data_items s2)
    ∧ sync_state s2 = sync_state s1.
Proof.
  apply (upsert_items_idempotent t_2026_02_22 t_2026_02_23
           [steps_item "A" (Py t_2026_02_21); steps_item "B" (Py t_2026_02_21)]
           session_with_steps).
  - repeat constructor.
  - reflexivity.
  - apply NoDup_singleton.
Defined.

(** ** ISO dates *)

#[local] Arguments String.append !_ _ / : simpl nomatch.

Lemma str_app_assoc (a b c : string) : (a +:+ b) +:+ c = a +:+ (b +:+ c).
Proof. induction a as [|x a IH]; simpl; [done | by f_equal]. Qed.

Lemma str_app_nil_r (a : string) : a +:+ "" = a.
Proof. induction a as [|x a IH]; simpl; [done | by f_equal]. Qed.

Lemma digit_value_char d :
  (0 ≤ d ≤ 9)%Z → digit_value (digit_char d) = Some d.
Proof.
  intros H.
  assert (d = 0 ∨ d = 1 ∨ d = 2 ∨ d = 3 ∨ d = 4 ∨ d = 5 ∨ d = 6 ∨ d = 7 ∨ d = 8 ∨ d = 9)%Z
    as Hd by lia.
  repeat destruct Hd as [->|Hd]; try reflexivity. by subst.
Qed.

Lemma digit_char_neq c d :
  digit_value c = None → (0 ≤ d ≤ 9)%Z → Ascii.eqb (digit_char d) c = false.
Proof.
  intros Hc Hd. destruct (Ascii.eqb_spec (digit_char d) c) as [<-|]; [| done].
  rewrite digit_value_char in Hc; done.
Qed.

Lemma parse_digits_app k1 k2 acc s :
  parse_digits (k1 + k2) acc s =
  match parse_digits k1 acc s with
  | Some (a, s') => parse_digits k2 a s'
  | None => None
  end.
Proof.
  revert acc s. induction k1 as [|k1 IH]; intros acc s; simpl; [done |].
  destruct s as [|c s]; [done |]. destruct (digit_value c); simpl; [apply IH | done].
Qed.

Lemma parse_digits_zero_padded k : ∀ n acc rest,
  (0 ≤ n < 10 ^ Z.of_nat k)%Z →
  parse_digits k acc (zero_padded k n +:+ rest)
  = Some ((acc * 10 ^ Z.of_nat k + n)%Z, rest).
Proof.
  induction k as [|k IH]; intros n acc rest Hn.
  - simpl. f_equal. f_equal. change (10 ^ Z.of_nat 0)%Z with 1%Z in *. lia.
  - rewrite Nat2Z.inj_succ, Z.pow_succ_r in * by lia.
    cbn [zero_padded]. rewrite str_app_assoc.
    replace (S k) with (k + 1) by lia. rewrite parse_digits_app.
    rewrite IH by (split; [apply Z.div_pos; lia | apply Z.div_lt_upper_bound; lia]).
    simpl. rewrite digit_value_char by (pose proof (Z.mod_pos_bound n 10); lia).
    simpl. f_equal. f_equal.
    pose proof (Z.div_mod n 10 ltac:(lia)). lia.
Qed.

Lemma str_contains_app c a b :
  str_contains c (a +:+ b) = str_contains c a || str_contains c b.
Proof. induction a as [|x a IH]; simpl; [done |]. by rewrite IH, orb_assoc. Qed.

Lemma str_contains_zero_padded c k n :
  digit_value c = None → str_contains c (zero_padded k n) = false.
Proof.
  intros Hc. revert n. induction k as [|k IH]; intros n; simpl; [done |].
  rewrite str_contains_app, IH. simpl.
  rewrite digit_char_neq; [done | done |].
  pose proof (Z.mod_pos_bound n 10). lia.
Qed.

Lemma str_replace_app c by_ a b :
  str_replace c by_ (a +:+ b) = str_replace c by_ a +:+ str_replace c by_ b.
Proof.
  induction a as [|x a IH]; simpl; [done |].
  destruct (Ascii.eqb x c); rewrite IH; [by rewrite str_app_assoc | done].
Qed.

Lemma str_replace_absent c by_ s :
  str_contains c s = false → str_replace c by_ s = s.
Proof.
  induction s as [|x s IH]; simpl; [done |].
  destruct (Ascii.eqb x c); simpl; [done |]. intros H. by rewrite IH.
Qed.

Lemma split_tz_app a b :
  str_contains "+" a = false → str_contains "-" a = false →
  split_tz (a +:+ b) = (a +:+ (split_tz b).1, (split_tz b).2).
Proof.
  induction a as [|x a IH]; simpl.
  - by destruct (split_tz b).
  - destruct (Ascii.eqb x "+"); [done |]. destruct (Ascii.eqb x "-"); [done |].
    simpl. intros H1 H2. rewrite IH by done. done.
Qed.

Lemma days_in_month_le y m : (days_in_month y m ≤ 31)%Z.
Proof.
  unfold days_in_month. repeat case_match; lia.
Qed.

Lemma valid_date_bounds y m d :
  valid_date y m d = true →
  (0 ≤ y < 10 ^ Z.of_nat 4 ∧ 0 ≤ m < 10 ^ Z.of_nat 2 ∧ 0 ≤ d < 10 ^ Z.of_nat 2)%Z.
Proof.
  unfold valid_date. pose proof (days_in_month_le y m).
  rewrite !andb_true_iff, !Z.leb_le. change (10 ^ Z.of_nat 4)%Z with 10000%Z.
  change (10 ^ Z.of_nat 2)%Z with 100%Z. lia.
Qed.

Lemma valid_time_bounds h mi sec us :
  valid_time h mi sec us = true →
  (0 ≤ h < 10 ^ Z.of_nat 2 ∧ 0 ≤ mi < 10 ^ Z.of_nat 2 ∧ 0 ≤ sec < 10 ^ Z.of_nat 2)%Z.
Proof.
  unfold valid_time.
  rewrite !andb_true_iff, !Z.leb_le, !Z.ltb_lt.
  change (10 ^ Z.of_nat 2)%Z with 100%Z. lia.
Qed.

(** What the parser accepts holds no ["T"], and a date followed by
    ["T00:00:00+00:00"] is read within the date. *)

Lemma digit_value_not c d x :
  digit_value c = Some d → digit_value x = None → Ascii.eqb c x = false.
Proof.
  intros Hc Hx. destruct (Ascii.eqb_spec c x) as [->|]; [congruence | done].
Qed.

Lemma parse_digits_consumes x k : ∀ acc s n s',
  digit_value x = None →
  parse_digits k acc s = Some (n, s') →
  str_contains x s = str_contains x s'
  ∧ String.length s = k + String.length s'.
Proof.
  induction k as [|k IH]; intros acc s n s' Hx; simpl.
  - by intros [= _ ->].
  - destruct s as [|c s]; [done |].
    destruct (digit_value c) as [d|] eqn:Hc; [| done]. simpl.
    intros [H1 H2]%IH; [| done]. rewrite (digit_value_not _ _ _ Hc Hx). simpl.
    split; [done | lia].
Qed.

Lemma parse_digits_before k : ∀ acc d t n rest,
  parse_digits k acc (d +:+ String "T" t) = Some (n, rest) →
  ∃ d', rest = d' +:+ String "T" t ∧ parse_digits k acc d = Some (n, d').
Proof.
  induction k as [|k IH]; intros acc d t n rest; simpl.
  - intros [= <- <-]. eauto.
  - destruct d as [|c d]; simpl; [done |].
    destruct (digit_value c); [| done]. simpl. apply IH.
Qed.

Lemma expect_char_before c d t rest :
  Ascii.eqb "T" c = false →
  expect_char c (d +:+ String "T" t) = Some rest →
  ∃ d', rest = d' +:+ String "T" t ∧ expect_char c d = Some d'.
Proof.
  intros Hc. destruct d as [|c' d]; cbn [append expect_char].
  - by rewrite Hc.
  - destruct (Ascii.eqb c' c); [| done]. intros [= <-]. eauto.
Qed.

Lemma parse_isoformat_date_before d t y m dd rest :
  parse_isoformat_date (d +:+ String "T" t) = Some (y, m, dd, rest) →
  ∃ d', rest = d' +:+ String "T" t ∧ parse_isoformat_date d = Some (y, m, dd, d').
Proof.
  unfold parse_isoformat_date. intros H.
  destruct (parse_digits 4 0 (d +:+ String "T" t)) as [[y0 s1]|] eqn:E1; [| done].
  apply parse_digits_before in E1 as (d1 & -> & E1). rewrite E1. cbn [mbind option_bind] in *.
  destruct (expect_char "-" (d1 +:+ String "T" t)) as [s2|] eqn:E2; [| done].
  apply expect_char_before in E2 as (d2 & -> & E2); [| done]. rewrite E2.
  cbn [mbind option_bind] in *.
  destruct (parse_digits 2 0 (d2 +:+ String "T" t)) as [[m0 s3]|] eqn:E3; [| done].
  apply parse_digits_before in E3 as (d3 & -> & E3). rewrite E3. cbn [mbind option_bind] in *.
  destruct (expect_char "-" (d3 +:+ String "T" t)) as [s4|] eqn:E4; [| done].
  apply expect_char_before in E4 as (d4 & -> & E4); [| done]. rewrite E4.
  cbn [mbind option_bind] in *.
  destruct (parse_digits 2 0 (d4 +:+ String "T" t)) as [[d0 s5]|] eqn:E5; [| done].
  apply parse_digits_before in E5 as (d5 & -> & E5). rewrite E5. cbn [mbind option_bind] in *.
  injection H as <- <- <- <-. eauto.
Qed.

Lemma parse_fraction_no_T s f : parse_fraction s = Some f → str_contains "T" s = false.
Proof.
  unfold parse_fraction.
  destruct (String.length s) as [|[|[|[|[|[|[|[|]]]]]]]] eqn:El; try done.
  - destruct (parse_digits 3 0 s) as [[f' r]|] eqn:E; [| done]. intros _.
    apply (parse_digits_consumes "T") in E as [-> E]; [| done].
    destruct r; [done | simpl in E; lia].
  - destruct (parse_digits 6 0 s) as [[f' r]|] eqn:E; [| done]. intros _.
    apply (parse_digits_consumes "T") in E as [-> E]; [| done].
    destruct r; [done | simpl in E; lia].
Qed.

Lemma parse_hh_mm_ss_ff_no_T s r :
  parse_hh_mm_ss_ff s = Some r → str_contains "T" s = false.
Proof.
  unfold parse_hh_mm_ss_ff.
  destruct (parse_digits 2 0 s) as [[h s1]|] eqn:E1; [| done].
  apply (parse_digits_consumes "T") in E1 as [-> _]; [| done]. cbn [mbind option_bind].
  destruct s1 as [|c1 s1]; [done |].
  destruct (Ascii.eqb_spec c1 ":") as [->|]; [| done].
  destruct (parse_digits 2 0 s1) as [[m s2]|] eqn:E2; [| done].
  cbn [str_contains]. change (Ascii.eqb ":" "T") with false. cbn [orb].
  apply (parse_digits_consumes "T") in E2 as [-> _]; [| done]. cbn [mbind option_bind].
  destruct s2 as [|c2 s2]; [done |].
  destruct (Ascii.eqb_spec c2 ":") as [->|]; [| done].
  destruct (parse_digits 2 0 s2) as [[sec s3]|] eqn:E3; [| done].
  cbn [str_contains]. change (Ascii.eqb ":" "T") with false. cbn [orb].
  apply (parse_digits_consumes "T") in E3 as [-> _]; [| done]. cbn [mbind option_bind].
  destruct s3 as [|c3 s3]; [done |].
  destruct (Ascii.eqb_spec c3 ".") as [->|]; [| done].
  destruct (parse_fraction s3) as [f|] eqn:E4; [| done]. intros _.
  cbn [str_contains]. change (Ascii.eqb "." "T") with false. cbn [orb].
  by eapply parse_fraction_no_T.
Qed.

Lemma split_tz_contains_T s :
  str_contains "T" s =
  str_contains "T" (split_tz s).1
  || match (split_tz s).2 with
     | Some (_, z) => str_contains "T" z
     | None => false
     end.
Proof.
  induction s as [|c s IH]; [done |]. cbn [split_tz str_contains].
  destruct (Ascii.eqb_spec c "+") as [->|]; [done |].
  destruct (Ascii.eqb_spec c "-") as [->|]; [done |].
  destruct (split_tz s) as [t z]. cbn [fst snd str_contains] in *.
  rewrite IH. by rewrite orb_assoc.
Qed.

Lemma parse_isoformat_time_no_T s r :
  parse_isoformat_time s = Some r → str_contains "T" s = false.
Proof.
  unfold parse_isoformat_time. rewrite (split_tz_contains_T s).
  destruct (split_tz s) as [timestr tz]. cbn [fst snd].
  destruct (parse_hh_mm_ss_ff timestr) as [[[[h m] sec] us]|] eqn:E; [| done].
  rewrite (parse_hh_mm_ss_ff_no_T _ _ E). cbn [mbind option_bind orb].
  destruct tz as [[neg tzstr]|]; [| done].
  unfold parse_utcoffset.
  destruct (_ || _); [| done].
  destruct (parse_hh_mm_ss_ff tzstr) as [r'|] eqn:E'; [| done]. intros _.
  by eapply parse_hh_mm_ss_ff_no_T.
Qed.

Lemma parse_isoformat_time_midnight :
  parse_isoformat_time "00:00:00+00:00" = Some (0, 0, 0, 0, utc)%Z.
Proof. reflexivity. Qed.

Lemma fromisoformat_midnight_suffix s dt :
  fromisoformat (s +:+ "T00:00:00+00:00") = Some dt →
  ∃ y m d, parse_isoformat_date s = Some (y, m, d, "")
           ∧ dt = mk_datetime y m d 0 0 0 0 utc.
Proof.
  unfold fromisoformat.
  destruct (parse_isoformat_date (s +:+ "T00:00:00+00:00")) as [[[[y m] d] rest]|] eqn:E;
    [| done].
  apply parse_isoformat_date_before in E as (d' & -> & E). cbn [mbind option_bind].
  destruct d' as [|c r].
  - change ("" +:+ "T00:00:00+00:00") with "T00:00:00+00:00".
    cbn [mbind option_bind]. rewrite parse_isoformat_time_midnight.
    cbn [mbind option_bind].
    destruct (valid_date y m d && valid_time 0 0 0 0); [| done]. intros [= <-]. eauto.
  - change (String c r +:+ "T00:00:00+00:00") with (String c (r +:+ "T00:00:00+00:00")).
    destruct (parse_isoformat_time (r +:+ "T00:00:00+00:00")) as [x|] eqn:Et; [| done].
    apply parse_isoformat_time_no_T in Et.
    rewrite str_contains_app in Et. apply orb_false_iff in Et as [_ Et]. done.
Qed.

#[local] Arguments zero_padded : simpl never.
#[local] Arguments parse_digits : simpl never.

Lemma parse_isoformat_date_iso y m d rest :
  valid_date y m d = true →
  parse_isoformat_date (iso_date y m d +:+ rest) = Some (y, m, d, rest).
Proof.
  intros (Hy & Hm & Hd)%valid_date_bounds.
  unfold parse_isoformat_date, iso_date.
  rewrite !str_app_assoc.
  rewrite parse_digits_zero_padded by done. cbn.
  rewrite parse_digits_zero_padded by done. cbn.
  rewrite parse_digits_zero_padded by done. cbn.
  done.
Qed.

Lemma parse_hh_mm_ss_ff_iso h mi sec :
  valid_time h mi sec 0 = true →
  parse_hh_mm_ss_ff (iso_time h mi sec) = Some (h, mi, sec, 0%Z).
Proof.
  intros (Hh & Hm & Hs)%valid_time_bounds.
  unfold parse_hh_mm_ss_ff, iso_time.
  rewrite parse_digits_zero_padded by done. cbn.
  rewrite parse_digits_zero_padded by done. cbn.
  rewrite <- (str_app_nil_r (zero_padded 2 sec)).
  rewrite parse_digits_zero_padded by done. cbn.
  done.
Qed.

Lemma iso_time_no_sign h mi sec :
  str_contains "+" (iso_time h mi sec) = false
  ∧ str_contains "-" (iso_time h mi sec) = false.
Proof.
  unfold iso_time. rewrite !str_contains_app, !str_contains_zero_padded by done. done.
Qed.

Lemma iso_date_no_T_Z y m d :
  str_contains "T" (iso_date y m d) = false
  ∧ str_contains "Z" (iso_date y m d) = false.
Proof.
  unfold iso_date. rewrite !str_contains_app, !str_contains_zero_padded by done. done.
Qed.

Lemma iso_time_no_T_Z h mi sec :
  str_contains "T" (iso_time h mi sec) = false
  ∧ str_contains "Z" (iso_time h mi sec) = false.
Proof.
  unfold iso_time. rewrite !str_contains_app, !str_contains_zero_padded by done. done.
Qed.

Lemma parse_utcoffset_zero : parse_utcoffset false "00:00" = Some 0%Z.
Proof. reflexivity. Qed.

Lemma fromisoformat_utc y m d h mi sec :
  valid_date y m d = true → valid_time h mi sec 0 = true →
  fromisoformat (iso_date y m d +:+ "T" +:+ iso_time h mi sec +:+ "+00:00")
  = Some (mk_datetime y m d h mi sec 0 utc).
Proof.
  intros Hd Ht. unfold fromisoformat.
  rewrite parse_isoformat_date_iso by done. cbn [mbind option_bind append].
  unfold parse_isoformat_time.
  destruct (iso_time_no_sign h mi sec) as [H1 H2].
  rewrite split_tz_app by done.
  change (split_tz "+00:00") with ("", Some (false, "00:00")).
  cbn [fst snd]. rewrite str_app_nil_r.
  rewrite parse_hh_mm_ss_ff_iso by done. cbn [mbind option_bind].
  rewrite parse_utcoffset_zero. cbn [mbind option_bind].
  rewrite Hd, Ht. done.
Qed.

(** ** The webhook normaliser *)

Section WebhookProperties.

Variable py_str : json -> string.

Lemma parse_date_timestamp y m d h mi sec :
  valid_date y m d = true → valid_time h mi sec 0 = true →
  parse_date py_str (JStr (iso_date y m d +:+ "T" +:+ iso_time h mi sec +:+ "Z"))
  = DateOk (mk_datetime y m d h mi sec 0 utc).
Proof.
  intros Hd Ht. unfold parse_date.
  destruct (iso_date_no_T_Z y m d) as [H1 H2].
  destruct (iso_time_no_T_Z h mi sec) as [H3 H4].
  rewrite !str_contains_app, H1.
  change (str_contains "T" "T") with true. cbn [orb].
  rewrite !str_replace_app. rewrite (str_replace_absent _ _ _ H2), (str_replace_absent _ _ _ H4).
  change (str_replace "Z" "+00:00" "T") with "T".
  change (str_replace "Z" "+00:00" "Z") with "+00:00".
  rewrite fromisoformat_utc by done. done.
Qed.

Lemma parse_date_only y m d :
  valid_date y m d = true →
  parse_date py_str (JStr (iso_date y m d)) = DateOk (mk_datetime y m d 0 0 0 0 utc).
Proof.
  intros Hd. unfold parse_date.
  destruct (iso_date_no_T_Z y m d) as [-> _].
  change "T00:00:00+00:00" with ("T" +:+ iso_time 0 0 0 +:+ "+00:00").
  rewrite fromisoformat_utc by done. done.
Qed.

Lemma parse_date_with_T s :
  str_contains "T" s = true →
  parse_date py_str (JStr s) = of_iso (fromisoformat (str_replace "Z" "+00:00" s)).
Proof. intros H. unfold parse_date. by rewrite H. Qed.

Lemma parse_date_without_T s :
  str_contains "T" s = false →
  parse_date py_str (JStr s) = of_iso (fromisoformat (s +:+ "T00:00:00+00:00")).
Proof. intros H. unfold parse_date. by rewrite H. Qed.

Lemma parse_date_only_midnight date_str dt :
  str_contains "T" date_str = false →
  parse_date py_str (JStr date_str) = DateOk dt →
  ∃ y m d,
    parse_isoformat_date date_str = Some (y, m, d, "")
    ∧ dt = mk_datetime y m d 0 0 0 0 utc.
Proof.
  intros HT. rewrite (parse_date_without_T _ HT). unfold of_iso.
  destruct (fromisoformat _) as [dt'|] eqn:E; [| done].
  intros [= <-]. by apply fromisoformat_midnight_suffix.
Qed.

Lemma metrics_loop_skip metric : ∀ pre rest items,
  parse_date py_str (dict_get "date" (JStr "") metric) = DateInvalid →
  metrics_loop py_str items (pre ++ metric :: rest)
  = metrics_loop py_str items (pre ++ rest).
Proof.
  intros pre rest items H. revert items.
  induction pre as [|m0 pre IH]; intros items; cbn [app metrics_loop].
  - by rewrite H.
  - destruct (parse_date py_str (dict_get "date" (JStr "") m0)); [| apply IH | done].
    destruct (dict_get "type" _ m0); try done.
Qed.

Lemma process_webhook_data_skip now metric pre rest s :
  parse_date py_str (dict_get "date" (JStr "") metric) = DateInvalid →
  process_webhook_data py_str now (pre ++ metric :: rest) s
  = process_webhook_data py_str now (pre ++ rest) s.
Proof. intros H. unfold process_webhook_data. by rewrite metrics_loop_skip. Qed.

Lemma health_item_well_formed metric dt ty :
  well_formed (health_item py_str metric dt ty) = true.
Proof. reflexivity. Qed.

Lemma bind_ret {A} (m : M A) s : (x ← m; mret x) s = m s.
Proof. unfold_M. by destruct (m s) as [[a|e] s']. Qed.

Lemma date_refused_invalid v :
  date_refused v = true → parse_date py_str v = DateInvalid.
Proof.
  destruct v as [| | | |date_str| |]; try done.
  cbn [date_refused parse_date]. unfold iso_text, four_digits.
  destruct (str_contains "T" date_str);
    (destruct (parse_digits 4 0 _) as [|] eqn:E; [done |]); intros _;
    unfold fromisoformat, parse_isoformat_date; by rewrite E.
Qed.

Lemma metrics_loop_spec metrics : ∀ items out,
  metrics_loop py_str items metrics = Return out →
  ∃ new,
    out = items ++ new
    ∧ length new = length (filter (fun m => date_parses py_str m) metrics)
    ∧ Forall (fun it => well_formed it = true) new.
Proof.
  induction metrics as [|metric metrics IH]; intros items out; cbn [metrics_loop].
  - intros [= <-]. exists []. by rewrite app_nil_r.
  - rewrite filter_cons.
    destruct (parse_date py_str (dict_get "date" (JStr "") metric))
      as [dt| |e] eqn:E; [| | done].
    + destruct (dict_get "type" _ metric) as [| | | |ty| |]; try done.
      intros (new & -> & Hlen & Hwf)%IH.
      exists (health_item py_str metric dt ty :: new).
      rewrite <- app_assoc. split_and!; [done | | ].
      * rewrite decide_True by (unfold date_parses; by rewrite E).
        simpl. by rewrite Hlen.
      * by constructor.
    + intros (new & -> & Hlen & Hwf)%IH. exists new.
      rewrite decide_False by (unfold date_parses; rewrite E; intros []). done.
Qed.

(** On metrics dealt with as modelled the loop returns, with dicts the store
    takes, all of the same columns. *)
Lemma metrics_loop_ok metrics : ∀ items,
  Forall (fun m => metric_ok py_str m = true) metrics →
  ∃ new,
    metrics_loop py_str items metrics = Return (items ++ new)
    ∧ length new = length (filter (fun m => date_parses py_str m) metrics)
    ∧ Forall (fun it => storable it = true) new
    ∧ Forall (fun it => columns_of it = health_columns) new.
Proof.
  induction metrics as [|metric metrics IH]; intros items Hall; cbn [metrics_loop].
  - exists []. by rewrite app_nil_r.
  - apply Forall_cons in Hall as [Hm Hall]. unfold metric_ok in Hm.
    rewrite filter_cons.
    destruct (parse_date py_str (dict_get "date" (JStr "") metric))
      as [dt| |e] eqn:E; [| | done].
    + destruct (dict_get "type" _ metric) as [| | | |ty| |]; try done.
      apply andb_true_iff in Hm as [_ Hm].
      destruct (IH (items ++ [health_item py_str metric dt ty]) Hall)
        as (new & Hrun & Hlen & Hst & Hc).
      exists (health_item py_str metric dt ty :: new).
      rewrite <- app_assoc in Hrun. split_and!; [done | | by constructor | by constructor].
      rewrite decide_True by (unfold date_parses; by rewrite E).
      simpl. by rewrite Hlen.
    + destruct (IH items Hall) as (new & Hrun & Hlen & Hst & Hc). exists new.
      rewrite decide_False by (unfold date_parses; rewrite E; intros []). done.
Qed.

Lemma uniform_Forall cols items :
  Forall (fun it => columns_of it = cols) items → uniform items = true.
Proof.
  destruct items as [|it0 rest]; [done |].
  intros [H0 Hrest]%Forall_cons. cbn. apply forallb_forall. intros it Hin.
  apply bool_decide_eq_true_2. rewrite Forall_forall in Hrest.
  rewrite (Hrest it) by (by apply list_elem_of_In). done.
Qed.

Lemma filter_complement_length {A} (f : A → bool) (l : list A) :
  length (filter (fun x => f x) l) + length (filter (fun x => ¬ f x) l) = length l.
Proof.
  induction l as [|x l IH]; [done |]. rewrite !filter_cons.
  destruct (decide (f x)), (decide (¬ f x)); simpl; try lia; tauto.
Qed.

Lemma process_webhook_data_return_value now metrics s r s' :
  process_webhook_data py_str now metrics s = (Return r, s') →
  r = length (filter (fun m => date_parses py_str m) metrics).
Proof.
  unfold process_webhook_data.
  destruct (metrics_loop py_str [] metrics) as [items|e] eqn:E; [| done].
  rewrite bind_ret. intros ->%upsert_items_return_value.
  destruct (metrics_loop_spec _ _ _ E) as (new & -> & Hlen & _). done.
Qed.

Lemma insert_on_conflict_elem now p t y :
  y ∈ insert_on_conflict now p t →
  y ∈ t ∨ y = match find_row (row_key p) t with
              | Some x => do_update now p x
              | None => p
              end.
Proof.
  induction t as [|x t IH]; cbn [insert_on_conflict find_row].
  - intros ->%list_elem_of_singleton. by right.
  - destruct (decide (row_key x = row_key p)) as [E|E].
    + intros [->|Hy]%elem_of_cons; [by right | left; by right].
    + intros [->|[Hy| ->]%IH]%elem_of_cons; [left; left | left; by right | by right].
Qed.

Lemma insert_on_conflict_written now p t :
  match find_row (row_key p) t with
  | Some x => do_update now p x
  | None => p
  end ∈ insert_on_conflict now p t.
Proof.
  induction t as [|x t IH]; cbn [insert_on_conflict find_row].
  - left.
  - destruct (decide (row_key x = row_key p)) as [E|E]; [left | by right].
Qed.

Lemma stored_at_parsed now s metric ty dt :
  parse_date py_str (dict_get "date" (JStr "") metric) = DateOk dt →
  dict_get "type" (JStr "Unknown") metric = JStr ty →
  storable (health_item py_str metric dt ty) = true →
  stored_at py_str now s metric dt.
Proof.
  intros Hdate Hty Hst. unfold stored_at, process_webhook_data.
  cbn [metrics_loop]. rewrite Hdate, Hty. cbn [app].
  set (it := health_item py_str metric dt ty).
  destruct (upsert_items_ok now [it] s) as (seen & ps & cs & Hrun & Hps & _ & Hup).
  { by constructor. }
  { reflexivity. }
  cbn in Hrun. injection Hrun as <-.
  apply Forall2_cons_inv_l in Hps as (p & ps' & [Hp _] & ->%Forall2_nil_inv_l & ->).
  cbn in Hp, Hup.
  eexists _, (match find_row (row_key p) (data_items s) with
              | Some x => do_update now p x
              | None => p
              end).
  split; [rewrite bind_ret; exact Hup |]. cbn [data_items].
  destruct Hp as [Hsrc _ _ _ Hca _ _ _ _ _ _ Hsy].
  cbn in Hsrc, Hca, Hsy. injection Hsrc as Hsrc. injection Hca as Hca.
  split_and!.
  - apply insert_on_conflict_written.
  - destruct (find_row _ _) as [x|] eqn:Hf; [| done].
    apply find_row_Some in Hf as [_ Hf]. cbn. unfold row_key in Hf. congruence.
  - by destruct (find_row _ _).
  - by destruct (find_row _ _).
  - intros y [Hy| ->]%insert_on_conflict_elem; [by right | by left].
Qed.

(** C6.  A metric dated [YYYY-MM-DDTHH:MM:SSZ] is stored with that instant
    in UTC as [created_at]; one dated [YYYY-MM-DD] with midnight UTC of that
    day; a metric whose date no version of Python reads is dropped from the
    batch, the others being processed as if it were not there.  The
    dispatch is on ["T" in date_str]: a date is accepted exactly when
    [fromisoformat] accepts the text made from it, and a date without ["T"]
    that is accepted is midnight UTC of the day it spells. *)
Theorem webhook_date_parsing now s y m d h mi sec metric_t metric_d metric_bad :
  valid_date y m d = true → valid_time h mi sec 0 = true →
  dict_get "date" (JStr "") metric_t
    = JStr (iso_date y m d +:+ "T" +:+ iso_time h mi sec +:+ "Z") →
  dict_get "date" (JStr "") metric_d = JStr (iso_date y m d) →
  metric_ok py_str metric_t = true →
  metric_ok py_str metric_d = true →
  date_refused (dict_get "date" (JStr "") metric_bad) = true →
  stored_at py_str now s metric_t (mk_datetime y m d h mi sec 0 utc)
  ∧ stored_at py_str now s metric_d (mk_datetime y m d 0 0 0 0 utc)
  ∧ (∀ pre rest s0,
       Forall (fun m => metric_ok py_str m = true) (pre ++ rest) →
       process_webhook_data py_str now (pre ++ metric_bad :: rest) s0
       = process_webhook_data py_str now (pre ++ rest) s0)
  ∧ (∀ date_str dt,
       parse_date py_str (JStr date_str) = DateOk dt
       ↔ fromisoformat (iso_text date_str) = Some dt)
  ∧ ∀ date_str dt,
      str_contains "T" date_str = false →
      parse_date py_str (JStr date_str) = DateOk dt →
      ∃ y' m' d',
        parse_isoformat_date date_str = Some (y', m', d', "")
        ∧ dt = mk_datetime y' m' d' 0 0 0 0 utc.
Proof.
  intros Hd Ht Hdt Hdd Hokt Hokd Hbad.
  assert (Ht' : parse_date py_str (dict_get "date" (JStr "") metric_t)
                = DateOk (mk_datetime y m d h mi sec 0 utc)).
  { rewrite Hdt. by apply parse_date_timestamp. }
  assert (Hd' : parse_date py_str (dict_get "date" (JStr "") metric_d)
                = DateOk (mk_datetime y m d 0 0 0 0 utc)).
  { rewrite Hdd. by apply parse_date_only. }
  unfold metric_ok in Hokt, Hokd. rewrite Ht' in Hokt. rewrite Hd' in Hokd.
  split_and!.
  - destruct (dict_get "type" _ metric_t) as [| | | |ty| |] eqn:Hty; try done.
    apply andb_true_iff in Hokt as [_ Hst]. by eapply stored_at_parsed.
  - destruct (dict_get "type" _ metric_d) as [| | | |ty| |] eqn:Hty; try done.
    apply andb_true_iff in Hokd as [_ Hst]. by eapply stored_at_parsed.
  - intros pre rest s0 _. by apply process_webhook_data_skip, date_refused_invalid.
  - intros date_str dt. cbn [parse_date]. unfold iso_text.
    destruct (str_contains "T" date_str), (fromisoformat _); cbn; split; congruence.
  - apply parse_date_only_midnight.
Qed.

(** C10.  On a batch of metrics dealt with as modelled (a date that parses
    or that no version of Python reads, a type that is ASCII text, values
    the store takes), [process_webhook_data] returns the number of metrics
    whose date parsed, duplicates of a key included: the [n] metrics less
    the [k] that were skipped. *)
Theorem process_webhook_data_count now metrics s :
  Forall (fun m => metric_ok py_str m = true) metrics →
  ∃ s',
    process_webhook_data py_str now metrics s
    = (Return (length (filter (fun m => date_parses py_str m) metrics)), s')
    ∧ length (filter (fun m => date_parses py_str m) metrics)
      = length metrics - length (filter (fun m => ¬ date_parses py_str m) metrics).
Proof.
  intros Hall.
  destruct (metrics_loop_ok metrics [] Hall) as (new & Hitems & Hlen & Hst & Hc).
  destruct (upsert_items_ok now new s Hst (uniform_Forall _ _ Hc))
    as (seen & ps & cs & _ & _ & _ & Hup).
  eexists. split.
  - unfold process_webhook_data. rewrite Hitems. cbn [app].
    rewrite bind_ret, Hup, Hlen. reflexivity.
  - pose proof (filter_complement_length (date_parses py_str) metrics). lia.
Qed.

End WebhookProperties.

Lemma webhook_date_parsing_witness :
  stored_at opaque_str t_2026_02_23 empty_session heart_rate
    (mk_datetime 2026 2 21 10 30 0 0 utc)
  ∧ stored_at opaque_str t_2026_02_23 empty_session step_count
      (mk_datetime 2026 2 21 0 0 0 0 utc)
  ∧ (∀ pre rest s0,
       Forall (fun m => metric_ok opaque_str m = true) (pre ++ rest) →
       process_webhook_data opaque_str t_2026_02_23 (pre ++ undated :: rest) s0
       = process_webhook_data opaque_str t_2026_02_23 (pre ++ rest) s0)
  ∧ (∀ date_str dt,
       parse_date opaque_str (JStr date_str) = DateOk dt
       ↔ fromisoformat (iso_text date_str) = Some dt)
  ∧ ∀ date_str dt,
      str_contains "T" date_str = false →
      parse_date opaque_str (JStr date_str) = DateOk dt →
      ∃ y' m' d',
        parse_isoformat_date date_str = Some (y', m', d', "")
        ∧ dt = mk_datetime y' m' d' 0 0 0 0 utc.
Proof.
  apply (webhook_date_parsing opaque_str t_2026_02_23 empty_session
           2026 2 21 10 30 0 heart_rate step_count undated);
    vm_compute; reflexivity.
Defined.

Lemma process_webhook_data_count_witness :
  ∃ s',
    process_webhook_data opaque_str t_2026_02_23
      [step_count; undated; heart_rate; heart_rate] empty_session
    = (Return (length (filter (fun m => date_parses opaque_str m)
                         [step_count; undated; heart_rate; heart_rate])), s')
    ∧ length (filter (fun m => date_parses opaque_str m)
                [step_count; undated; heart_rate; heart_rate])
      = length [step_count; undated; heart_rate; heart_rate]
        - length (filter (fun m => ¬ date_parses opaque_str m)
                    [step_count; undated; heart_rate; heart_rate]).
Proof.
  apply (process_webhook_data_count opaque_str t_2026_02_23
           [step_count; undated; heart_rate; heart_rate] empty_session).
  repeat constructor.
Defined.

Example webhook_count_example :
  (process_webhook_data opaque_str t_2026_02_23
     [step_count; undated; heart_rate; heart_rate] empty_session).1 = Return 3
  ∧ source_id <$> data_items
      (process_webhook_data opaque_str t_2026_02_23
         [step_count; undated; heart_rate; heart_rate] empty_session).2
    = ["stepcount-20260221-0000"; "heartrate-20260221-1030"].
Proof. split; reflexivity. Qed.

(** * Further properties of the code *)

(** ** The upsert engine: what it leaves alone, and its trace *)

Lemma filter_ext_elem {A} (P Q : A → Prop) `{∀ x, Decision (P x)} `{∀ x, Decision (Q x)}
  (l : list A) :
  (∀ x, x ∈ l → (P x ↔ Q x)) → filter P l = filter Q l.
Proof.
  induction l as [|x l IH]; intros Hl; [done |].
  rewrite !filter_cons.
  rewrite IH by (intros y Hy; apply Hl; by right).
  destruct (decide (P x)) as [HP|HP], (decide (Q x)) as [HQ|HQ]; try done;
    exfalso; apply (Hl x) in HP || apply HP, (Hl x); try done; left.
Qed.

Lemma keys_upsert_all now ps : ∀ t,
  NoDup (row_key <$> ps) →
  row_key <$> upsert_all now ps t
  = (row_key <$> t) ++ filter (fun k => k ∉ row_key <$> t) (row_key <$> ps).
Proof.
  induction ps as [|p ps IH]; intros t Hnd.
  - simpl. by rewrite app_nil_r.
  - rewrite fmap_cons in Hnd. apply NoDup_cons in Hnd as [Hp Hnd].
    cbn [upsert_all foldl]. fold (upsert_all now ps (insert_on_conflict now p t)).
    rewrite IH by done. rewrite keys_insert, fmap_cons, filter_cons.
    destruct (decide (row_key p ∈ row_key <$> t)) as [Hin|Hin].
    + rewrite decide_False by tauto. done.
    + rewrite decide_True by done. rewrite <- app_assoc. cbn [app]. f_equal. f_equal.
      apply filter_ext_elem. intros k Hk. rewrite elem_of_app, list_elem_of_singleton.
      split; [tauto |]. intros H [?| ->]; done.
Qed.

(** ** The batching loop *)

Lemma batches_lookup {A} size (l : list A) i :
  i < Nat.div (length l + size - 1) size →
  batches size l !! i = Some (take size (drop (i * size) l)).
Proof.
  intros Hi. unfold batches, range_step.
  rewrite !list_lookup_fmap, lookup_seq_lt by done. reflexivity.
Qed.

Lemma length_batches {A} size (l : list A) :
  length (batches size l) = Nat.div (length l + size - 1) size.
Proof. unfold batches, range_step. by rewrite !length_fmap, length_seq. Qed.

Lemma batches_chunk {A} size (l : list A) i b :
  0 < size → batches size l !! i = Some b →
  b = take size (drop (i * size) l)
  ∧ i * size < length l
  ∧ (S i < length (batches size l) → S i * size < length l).
Proof.
  intros Hsize Hb.
  assert (Hi : i < Nat.div (length l + size - 1) size).
  { rewrite <- length_batches. by eapply lookup_lt_Some. }
  rewrite batches_lookup in Hb by done. injection Hb as <-.
  rewrite length_batches.
  pose proof (Nat.Div0.mul_div_le (length l + size - 1) size) as Hle.
  split; [done |]. split; [nia | intros; nia].
Qed.

Lemma batches_bounds {A} size (l : list A) :
  0 < size → Forall (fun b => 1 ≤ length b ≤ size) (batches size l).
Proof.
  intros Hsize. apply Forall_lookup. intros i b Hb.
  destruct (batches_chunk size l i b Hsize Hb) as (-> & Hlt & _).
  rewrite length_take, length_drop. lia.
Qed.

(** X1.  The slices [db_items[i : i + size]], [i] in
    [range(0, len(db_items), size)], partition the list: put end to end they
    give it back, there are as many as [len(db_items) / size] rounded up
    (none for the empty list), each holds between one and [size] elements,
    and all but the last hold [size]. *)
Theorem batches_partition {A} (size : nat) (l : list A) :
  0 < size →
  concat (batches size l) = l
  ∧ length (batches size l) = Nat.div (length l + size - 1) size
  ∧ Forall (fun b => 1 ≤ length b ≤ size) (batches size l)
  ∧ ∀ i b, batches size l !! i = Some b → S i < length (batches size l) →
           length b = size.
Proof.
  intros Hsize. split_and!.
  - by apply concat_batches.
  - apply length_batches.
  - by apply batches_bounds.
  - intros i b Hb Hi.
    destruct (batches_chunk size l i b Hsize Hb) as (-> & _ & Hlt).
    specialize (Hlt Hi). rewrite length_take, length_drop. simpl in Hlt. lia.
Qed.

Lemma batches_partition_witness :
  concat (batches 2 [1; 2; 3; 4; 5]) = [1; 2; 3; 4; 5]
  ∧ length (batches 2 [1; 2; 3; 4; 5]) = Nat.div (length [1; 2; 3; 4; 5] + 2 - 1) 2
  ∧ Forall (fun b => 1 ≤ length b ≤ 2) (batches 2 [1; 2; 3; 4; 5])
  ∧ ∀ i b, batches 2 [1; 2; 3; 4; 5] !! i = Some b →
           S i < length (batches 2 [1; 2; 3; 4; 5]) →
           length b = 2.
Proof. apply (batches_partition 2 [1; 2; 3; 4; 5]). lia. Defined.

(** ** A loop of statements over the batches *)

Section BatchLoop.

Variable exec : list row → M unit.

Hypothesis exec_step : ∀ b s r s',
  exec b s = (r, s') →
  sync_state s' = sync_state s
  ∧ calls s' = calls s ++ [ExecuteInsertDataItems (length b)]
  ∧ (∀ e, r = Raise e → data_items s' = data_items s).

Lemma for_each_trace bs : ∀ s r s',
  for_each bs exec s = (r, s') →
  sync_state s' = sync_state s
  ∧ match r with
    | Return _ =>
        calls s' = calls s ++ ((fun b => ExecuteInsertDataItems (length b)) <$> bs)
    | Raise _ =>
        ∃ n, n < length bs
             ∧ calls s' = calls s
                 ++ ((fun b => ExecuteInsertDataItems (length b)) <$> take (S n) bs)
             ∧ (n = 0 → data_items s' = data_items s)
    end.
Proof.
  induction bs as [|b bs IH]; intros s r s' H.
  - injection H as <- <-. by rewrite app_nil_r.
  - cbn [for_each] in H. unfold mbind, M_bind, bind in H.
    destruct (exec b s) as [[[]|e] s1] eqn:E.
    + destruct (exec_step _ _ _ _ E) as (Hs & Hc & _).
      destruct (IH _ _ _ H) as (Hs' & Hr). split; [congruence |].
      destruct r as [?|e'].
      * rewrite Hr, Hc, <- app_assoc. done.
      * destruct Hr as (n & Hn & Hcs & _). exists (S n). simpl. split; [lia |].
        split; [| done]. rewrite Hcs, Hc, <- app_assoc. done.
    + injection H as <- <-. destruct (exec_step _ _ _ _ E) as (Hs & Hc & Hd).
      split; [done |]. exists 0. cbn [length take fmap list_fmap].
      split; [lia |]. rewrite take_0. eauto.
Qed.

End BatchLoop.

Lemma execute_insert_step now b s r s' :
  execute_insert now b s = (r, s') →
  sync_state s' = sync_state s
  ∧ calls s' = calls s ++ [ExecuteInsertDataItems (length b)]
  ∧ (∀ e, r = Raise e → data_items s' = data_items s).
Proof.
  unfold execute_insert. unfold_M. simpl.
  destruct (insert_statement now b (data_items s)); intros [= <- <-]; done.
Qed.

Lemma execute_insert_nothing_step now b s r s' :
  execute_insert_nothing now b s = (r, s') →
  sync_state s' = sync_state s
  ∧ calls s' = calls s ++ [ExecuteInsertDataItems (length b)]
  ∧ (∀ e, r = Raise e → data_items s' = data_items s).
Proof.
  unfold execute_insert_nothing. unfold_M. simpl.
  destruct (insert_nothing_statement now b (data_items s)); intros [= <- <-]; done.
Qed.

(** ** What the dedup loop returns *)

Lemma dedup_loop_Return items : ∀ seen0 seen,
  dedup_loop seen0 items = Return seen →
  Forall (fun it => key_present it = true) items.
Proof.
  induction items as [|it items IH]; intros seen0 seen H; [done |].
  cbn [dedup_loop] in H. pose proof (item_key_cases it) as Hk.
  destruct (item_key it) as [k|e]; [| done].
  constructor; [done | by eapply IH].
Qed.

Lemma length_dict_set {K V} `{EqDecision K} (k : K) (v : V) d :
  length d ≤ length (dict_set k v d) ≤ S (length d).
Proof.
  induction d as [|[k' v'] d IH]; simpl; [lia |].
  case_decide; simpl; lia.
Qed.

Lemma length_dedup_loop items : ∀ seen0 seen,
  dedup_loop seen0 items = Return seen →
  length seen0 ≤ length seen ≤ length seen0 + length items.
Proof.
  induction items as [|it items IH]; intros seen0 seen H.
  - injection H as <-. simpl. lia.
  - cbn [dedup_loop] in H. destruct (item_key it) as [k|e]; [| done].
    apply IH in H. pose proof (length_dict_set k it seen0). simpl. lia.
Qed.

Lemma dedup_loop_entries items seen :
  dedup_loop [] items = Return seen →
  NoDup seen.*1
  ∧ (∀ kv, kv ∈ seen → kv.2 ∈ items ∧ item_key kv.2 = Return kv.1)
  ∧ (∀ k, dict_lookup k seen = last_with_key k items).
Proof.
  intros Hrun.
  destruct (dedup_loop_spec items [] (dedup_loop_Return _ _ _ Hrun))
    as (seen' & Hrun' & Hnd & Hin & Hlk).
  rewrite Hrun in Hrun'. injection Hrun' as <-. split_and!.
  - apply Hnd, NoDup_nil_2.
  - intros kv [H0|H]%Hin; [by apply elem_of_nil in H0 | done].
  - intros k. rewrite Hlk. by destruct (last_with_key k items).
Qed.

Lemma dedup_loop_Raise items : ∀ seen0 e,
  dedup_loop seen0 items = Raise e →
  Exists (fun it => key_present it = false) items
  ∧ ∃ k, e = KeyError k ∧ (k = "source" ∨ k = "source_id").
Proof.
  induction items as [|it items IH]; intros seen0 e H; [done |].
  cbn [dedup_loop] in H. pose proof (item_key_cases it) as Hk.
  destruct (item_key it) as [k|e'].
  - apply IH in H as [H1 H2]. split; [by right | done].
  - injection H as <-. destruct Hk as [Hk He]. split; [by left |].
    destruct He as [->| ->]; eauto.
Qed.

(** The rows made from the dedup dict have the keys of the dict, which are
    pairwise distinct. *)
Lemma seen_row_keys items seen :
  dedup_loop [] items = Return seen →
  (fun r => item_key (row_dict r)) <$> (prepare_row <$> seen.*2) = Return <$> seen.*1.
Proof.
  intros Hrun. destruct (dedup_loop_entries _ _ Hrun) as (_ & Hin & _).
  rewrite <- !list_fmap_compose. apply Forall_fmap_ext, Forall_forall.
  intros kv Hkv. simpl. rewrite item_key_prepare. by apply Hin.
Qed.

Lemma item_keys_tuples b ps :
  Forall2 (fun r p => identity_written (row_dict r) p) b ps →
  (fun r => item_key (row_dict r)) <$> b
  = (fun p => Return (lift_key (row_key p))) <$> ps.
Proof.
  induction 1 as [|r p b ps Hp _ IH]; [done |].
  rewrite !fmap_cons, IH. f_equal. by apply identity_written_key.
Qed.

Lemma NoDup_tuples_keys b ps :
  Forall2 (fun r p => identity_written (row_dict r) p) b ps →
  NoDup ((fun r => item_key (row_dict r)) <$> b) → NoDup (row_key <$> ps).
Proof.
  intros H Hnd. rewrite (item_keys_tuples _ _ H) in Hnd.
  rewrite (list_fmap_compose row_key (fun k => Return (lift_key k))) in Hnd.
  eapply (NoDup_fmap_1 (fun k => Return (lift_key k))), Hnd.
Qed.

(** The tuples of statements that succeeded on the chunks of a batch: each
    has the identity of the record it was made from, and its key. *)
Lemma chunks_identity now items seen pss :
  dedup_loop [] items = Return seen →
  Forall2 (fun b ps => statement_tuples now b = Return ps)
    (batches batch_size (prepare_row <$> seen.*2)) pss →
  Forall2 (fun kv p => identity_written kv.2 p ∧ kv.1 = lift_key (row_key p))
    seen (concat pss)
  ∧ NoDup (row_key <$> concat pss).
Proof.
  intros Hrun Hpss.
  destruct (dedup_loop_entries _ _ Hrun) as (Hnd & Hin & _).
  assert (Hid : Forall2 (fun r p => identity_written (row_dict r) p)
                  (prepare_row <$> seen.*2) (concat pss)).
  { rewrite <- (concat_batches batch_size (prepare_row <$> seen.*2))
      by (unfold batch_size; lia).
    apply Forall2_concat_lists. eapply Forall2_impl; [exact Hpss |].
    intros b ps. apply statement_tuples_identity. }
  split.
  - rewrite !Forall2_fmap_l in Hid.
    apply Forall2_same_length_lookup_2; [by eapply Forall2_length |].
    intros i kv p Hi Hp.
    pose proof (Forall2_lookup_lr _ _ _ _ _ _ Hid Hi Hp) as Hw. cbn in Hw.
    apply identity_written_prepare in Hw. split; [done |].
    destruct (Hin kv) as [_ Hk]; [by eapply list_elem_of_lookup_2 |].
    apply identity_written_key in Hw. congruence.
  - eapply NoDup_tuples_keys; [exact Hid |].
    rewrite (seen_row_keys _ _ Hrun).
    apply NoDup_fmap_2; [by intros ?? [= ->] | done].
Qed.

(** The keys of the tuples are the keys of the records. *)
Lemma proposed_keys items seen ps k :
  dedup_loop [] items = Return seen →
  Forall2 (fun kv p => kv.1 = lift_key (row_key p)) seen ps →
  k ∈ row_key <$> ps ↔ ∃ it, it ∈ items ∧ item_key it = Return (lift_key k).
Proof.
  intros Hrun Hps. destruct (dedup_loop_entries _ _ Hrun) as (Hnd & Hin & Hlk).
  assert (Hkeys : seen.*1 = lift_key <$> (row_key <$> ps)) by (by apply Forall2_keys).
  rewrite <- (list_elem_of_fmap_inj lift_key), <- Hkeys. split.
  - intros (kv & -> & Hkv)%list_elem_of_fmap. exists kv.2. by apply Hin.
  - intros (it & Hit & Hk).
    destruct (last_with_key_Some _ _ _ Hit Hk) as [it' Hit'].
    rewrite <- Hlk in Hit'.
    assert (Hel : (lift_key k, it') ∈ seen).
    { clear -Hit'. induction seen as [|[k' v'] d IH]; simpl in *; [done |].
      case_decide; [injection Hit' as ->; subst; left | right; auto]. }
    apply list_elem_of_fmap. by exists (lift_key k, it').
Qed.

(** ** A call of [upsert_items] that raises *)

Lemma failed_loop_sizes {A} (bs : list (list A)) n :
  n < length bs →
  (fun b => ExecuteInsertDataItems (length b)) <$> take (S n) bs
  = ExecuteInsertDataItems <$> (length <$> take (S n) bs)
  ∧ length <$> take (S n) bs ≠ [].
Proof.
  intros Hn. split.
  - exact (list_fmap_compose length ExecuteInsertDataItems _).
  - destruct bs; simpl in *; [lia | done].
Qed.

Lemma one_chunk items seen n :
  dedup_loop [] items = Return seen → length items ≤ batch_size →
  n < length (batches batch_size (prepare_row <$> seen.*2)) → n = 0.
Proof.
  intros Hrun Hlen Hn.
  unfold batches, range_step in Hn. rewrite !length_fmap, length_seq in Hn.
  apply length_dedup_loop in Hrun. simpl in Hrun.
  assert (Nat.div (length seen + batch_size - 1) batch_size ≤ 1); [| lia].
  unfold batch_size in *.
  apply Nat.lt_succ_r, Nat.Div0.div_lt_upper_bound. lia.
Qed.

(** X2.  When [upsert_items] raises, no [commit] was made: the calls made
    on the session are the [execute]s of the statements sent so far, the
    sync-state table is as it was, and so is [data_items] when the batch
    holds at most 2000 records, which go in one statement.  No statement
    was sent exactly when a record lacks the key [source] or [source_id]:
    the exception is then the [KeyError] of the dedup loop and the session
    is the one that was given.  Stated for batches in which no record holds
    [None] for [metadata]. *)
Theorem upsert_items_failure now items s e s' :
  Forall (fun it => document_given it = true) items →
  upsert_items now items s = (Raise e, s') →
  sync_state s' = sync_state s
  ∧ (length items ≤ batch_size → data_items s' = data_items s)
  ∧ ∃ sizes,
      calls s' = calls s ++ (ExecuteInsertDataItems <$> sizes)
      ∧ (sizes = [] ↔ Exists (fun it => key_present it = false) items)
      ∧ (sizes = [] →
           s' = s ∧ ∃ k, e = KeyError k ∧ (k = "source" ∨ k = "source_id")).
Proof.
  intros _. unfold upsert_items. destruct items as [|it items]; [done |].
  destruct (dedup_loop [] (it :: items)) as [seen|e0] eqn:Hrun.
  - unfold mbind, M_bind, bind.
    destruct (for_each _ _ s) as [[[]|e1] s1] eqn:E; [done |].
    intros [= <- <-].
    destruct (for_each_trace _ (execute_insert_step now) _ _ _ _ E)
      as (Hs & n & Hn & Hc & Hd).
    destruct (failed_loop_sizes _ n Hn) as [Hsz Hne].
    split_and!; [done | |].
    + intros Hlen. apply Hd. by eapply one_chunk.
    + eexists. split; [rewrite Hc, Hsz; reflexivity |]. split.
      * split; [done |]. intros Hex. apply dedup_loop_Return in Hrun.
        apply Exists_exists in Hex as (x & Hx & Hk). rewrite Forall_forall in Hrun.
        rewrite (Hrun x Hx) in Hk. done.
      * done.
  - intros [= <- <-]. apply dedup_loop_Raise in Hrun as (Hex & k & -> & Hk).
    split_and!; try done.
    exists []. split; [by rewrite app_nil_r |]. split; [done |]. eauto.
Qed.

Lemma upsert_items_failure_witness :
  (∅ : gmap string SyncState) = sync_state empty_session
  ∧ (length [item_without (Py "steps-20260221") Missing] ≤ batch_size
     → [] = data_items empty_session)
  ∧ ∃ sizes,
      [ExecuteInsertDataItems 1] = calls empty_session ++ (ExecuteInsertDataItems <$> sizes)
      ∧ (sizes = [] ↔ Exists (fun it => key_present it = false)
                        [item_without (Py "steps-20260221") Missing])
      ∧ (sizes = [] →
           {| data_items := []; sync_state := ∅; calls := [ExecuteInsertDataItems 1] |}
           = empty_session
           ∧ ∃ k, IntegrityError "null value in column violates not-null constraint"
                  = KeyError k ∧ (k = "source" ∨ k = "source_id")).
Proof.
  apply (upsert_items_failure t_2026_02_23 [item_without (Py "steps-20260221") Missing]
           empty_session
           (IntegrityError "null value in column violates not-null constraint")
           {| data_items := []; sync_state := ∅; calls := [ExecuteInsertDataItems 1] |}).
  - repeat constructor.
  - reflexivity.
Defined.

(** ** A call of [upsert_items] that returns *)

Lemma length_concat_sum {A} (ls : list (list A)) :
  length (concat ls) = sum_list (length <$> ls).
Proof. induction ls as [|l ls IH]; [done |]. simpl. rewrite length_app, IH. done. Qed.

Lemma dict_lookup_elem {K V} `{EqDecision K} (k : K) (v : V) d :
  dict_lookup k d = Some v → (k, v) ∈ d.
Proof.
  induction d as [|[k' v'] d IH]; simpl; [done |].
  case_decide; [intros [= ->]; subst; left | right; auto].
Qed.

Lemma length_seen_distinct items seen :
  dedup_loop [] items = Return seen →
  length seen = length (remove_dups (item_key <$> items)).
Proof.
  intros Hrun. destruct (dedup_loop_entries _ _ Hrun) as (Hnd & Hin & Hlk).
  rewrite <- (length_fmap fst), <- (length_fmap Return).
  apply Permutation_length, NoDup_Permutation.
  - apply NoDup_fmap_2; [by intros ?? [= ->] | done].
  - apply NoDup_remove_dups.
  - intros x. rewrite elem_of_remove_dups, !list_elem_of_fmap. split.
    + intros (k & -> & (kv & -> & Hkv)%list_elem_of_fmap).
      exists kv.2. destruct (Hin _ Hkv). done.
    + intros (it & -> & Hit).
      pose proof (dedup_loop_Return _ _ _ Hrun) as Hall.
      rewrite Forall_forall in Hall.
      destruct (key_present_item_key it (Hall _ Hit)) as [k Hk].
      exists k. split; [done |].
      destruct (last_with_key_Some k items it Hit Hk) as [it' Hit'].
      rewrite <- Hlk in Hit'. apply dict_lookup_elem in Hit'.
      apply list_elem_of_fmap. by exists (k, it').
Qed.

Lemma upsert_items_Return_trace now items s n s' :
  upsert_items now items s = (Return n, s') → items ≠ [] →
  ∃ seen,
    dedup_loop [] items = Return seen
    ∧ sync_state s' = sync_state s
    ∧ calls s' = calls s
        ++ ((fun b => ExecuteInsertDataItems (length b))
              <$> batches batch_size (prepare_row <$> seen.*2))
        ++ [Commit].
Proof.
  unfold upsert_items. destruct items as [|it items]; [done |]. intros H _.
  destruct (dedup_loop [] (it :: items)) as [seen|e0] eqn:Hrun; [| done].
  exists seen. split; [done |]. revert H. unfold mbind, M_bind, bind.
  destruct (for_each _ _ s) as [[[]|e1] s1] eqn:E; [| done].
  destruct (for_each_trace _ (execute_insert_step now) _ _ _ _ E) as (Hs & Hc).
  unfold_M. simpl. intros [= <- <-]. simpl. rewrite Hc, <- app_assoc. done.
Qed.

(** What a call that returned wrote: the tuples of its statements, one for
    each key of the batch, written one after the other. *)
Lemma upsert_items_returned now items s n s' :
  upsert_items now items s = (Return n, s') →
  ∃ seen ps,
    dedup_loop [] items = Return seen
    ∧ Forall2 (fun kv p => identity_written kv.2 p ∧ kv.1 = lift_key (row_key p)) seen ps
    ∧ NoDup (row_key <$> ps)
    ∧ data_items s' = upsert_all now ps (data_items s)
    ∧ sync_state s' = sync_state s.
Proof.
  unfold upsert_items. destruct items as [|it items].
  { intros [= <- <-]. exists [], []. split_and!; try done; constructor. }
  destruct (dedup_loop [] (it :: items)) as [seen|e0] eqn:Hrun; [| done].
  unfold mbind, M_bind, bind.
  destruct (for_each _ _ s) as [[[]|e1] s1] eqn:E; [| done].
  destruct (for_each_execute_Return _ _ _ _ E) as [pss Hpss].
  rewrite (for_each_execute _ _ _ _ Hpss) in E. injection E as <-.
  unfold_M. simpl. intros [= <- <-]. cbn [data_items sync_state].
  destruct (chunks_identity now (it :: items) seen pss Hrun) as [Hid Hnd].
  { eapply Forall2_impl; [exact Hpss | by intros ?? [? _]]. }
  exists seen, (concat pss). done.
Qed.

(** X3.  A call of [upsert_items] on a non-empty batch that returns has
    made one [execute] for every 2000 distinct keys, each statement with at
    least one row, and then one [commit], its last call.  The row counts of
    the statements add up to the number of distinct [(source, source_id)]
    keys of the batch; the value returned is the length of the batch, and
    the sync-state table is as it was. *)
Theorem upsert_items_trace now items s n s' :
  upsert_items now items s = (Return n, s') → items ≠ [] →
  ∃ sizes,
    n = length items
    ∧ calls s' = calls s ++ (ExecuteInsertDataItems <$> sizes) ++ [Commit]
    ∧ Forall (fun n => 1 ≤ n ≤ 2000) sizes
    ∧ sum_list sizes = length (remove_dups (item_key <$> items))
    ∧ length sizes
      = Nat.div (length (remove_dups (item_key <$> items)) + 1999) 2000
    ∧ sync_state s' = sync_state s.
Proof.
  intros Hup Hne.
  destruct (upsert_items_Return_trace _ _ _ _ _ Hup Hne) as (seen & Hrun & Hs & Hc).
  assert (Hsize : 0 < batch_size) by (unfold batch_size; lia).
  pose proof (concat_batches batch_size (prepare_row <$> seen.*2) Hsize) as Hcat.
  pose proof (length_batches batch_size (prepare_row <$> seen.*2)) as Hlen.
  pose proof (batches_bounds batch_size (prepare_row <$> seen.*2) Hsize) as Hall.
  assert (Hseen : length (prepare_row <$> seen.*2)
                  = length (remove_dups (item_key <$> items))).
  { rewrite !length_fmap. by apply length_seen_distinct. }
  exists (length <$> batches batch_size (prepare_row <$> seen.*2)).
  split_and!.
  - by eapply upsert_items_return_value.
  - rewrite Hc. do 2 f_equal.
    exact (list_fmap_compose length ExecuteInsertDataItems _).
  - apply Forall_fmap. exact Hall.
  - rewrite <- length_concat_sum, Hcat. exact Hseen.
  - rewrite length_fmap, Hlen, Hseen. unfold batch_size. f_equal. lia.
  - done.
Qed.

Lemma upsert_items_trace_witness :
  ∃ sizes,
    2 = length [steps_item "A" Missing; steps_item "B" Missing]
    ∧ calls (upsert_items t_2026_02_23 [steps_item "A" Missing; steps_item "B" Missing]
               session_with_steps).2
      = calls session_with_steps ++ (ExecuteInsertDataItems <$> sizes) ++ [Commit]
    ∧ Forall (fun n => 1 ≤ n ≤ 2000) sizes
    ∧ sum_list sizes
      = length (remove_dups (item_key <$> [steps_item "A" Missing; steps_item "B" Missing]))
    ∧ length sizes
      = Nat.div (length (remove_dups
                           (item_key <$> [steps_item "A" Missing; steps_item "B" Missing]))
                 + 1999) 2000
    ∧ sync_state (upsert_items t_2026_02_23
                    [steps_item "A" Missing; steps_item "B" Missing] session_with_steps).2
      = sync_state session_with_steps.
Proof.
  apply (upsert_items_trace t_2026_02_23 [steps_item "A" Missing; steps_item "B" Missing]
           session_with_steps 2
           (upsert_items t_2026_02_23 [steps_item "A" Missing; steps_item "B" Missing]
              session_with_steps).2).
  - reflexivity.
  - discriminate.
Defined.

(** ** What an upsert leaves alone *)

Lemma insert_on_conflict_lookup now p t i x :
  t !! i = Some x →
  ∃ y, insert_on_conflict now p t !! i = Some y
       ∧ identity_columns y = identity_columns x
       ∧ (y = x ∨ row_key p = row_key x).
Proof.
  revert i. induction t as [|x0 t IH]; intros i Hi; [done |].
  cbn [insert_on_conflict]. destruct (decide (row_key x0 = row_key p)) as [E|E].
  - destruct i as [|i]; simpl in *.
    + injection Hi as ->. eexists. split; [done |]. split; [done | by right].
    + exists x. eauto.
  - destruct i as [|i]; simpl in *.
    + injection Hi as ->. exists x. eauto.
    + by apply IH.
Qed.

Lemma upsert_all_lookup now ps : ∀ t i x,
  t !! i = Some x →
  ∃ y, upsert_all now ps t !! i = Some y
       ∧ identity_columns y = identity_columns x
       ∧ (y = x ∨ row_key x ∈ row_key <$> ps).
Proof.
  induction ps as [|p ps IH]; intros t i x Hi.
  - exists x. eauto.
  - destruct (insert_on_conflict_lookup now p t i x Hi) as (y & Hy & Hid & Hor).
    destruct (IH _ _ _ Hy) as (z & Hz & Hid' & Hor').
    exists z. split; [exact Hz |]. split; [congruence |].
    assert (Hk : row_key y = row_key x).
    { unfold identity_columns, row_key in *. congruence. }
    rewrite fmap_cons.
    destruct Hor' as [->|Hin]; [destruct Hor as [->|E] |].
    + by left.
    + right. rewrite <- E. left.
    + right. rewrite <- Hk. by right.
Qed.

(** X4.  An upsert that returns has deleted and moved no row: the table is
    no shorter, and a stored row stays at its position with its [source],
    [source_id], [category] and [item_type], which no entry of [set_] names;
    it is left as it was when no record of the batch has its key. *)
Theorem upsert_items_keeps_rows now items s n s' :
  upsert_items now items s = (Return n, s') →
  length (data_items s) ≤ length (data_items s')
  ∧ ∀ i x, data_items s !! i = Some x →
      ∃ y, data_items s' !! i = Some y
           ∧ source y = source x ∧ source_id y = source_id x
           ∧ category y = category x ∧ item_type y = item_type x
           ∧ ((∀ it, it ∈ items → item_key it ≠ Return (lift_key (row_key x)))
              → y = x).
Proof.
  intros (seen & ps & Hrun & Hps & _ & -> & _)%upsert_items_returned.
  split.
  { destruct (decide (length (data_items s) ≤ length (upsert_all now ps (data_items s))))
      as [?|Hlt]; [done |].
    destruct (lookup_lt_is_Some_2 (data_items s) (length (upsert_all now ps (data_items s))))
      as [x Hx]; [lia |].
    destruct (upsert_all_lookup now ps _ _ _ Hx) as (y & Hy & _).
    apply lookup_lt_Some in Hy. lia. }
  intros i x Hi.
  destruct (upsert_all_lookup now ps _ _ _ Hi) as (y & Hy & Hid & Hor).
  exists y. split; [exact Hy |]. unfold identity_columns in Hid.
  injection Hid as -> -> -> ->. split_and!; try done.
  intros Hno. destruct Hor as [->|Hin]; [done |].
  apply (proposed_keys items seen ps _ Hrun) in Hin as (it & Hit & Hk).
  - by destruct (Hno it Hit).
  - eapply Forall2_impl; [exact Hps | by intros ?? [_ ?]].
Qed.

Lemma upsert_items_keeps_rows_witness :
  length (data_items session_with_steps)
  ≤ length (data_items (upsert_items t_2026_02_23 [steps_item "A" Missing]
                          session_with_steps).2)
  ∧ ∀ i x, data_items session_with_steps !! i = Some x →
      ∃ y, data_items (upsert_items t_2026_02_23 [steps_item "A" Missing]
                         session_with_steps).2 !! i = Some y
           ∧ source y = source x ∧ source_id y = source_id x
           ∧ category y = category x ∧ item_type y = item_type x
           ∧ ((∀ it, it ∈ [steps_item "A" Missing]
                     → item_key it ≠ Return (lift_key (row_key x)))
              → y = x).
Proof.
  apply (upsert_items_keeps_rows t_2026_02_23 [steps_item "A" Missing] session_with_steps
           1 (upsert_items t_2026_02_23 [steps_item "A" Missing] session_with_steps).2).
  reflexivity.
Defined.

(** X5.  On a table that respects the unique index, the keys after an
    upsert that returns are the keys before it, in their order, followed by
    the keys of the batch that were not stored; the table respects the
    index again. *)
Theorem upsert_items_keys now items s n s' :
  upsert_items now items s = (Return n, s') →
  NoDup (row_key <$> data_items s) →
  ∃ fresh,
    row_key <$> data_items s' = (row_key <$> data_items s) ++ fresh
    ∧ NoDup (row_key <$> data_items s')
    ∧ ∀ k, k ∈ fresh ↔
           (k ∉ row_key <$> data_items s)
           ∧ ∃ it, it ∈ items ∧ item_key it = Return (lift_key k).
Proof.
  intros (seen & ps & Hrun & Hps & Hndps & -> & _)%upsert_items_returned Hnd.
  eexists. split_and!.
  - by apply keys_upsert_all.
  - by apply NoDup_upsert_all.
  - intros k. rewrite list_elem_of_filter.
    rewrite (proposed_keys items seen ps k Hrun); [done |].
    eapply Forall2_impl; [exact Hps | by intros ?? [_ ?]].
Qed.

Lemma upsert_items_keys_witness :
  ∃ fresh,
    row_key <$> data_items (upsert_items t_2026_02_23 [steps_item "A" Missing]
                              empty_session).2
    = (row_key <$> data_items empty_session) ++ fresh
    ∧ NoDup (row_key <$> data_items (upsert_items t_2026_02_23 [steps_item "A" Missing]
                                       empty_session).2)
    ∧ ∀ k, k ∈ fresh ↔
           (k ∉ row_key <$> data_items empty_session)
           ∧ ∃ it, it ∈ [steps_item "A" Missing] ∧ item_key it = Return (lift_key k).
Proof.
  apply (upsert_items_keys t_2026_02_23 [steps_item "A" Missing] empty_session
           1 (upsert_items t_2026_02_23 [steps_item "A" Missing] empty_session).2).
  - reflexivity.
  - apply NoDup_nil_2.
Defined.

(** ** Insertion of immutable records: [insert_if_not_exists] *)

Lemma insert_do_nothing_eq p t :
  insert_do_nothing p t =
  if decide (row_key p ∈ row_key <$> t) then t else t ++ [p].
Proof.
  induction t as [|x t IH]; [reflexivity |].
  cbn [insert_do_nothing]. rewrite fmap_cons.
  destruct (decide (row_key x = row_key p)) as [E|E].
  - rewrite decide_True; [done |]. rewrite E. left.
  - rewrite IH. destruct (decide (row_key p ∈ row_key <$> t)) as [Hin|Hin].
    + rewrite decide_True; [done | by right].
    + rewrite decide_False; [done |]. intros [?|?]%elem_of_cons; congruence.
Qed.

Lemma insert_all_nothing_eq ps : ∀ t,
  NoDup (row_key <$> ps) →
  insert_all_nothing ps t
  = t ++ filter (fun p => row_key p ∉ row_key <$> t) ps.
Proof.
  induction ps as [|p ps IH]; intros t Hnd.
  - simpl. by rewrite app_nil_r.
  - rewrite fmap_cons in Hnd. apply NoDup_cons in Hnd as [Hp Hnd].
    unfold insert_all_nothing. cbn [foldl]. fold (insert_all_nothing ps (insert_do_nothing p t)).
    rewrite IH by done. rewrite insert_do_nothing_eq, filter_cons.
    destruct (decide (row_key p ∈ row_key <$> t)) as [Hin|Hin].
    + rewrite decide_False by tauto. done.
    + rewrite decide_True by done. rewrite <- app_assoc. cbn [app]. do 2 f_equal.
      apply filter_ext_elem. intros q Hq. rewrite fmap_app, elem_of_app. cbn.
      rewrite list_elem_of_singleton. split; [tauto |]. intros H [?|E]; [done |].
      apply Hp. rewrite <- E. by apply list_elem_of_fmap_2.
Qed.

Lemma execute_insert_nothing_ok now b ps s :
  statement_tuples now b = Return ps →
  execute_insert_nothing now b s =
  (Return tt,
   {| data_items := insert_all_nothing ps (data_items s);
      sync_state := sync_state s;
      calls := calls s ++ [ExecuteInsertDataItems (length b)] |}).
Proof.
  intros Hps. unfold execute_insert_nothing, insert_nothing_statement. unfold_M. simpl.
  rewrite Hps. reflexivity.
Qed.

Lemma for_each_execute_nothing now bs pss : ∀ s,
  Forall2 (fun b ps => statement_tuples now b = Return ps) bs pss →
  for_each bs (execute_insert_nothing now) s =
  (Return tt,
   {| data_items := insert_all_nothing (concat pss) (data_items s);
      sync_state := sync_state s;
      calls := calls s ++ ((fun b => ExecuteInsertDataItems (length b)) <$> bs) |}).
Proof.
  intros s H. revert s. induction H as [|b ps bs pss Hb _ IH]; intros s.
  - simpl. rewrite app_nil_r. by destruct s.
  - cbn [for_each]. unfold mbind, M_bind, bind.
    rewrite (execute_insert_nothing_ok _ _ _ _ Hb), IH. simpl.
    unfold insert_all_nothing. rewrite foldl_app, <- app_assoc. reflexivity.
Qed.

Lemma insert_if_not_exists_ok now items s :
  Forall (fun it => storable it = true) items →
  uniform items = true →
  ∃ seen ps,
    dedup_loop [] items = Return seen
    ∧ Forall2 (fun kv p => written now kv.2 p ∧ kv.1 = lift_key (row_key p)) seen ps
    ∧ NoDup (row_key <$> ps)
    ∧ insert_if_not_exists now items s =
      (Return (length items),
       {| data_items := insert_all_nothing ps (data_items s);
          sync_state := sync_state s;
          calls := calls (upsert_items now items s).2 |}).
Proof.
  intros Hst Hun.
  destruct (chunks_ok now items Hst Hun) as (seen & pss & Hrun & Hb & Hps & Hnd).
  exists seen, (concat pss). split_and!; try done.
  destruct items as [|it items'].
  - simpl in Hrun. injection Hrun as <-. apply Forall2_nil_inv_l in Hps as ->.
    simpl. by destruct s.
  - unfold insert_if_not_exists, upsert_items. rewrite Hrun.
    unfold mbind, M_bind, bind.
    rewrite (for_each_execute _ _ _ _ Hb).
    rewrite (for_each_execute_nothing now _ pss).
    + unfold_M. reflexivity.
    + eapply Forall2_impl; [exact Hb | by intros ?? [? _]].
Qed.

Lemma written_last_with_key now items seen ps p :
  dedup_loop [] items = Return seen →
  Forall2 (fun kv p => written now kv.2 p ∧ kv.1 = lift_key (row_key p)) seen ps →
  NoDup (row_key <$> ps) → p ∈ ps →
  ∃ it, last_with_key (lift_key (row_key p)) items = Some it ∧ written now it p.
Proof.
  intros Hrun Hps Hnd Hp. destruct (dedup_loop_entries _ _ Hrun) as (_ & _ & Hlk).
  pose proof (find_row_proposed now seen ps (row_key p) Hps) as Hf.
  rewrite Hlk, (find_row_elem p ps Hnd Hp) in Hf.
  destruct (last_with_key (lift_key (row_key p)) items) as [it|]; [| done].
  destruct Hf as (p' & Hp' & [= <-]). eauto.
Qed.

Lemma written_keys now (seen : list ((option string * option string) * item)) ps :
  Forall2 (fun kv p => written now kv.2 p ∧ kv.1 = lift_key (row_key p)) seen ps →
  Forall2 (fun kv p => kv.1 = lift_key (row_key p)) seen ps.
Proof. intros H. eapply Forall2_impl; [exact H | by intros ?? [_ ?]]. Qed.

(** X6.  On a batch of records the store takes, all giving the same
    columns, [insert_if_not_exists] only appends.  The stored rows are as
    they were; each new row has a key that was not stored and is the last
    record of the batch with that key, written column by column; every key
    of the batch is stored afterwards, and the unique index is kept.  The
    call returns [len(items)]. *)
Theorem insert_if_not_exists_appends now items s :
  Forall (fun it => storable it = true) items →
  uniform items = true →
  ∃ s' new,
    insert_if_not_exists now items s = (Return (length items), s')
    ∧ data_items s' = data_items s ++ new
    ∧ sync_state s' = sync_state s
    ∧ NoDup (row_key <$> new)
    ∧ (NoDup (row_key <$> data_items s) → NoDup (row_key <$> data_items s'))
    ∧ (∀ p, p ∈ new →
         (row_key p ∉ row_key <$> data_items s)
         ∧ ∃ it, last_with_key (lift_key (row_key p)) items = Some it
                 ∧ written now it p)
    ∧ ∀ it k, it ∈ items → item_key it = Return (lift_key k) →
        k ∈ row_key <$> data_items s'.
Proof.
  intros Hst Hun.
  destruct (insert_if_not_exists_ok now items s Hst Hun)
    as (seen & ps & Hrun & Hps & Hnd & Hins).
  eexists _, _. split; [exact Hins |]. cbn [data_items sync_state].
  rewrite insert_all_nothing_eq by done.
  assert (Hnew : NoDup (row_key <$> filter (fun p => row_key p ∉ row_key <$> data_items s) ps)).
  { eapply sublist_NoDup; [exact Hnd |]. apply fmap_sublist, sublist_filter. }
  split_and!; try done.
  - intros Ht. rewrite fmap_app. apply NoDup_app. split_and!; [done | | done].
    intros k Hk (p & -> & [Hfresh _]%list_elem_of_filter)%list_elem_of_fmap. done.
  - intros p [Hfresh Hp]%list_elem_of_filter. split; [done |].
    by eapply written_last_with_key.
  - intros it k Hit Hk.
    assert (Hin : k ∈ row_key <$> ps).
    { apply (proposed_keys items seen ps k Hrun (written_keys _ _ _ Hps)). eauto. }
    rewrite fmap_app, elem_of_app.
    destruct (decide (k ∈ row_key <$> data_items s)) as [?|Hfresh]; [by left | right].
    apply list_elem_of_fmap in Hin as (p & -> & Hp).
    apply list_elem_of_fmap_2, list_elem_of_filter. done.
Qed.

Lemma insert_if_not_exists_appends_witness :
  ∃ s' new,
    insert_if_not_exists t_2026_02_23 [steps_item "A" Missing; steps_item "B" Missing]
      session_with_steps
    = (Return (length [steps_item "A" Missing; steps_item "B" Missing]), s')
    ∧ data_items s' = data_items session_with_steps ++ new
    ∧ sync_state s' = sync_state session_with_steps
    ∧ NoDup (row_key <$> new)
    ∧ (NoDup (row_key <$> data_items session_with_steps)
       → NoDup (row_key <$> data_items s'))
    ∧ (∀ p, p ∈ new →
         (row_key p ∉ row_key <$> data_items session_with_steps)
         ∧ ∃ it, last_with_key (lift_key (row_key p))
                   [steps_item "A" Missing; steps_item "B" Missing] = Some it
                 ∧ written t_2026_02_23 it p)
    ∧ ∀ it k, it ∈ [steps_item "A" Missing; steps_item "B" Missing] →
        item_key it = Return (lift_key k) →
        k ∈ row_key <$> data_items s'.
Proof.
  apply (insert_if_not_exists_appends t_2026_02_23
           [steps_item "A" Missing; steps_item "B" Missing] session_with_steps).
  - repeat constructor.
  - reflexivity.
Defined.

Lemma filter_none {A} (P : A → Prop) `{∀ x, Decision (P x)} (l : list A) :
  Forall (fun x => ¬ P x) l → filter P l = [].
Proof.
  induction 1 as [|x l Hx _ IH]; [done |].
  rewrite filter_cons, decide_False by done. exact IH.
Qed.

Lemma filter_all {A} (P : A → Prop) `{∀ x, Decision (P x)} (l : list A) :
  Forall P l → filter P l = l.
Proof.
  induction 1 as [|x l Hx _ IH]; [done |].
  rewrite filter_cons, decide_True by done. by rewrite IH.
Qed.

(** X7.  Inserting a second time a batch of records the store takes, all
    giving the same columns, changes no row of [data_items], [synced_at]
    included, and returns [len(items)] again. *)
Theorem insert_if_not_exists_twice now1 now2 items s :
  Forall (fun it => storable it = true) items →
  uniform items = true →
  ∃ s1 s2,
    insert_if_not_exists now1 items s = (Return (length items), s1)
    ∧ insert_if_not_exists now2 items s1 = (Return (length items), s2)
    ∧ data_items s2 = data_items s1
    ∧ sync_state s2 = sync_state s1.
Proof.
  intros Hst Hun.
  destruct (insert_if_not_exists_ok now1 items s Hst Hun)
    as (seen & ps & Hrun & Hps & Hnd & Hins).
  eexists.
  destruct (insert_if_not_exists_ok now2 items
              {| data_items := insert_all_nothing ps (data_items s);
                 sync_state := sync_state s;
                 calls := calls (upsert_items now1 items s).2 |} Hst Hun)
    as (seen' & qs & Hrun' & Hqs & Hnd' & Hins').
  rewrite Hrun in Hrun'. injection Hrun' as <-.
  eexists. split; [exact Hins |]. split; [exact Hins' |].
  cbn [data_items sync_state]. split; [| done].
  rewrite (insert_all_nothing_eq qs) by done.
  rewrite filter_none; [by rewrite app_nil_r |].
  apply Forall_forall. intros q Hq Hfresh. apply Hfresh.
  rewrite insert_all_nothing_eq, fmap_app, elem_of_app by done.
  assert (Hin : row_key q ∈ row_key <$> ps).
  { apply (proposed_keys items seen ps _ Hrun (written_keys _ _ _ Hps)).
    apply (proposed_keys items seen qs _ Hrun (written_keys _ _ _ Hqs)).
    by apply list_elem_of_fmap_2. }
  destruct (decide (row_key q ∈ row_key <$> data_items s)) as [?|Hno]; [by left | right].
  apply list_elem_of_fmap in Hin as (p & E & Hp). rewrite E.
  apply list_elem_of_fmap_2, list_elem_of_filter. split; [by rewrite <- E | done].
Qed.

Lemma insert_if_not_exists_twice_witness :
  ∃ s1 s2,
    insert_if_not_exists t_2026_02_22 [steps_item "A" Missing] empty_session
    = (Return (length [steps_item "A" Missing]), s1)
    ∧ insert_if_not_exists t_2026_02_23 [steps_item "A" Missing] s1
      = (Return (length [steps_item "A" Missing]), s2)
    ∧ data_items s2 = data_items s1
    ∧ sync_state s2 = sync_state s1.
Proof.
  apply (insert_if_not_exists_twice t_2026_02_22 t_2026_02_23
           [steps_item "A" Missing] empty_session).
  - repeat constructor.
  - reflexivity.
Defined.

Lemma insert_on_conflict_fresh now p t :
  row_key p ∉ row_key <$> t → insert_on_conflict now p t = t ++ [p].
Proof.
  induction t as [|x t IH]; intros Hp; [done |].
  rewrite fmap_cons, not_elem_of_cons in Hp. destruct Hp as [Hx Hp].
  cbn [insert_on_conflict]. rewrite decide_False by done. by rewrite IH.
Qed.

Lemma upsert_all_fresh now ps : ∀ t,
  NoDup (row_key <$> ps) →
  Forall (fun p => row_key p ∉ row_key <$> t) ps →
  upsert_all now ps t = t ++ ps.
Proof.
  induction ps as [|p ps IH]; intros t Hnd Hall.
  - simpl. by rewrite app_nil_r.
  - rewrite fmap_cons in Hnd. apply NoDup_cons in Hnd as [Hp Hnd].
    apply Forall_cons in Hall as [Hpt Hall].
    unfold upsert_all. cbn [foldl]. fold (upsert_all now ps (insert_on_conflict now p t)).
    rewrite insert_on_conflict_fresh by done.
    rewrite IH; [by rewrite <- app_assoc | done |].
    apply Forall_forall. intros q Hq. rewrite fmap_app, elem_of_app. cbn.
    rewrite list_elem_of_singleton. rewrite Forall_forall in Hall.
    intros [?|E]; [by eapply Hall |]. apply Hp. rewrite <- E. by apply list_elem_of_fmap_2.
Qed.

Lemma execute_insert_Raise now b e s :
  statement_tuples now b = Raise e →
  execute_insert now b s =
  (Raise e,
   {| data_items := data_items s;
      sync_state := sync_state s;
      calls := calls s ++ [ExecuteInsertDataItems (length b)] |}).
Proof.
  intros H. unfold execute_insert, insert_statement. unfold_M. simpl.
  by rewrite H.
Qed.

Lemma execute_insert_nothing_Raise now b e s :
  statement_tuples now b = Raise e →
  execute_insert_nothing now b s =
  (Raise e,
   {| data_items := data_items s;
      sync_state := sync_state s;
      calls := calls s ++ [ExecuteInsertDataItems (length b)] |}).
Proof.
  intros H. unfold execute_insert_nothing, insert_nothing_statement. unfold_M. simpl.
  by rewrite H.
Qed.

(** On chunks of pairwise distinct keys, none of them stored, the two loops
    end alike: both return, or both raise at the same chunk with the same
    exception, and they leave the same tables. *)
Lemma for_each_fresh_agree now bs : ∀ s1 s2,
  data_items s1 = data_items s2 → sync_state s1 = sync_state s2 →
  NoDup ((fun r => item_key (row_dict r)) <$> concat bs) →
  (∀ r k, r ∈ concat bs → item_key (row_dict r) = Return (lift_key k) →
          k ∉ row_key <$> data_items s1) →
  (for_each bs (execute_insert_nothing now) s1).1
  = (for_each bs (execute_insert now) s2).1
  ∧ data_items (for_each bs (execute_insert_nothing now) s1).2
    = data_items (for_each bs (execute_insert now) s2).2
  ∧ sync_state (for_each bs (execute_insert_nothing now) s1).2
    = sync_state (for_each bs (execute_insert now) s2).2.
Proof.
  induction bs as [|b bs IH]; intros s1 s2 Hd Hs Hnd Hfresh; [done |].
  cbn [concat] in Hnd, Hfresh. rewrite fmap_app in Hnd.
  apply NoDup_app in Hnd as (Hb & Hdisj & Hrest).
  cbn [for_each]. unfold mbind, M_bind, bind.
  destruct (statement_tuples now b) as [ps|e] eqn:Hps.
  - pose proof (statement_tuples_identity _ _ _ Hps) as Hid.
    pose proof (NoDup_tuples_keys _ _ Hid Hb) as Hndps.
    assert (Hall : Forall (fun p => row_key p ∉ row_key <$> data_items s1) ps).
    { apply Forall_forall. intros p Hp.
      apply list_elem_of_lookup in Hp as [i Hi].
      destruct (Forall2_lookup_r _ _ _ _ _ Hid Hi) as (r & Hr & Hw).
      eapply Hfresh; [| by apply identity_written_key].
      apply elem_of_app. left. by eapply list_elem_of_lookup_2. }
    rewrite (execute_insert_nothing_ok _ _ _ _ Hps), (execute_insert_ok _ _ _ _ Hps Hndps).
    apply IH; cbn [data_items sync_state]; [| done | done |].
    + rewrite <- Hd, insert_all_nothing_eq, upsert_all_fresh by done.
      by rewrite filter_all.
    + intros r k Hr Hk. rewrite insert_all_nothing_eq, filter_all by done.
      rewrite fmap_app, elem_of_app. intros [Hin|Hin].
      * eapply Hfresh; [| exact Hk | exact Hin]. apply elem_of_app. by right.
      * apply (Hdisj (Return (lift_key k))).
        -- rewrite (item_keys_tuples _ _ Hid).
           apply list_elem_of_fmap in Hin as (p & -> & Hp).
           apply list_elem_of_fmap. by exists p.
        -- apply list_elem_of_fmap. by exists r.
  - rewrite (execute_insert_nothing_Raise _ _ _ _ Hps), (execute_insert_Raise _ _ _ _ Hps).
    done.
Qed.

(** X8.  When no key of the batch is stored, [insert_if_not_exists] and
    [upsert_items] do the same: they return the same value and leave the
    same two tables. *)
Theorem insert_if_not_exists_fresh_keys now items s :
  Forall (fun it => well_formed it = true) items →
  (∀ it k, it ∈ items → item_key it = Return (lift_key k) →
           k ∉ row_key <$> data_items s) →
  (insert_if_not_exists now items s).1 = (upsert_items now items s).1
  ∧ data_items (insert_if_not_exists now items s).2
    = data_items (upsert_items now items s).2
  ∧ sync_state (insert_if_not_exists now items s).2
    = sync_state (upsert_items now items s).2.
Proof.
  intros _ Hfresh. unfold insert_if_not_exists, upsert_items.
  destruct items as [|it items]; [done |].
  destruct (dedup_loop [] (it :: items)) as [seen|e] eqn:Hrun; [| done].
  cbv zeta. unfold mbind, M_bind, bind.
  destruct (dedup_loop_entries _ _ Hrun) as (Hnd & Hin & _).
  assert (Hcat : concat (batches batch_size (prepare_row <$> seen.*2))
                 = prepare_row <$> seen.*2).
  { apply concat_batches. unfold batch_size. lia. }
  destruct (for_each_fresh_agree now (batches batch_size (prepare_row <$> seen.*2))
              s s eq_refl eq_refl) as (H1 & H2 & H3).
  { rewrite Hcat, (seen_row_keys _ _ Hrun).
    apply NoDup_fmap_2; [by intros ?? [= ->] | done]. }
  { rewrite Hcat. intros r k (it' & -> & (kv & -> & Hkv)%list_elem_of_fmap)%list_elem_of_fmap.
    rewrite item_key_prepare. intros Hk.
    destruct (Hin kv Hkv) as [Hit _]. by eapply Hfresh. }
  destruct (for_each _ (execute_insert_nothing now) s) as [[[]|e1] s1],
    (for_each _ (execute_insert now) s) as [[[]|e2] s2];
    cbn [fst snd] in H1, H2, H3; try done.
  cbn [fst snd]. injection H1 as ->. done.
Qed.

Lemma insert_if_not_exists_fresh_keys_witness :
  (insert_if_not_exists t_2026_02_23 [steps_item "A" Missing; steps_item "B" Missing]
     empty_session).1
  = (upsert_items t_2026_02_23 [steps_item "A" Missing; steps_item "B" Missing]
       empty_session).1
  ∧ data_items
      (insert_if_not_exists t_2026_02_23 [steps_item "A" Missing; steps_item "B" Missing]
         empty_session).2
    = data_items
        (upsert_items t_2026_02_23 [steps_item "A" Missing; steps_item "B" Missing]
           empty_session).2
  ∧ sync_state
      (insert_if_not_exists t_2026_02_23 [steps_item "A" Missing; steps_item "B" Missing]
         empty_session).2
    = sync_state
        (upsert_items t_2026_02_23 [steps_item "A" Missing; steps_item "B" Missing]
           empty_session).2.
Proof.
  apply (insert_if_not_exists_fresh_keys t_2026_02_23
           [steps_item "A" Missing; steps_item "B" Missing] empty_session).
  - repeat constructor.
  - intros it k _ _. apply not_elem_of_nil.
Defined.

(** X9.  When [insert_if_not_exists] raises, no [commit] was made: the
    calls made on the session are the [execute]s of the statements sent so
    far, the sync-state table is as it was, and so is [data_items] when the
    batch holds at most 2000 records.  No statement was sent exactly when a
    record lacks the key [source] or [source_id]: the exception is then the
    [KeyError] of the dedup loop and the session is the one that was given.
    Stated for batches in which no record holds [None] for [metadata]. *)
Theorem insert_if_not_exists_failure now items s e s' :
  Forall (fun it => document_given it = true) items →
  insert_if_not_exists now items s = (Raise e, s') →
  sync_state s' = sync_state s
  ∧ (length items ≤ batch_size → data_items s' = data_items s)
  ∧ ∃ sizes,
      calls s' = calls s ++ (ExecuteInsertDataItems <$> sizes)
      ∧ (sizes = [] ↔ Exists (fun it => key_present it = false) items)
      ∧ (sizes = [] →
           s' = s ∧ ∃ k, e = KeyError k ∧ (k = "source" ∨ k = "source_id")).
Proof.
  intros _. unfold insert_if_not_exists. destruct items as [|it items]; [done |].
  destruct (dedup_loop [] (it :: items)) as [seen|e0] eqn:Hrun.
  - unfold mbind, M_bind, bind.
    destruct (for_each _ _ s) as [[[]|e1] s1] eqn:E; [done |].
    intros [= <- <-].
    destruct (for_each_trace _ (execute_insert_nothing_step now) _ _ _ _ E)
      as (Hs & n & Hn & Hc & Hd).
    destruct (failed_loop_sizes _ n Hn) as [Hsz Hne].
    split_and!; [done | |].
    + intros Hlen. apply Hd. by eapply one_chunk.
    + eexists. split; [rewrite Hc, Hsz; reflexivity |]. split.
      * split; [done |]. intros Hex. apply dedup_loop_Return in Hrun.
        apply Exists_exists in Hex as (x & Hx & Hk). rewrite Forall_forall in Hrun.
        rewrite (Hrun x Hx) in Hk. done.
      * done.
  - intros [= <- <-]. apply dedup_loop_Raise in Hrun as (Hex & k & -> & Hk).
    split_and!; try done.
    exists []. split; [by rewrite app_nil_r |]. split; [done |]. eauto.
Qed.

Lemma insert_if_not_exists_failure_witness :
  sync_state session_with_steps = sync_state session_with_steps
  ∧ (length [steps_item "A" Missing; item_without Missing (Py "health")] ≤ batch_size
     → data_items session_with_steps = data_items session_with_steps)
  ∧ ∃ sizes,
      calls session_with_steps
      = calls session_with_steps ++ (ExecuteInsertDataItems <$> sizes)
      ∧ (sizes = [] ↔ Exists (fun it => key_present it = false)
                        [steps_item "A" Missing; item_without Missing (Py "health")])
      ∧ (sizes = [] →
           session_with_steps = session_with_steps
           ∧ ∃ k, KeyError "source_id" = KeyError k ∧ (k = "source" ∨ k = "source_id")).
Proof.
  apply (insert_if_not_exists_failure t_2026_02_23
           [steps_item "A" Missing; item_without Missing (Py "health")]
           session_with_steps (KeyError "source_id") session_with_steps).
  - repeat constructor.
  - reflexivity.
Defined.

(** ** A run whose [collect] returns, and what a run leaves alone *)

(** X10.  A run whose [collect] returns a [count] the column holds, with
    no transaction left in progress on the session (its last call is a
    [commit]), leaves the sync-state row of the collector with
    [status = "idle"], [items_synced = count], no [error_message] (that of
    an earlier failed run is cleared), the time of the second update as
    [last_sync_at] and the cursor [collect] left.  To what [collect] did,
    [run] adds one statement and one [commit]. *)
Theorem run_success_row c t0 t1 s count s2 :
  collect c (update_sync_state (collector_source c) t0 "running" None 0 None s).2
    = (Return count, s2) →
  committed s2 = true →
  int32 count = true →
  ∃ s' row_,
    run c t0 t1 s = (Return tt, s')
    ∧ sync_state s' !! collector_source c = Some row_
    ∧ status row_ = "idle"
    ∧ items_synced row_ = count
    ∧ error_message row_ = None
    ∧ last_sync_at row_ = Some t1
    ∧ cursor row_ = default [] (cursor <$> sync_state s2 !! collector_source c)
    ∧ data_items s' = data_items s2
    ∧ calls s' = calls s2 ++ [ExecuteInsertSyncState (collector_source c); Commit].
Proof.
  intros H _ _. rewrite run_eq. cbv zeta. rewrite H, update_sync_state_eq.
  eexists _, _. split; [reflexivity |]. fields.
  rewrite lookup_insert_eq. split_and!; reflexivity.
Qed.

Lemma run_success_row_witness :
  ∃ s' row_,
    run HealthWebhookCollector t_2026_02_22 t_2026_02_23 synced_whoop = (Return tt, s')
    ∧ sync_state s' !! collector_source HealthWebhookCollector = Some row_
    ∧ status row_ = "idle"
    ∧ items_synced row_ = 0%Z
    ∧ error_message row_ = None
    ∧ last_sync_at row_ = Some t_2026_02_23
    ∧ cursor row_
      = default []
          (cursor <$>
             sync_state
               (update_sync_state "health-webhook" t_2026_02_22 "running" None 0 None
                  synced_whoop).2 !! collector_source HealthWebhookCollector)
    ∧ data_items s'
      = data_items
          (update_sync_state "health-webhook" t_2026_02_22 "running" None 0 None
             synced_whoop).2
    ∧ calls s'
      = calls
          (update_sync_state "health-webhook" t_2026_02_22 "running" None 0 None
             synced_whoop).2
        ++ [ExecuteInsertSyncState (collector_source HealthWebhookCollector); Commit].
Proof.
  apply (run_success_row HealthWebhookCollector t_2026_02_22 t_2026_02_23 synced_whoop
           0%Z
           (update_sync_state "health-webhook" t_2026_02_22 "running" None 0 None
              synced_whoop).2);
    reflexivity.
Defined.

(** X11.  Of its own, [run] writes the sync-state row of its collector and
    nothing else: the row of any other source and the table [data_items]
    are after the first update what they were, and after the run what
    [collect] left. *)
Theorem run_own_row_only c t0 t1 s src' :
  src' ≠ collector_source c →
  let s1 := (update_sync_state (collector_source c) t0 "running" None 0 None s).2 in
  sync_state s1 !! src' = sync_state s !! src'
  ∧ data_items s1 = data_items s
  ∧ sync_state (run c t0 t1 s).2 !! src' = sync_state (collect c s1).2 !! src'
  ∧ data_items (run c t0 t1 s).2 = data_items (collect c s1).2.
Proof.
  intros Hne s1. subst s1. rewrite run_eq. cbv zeta.
  rewrite (update_sync_state_eq _ t0). fields.
  rewrite lookup_insert_ne by done. split; [done |]. split; [done |].
  destruct (collect c _) as [[count|e] s2]; rewrite update_sync_state_eq; fields;
    by rewrite lookup_insert_ne.
Qed.

Lemma run_own_row_only_witness :
  let s1 := (update_sync_state (collector_source HealthWebhookCollector) t_2026_02_22
               "running" None 0 None synced_whoop).2 in
  sync_state s1 !! "whoop" = sync_state synced_whoop !! "whoop"
  ∧ data_items s1 = data_items synced_whoop
  ∧ sync_state (run HealthWebhookCollector t_2026_02_22 t_2026_02_23 synced_whoop).2
      !! "whoop"
    = sync_state (collect HealthWebhookCollector s1).2 !! "whoop"
  ∧ data_items (run HealthWebhookCollector t_2026_02_22 t_2026_02_23 synced_whoop).2
    = data_items (collect HealthWebhookCollector s1).2.
Proof.
  apply (run_own_row_only HealthWebhookCollector t_2026_02_22 t_2026_02_23 synced_whoop
           "whoop").
  discriminate.
Defined.

(** X12.  When [collect] leaves the sync-state row of its collector alone,
    a run keeps the stored cursor and [next_sync_at], whether [collect]
    returns or raises. *)
Theorem run_keeps_cursor c t0 t1 s :
  (∀ s0, sync_state (collect c s0).2 !! collector_source c
         = sync_state s0 !! collector_source c) →
  (get_cursor (collector_source c) (run c t0 t1 s).2).1
    = (get_cursor (collector_source c) s).1
  ∧ (x ← sync_state (run c t0 t1 s).2 !! collector_source c; next_sync_at x)
    = (x ← sync_state s !! collector_source c; next_sync_at x).
Proof.
  intros Hcol. rewrite !get_cursor_eq. cbn [fst]. rewrite run_eq. cbv zeta.
  specialize (Hcol (update_sync_state (collector_source c) t0 "running" None 0 None s).2).
  rewrite (update_sync_state_eq _ t0) in Hcol |- *. fields.
  rewrite lookup_insert_eq in Hcol.
  destruct (collect c _) as [[count|e] s2]; rewrite update_sync_state_eq; fields;
    rewrite !lookup_insert_eq; unfold sync_row_after;
    cbn [fmap option_fmap option_map mbind option_bind cursor next_sync_at default];
    rewrite Hcol; cbn [fmap option_fmap option_map mbind option_bind cursor next_sync_at default];
    done.
Qed.

Lemma run_keeps_cursor_witness :
  (get_cursor (collector_source failing_collector)
     (run failing_collector t_2026_02_22 t_2026_02_23 synced_whoop).2).1
    = (get_cursor (collector_source failing_collector) synced_whoop).1
  ∧ (x ← sync_state (run failing_collector t_2026_02_22 t_2026_02_23 synced_whoop).2
           !! collector_source failing_collector; next_sync_at x)
    = (x ← sync_state synced_whoop !! collector_source failing_collector; next_sync_at x).
Proof.
  apply (run_keeps_cursor failing_collector t_2026_02_22 t_2026_02_23 synced_whoop).
  reflexivity.
Defined.

(** X13.  A run of [HealthWebhookCollector], whose [collect] fetches
    nothing, writes no data item: it makes the two sync-state statements,
    each committed, and leaves the row of ["health-webhook"] idle with no
    item synced, no error and the cursor it had. *)
Theorem run_health_webhook_collector t0 t1 s :
  ∃ row_,
    run HealthWebhookCollector t0 t1 s =
    (Return tt,
     {| data_items := data_items s;
        sync_state := <["health-webhook" := row_]> (sync_state s);
        calls := calls s ++ [ExecuteInsertSyncState "health-webhook"; Commit;
                             ExecuteInsertSyncState "health-webhook"; Commit] |})
    ∧ status row_ = "idle"
    ∧ items_synced row_ = 0%Z
    ∧ error_message row_ = None
    ∧ last_sync_at row_ = Some t1
    ∧ cursor row_ = default [] (cursor <$> sync_state s !! "health-webhook").
Proof.
  eexists. rewrite run_eq. cbv zeta.
  rewrite (update_sync_state_eq _ t0).
  cbn [collect HealthWebhookCollector collector_source snd]. unfold mret, M_ret, ret.
  rewrite update_sync_state_eq. fields. rewrite insert_insert_eq, <- app_assoc.
  split; [reflexivity |]. fields. rewrite lookup_insert_eq. cbn. done.
Qed.

(** ** Successive updates of the sync state *)

(** X14.  After two calls of [update_sync_state] the row of the source holds
    the status, error, count and time of the second, and as cursor the last
    one that was passed (the stored one when neither call passed any);
    [next_sync_at] is the stored one: the tracker never writes it.  The rows
    of the other sources and [data_items] are as they were, and each call
    made one statement and one [commit]. *)
Theorem update_sync_state_twice src t1 st1 e1 n1 c1 t2 st2 e2 n2 c2 s :
  ∃ s2,
    (update_sync_state src t1 st1 e1 n1 c1;;
     update_sync_state src t2 st2 e2 n2 c2) s = (Return tt, s2)
    ∧ sync_state s2 !! src
      = Some {| last_sync_at := Some t2;
                next_sync_at := x ← sync_state s !! src; next_sync_at x;
                cursor := match c2, c1 with
                          | Some c, _ => c
                          | None, Some c => c
                          | None, None => default [] (cursor <$> sync_state s !! src)
                          end;
                status := st2;
                error_message := e2;
                items_synced := n2 |}
    ∧ (∀ src', src' ≠ src → sync_state s2 !! src' = sync_state s !! src')
    ∧ data_items s2 = data_items s
    ∧ calls s2 = calls s ++ [ExecuteInsertSyncState src; Commit;
                             ExecuteInsertSyncState src; Commit].
Proof.
  eexists. unfold mbind, M_bind, bind.
  rewrite (update_sync_state_eq _ t1), update_sync_state_eq. fields.
  split; [reflexivity |]. fields. rewrite insert_insert_eq, lookup_insert_eq, <- app_assoc.
  split_and!; try done.
  - unfold sync_row_after. rewrite lookup_insert_eq. cbn. by destruct c2, c1.
  - intros src' Hne. by rewrite lookup_insert_ne.
Qed.

(** ** The key the webhook derives for a metric *)

Lemma str_length_app (a b : string) :
  String.length (a +:+ b) = String.length a + String.length b.
Proof. induction a as [|c a IH]; simpl; [done | by rewrite IH]. Qed.

Lemma str_app_inj_l (a b c d : string) :
  String.length a = String.length c → a +:+ b = c +:+ d → a = c ∧ b = d.
Proof.
  revert c. induction a as [|x a IH]; intros [|y c]; simpl; try done.
  intros [= Hlen] [= -> H]. destruct (IH _ Hlen H) as [-> ->]. done.
Qed.

Lemma str_app_inj_r (a b c d : string) :
  String.length b = String.length d → a +:+ b = c +:+ d → a = c ∧ b = d.
Proof.
  intros Hlen H. apply str_app_inj_l; [| done].
  apply (f_equal String.length) in H. rewrite !str_length_app in H. lia.
Qed.

Lemma zero_padded_length k : ∀ n, String.length (zero_padded k n) = k.
Proof.
  induction k as [|k IH]; intros n; [done |].
  change (zero_padded (S k) n)
    with (zero_padded k (n / 10) +:+ String (digit_char (n mod 10)) "").
  rewrite str_length_app, IH. simpl. lia.
Qed.

Lemma zero_padded_inj k n m :
  (0 ≤ n < 10 ^ Z.of_nat k)%Z → (0 ≤ m < 10 ^ Z.of_nat k)%Z →
  zero_padded k n = zero_padded k m → n = m.
Proof.
  intros Hn Hm E.
  pose proof (parse_digits_zero_padded k n 0%Z "" Hn) as H1.
  pose proof (parse_digits_zero_padded k m 0%Z "" Hm) as H2.
  rewrite E, H2 in H1. injection H1. lia.
Qed.

Lemma strftime_minute_length dt : String.length (strftime_minute dt) = 13.
Proof.
  unfold strftime_minute. rewrite !str_length_app, !zero_padded_length. done.
Qed.

Lemma strftime_minute_inj dt1 dt2 :
  valid_date (year dt1) (month dt1) (day dt1) = true →
  valid_time (hour dt1) (minute dt1) (second dt1) (microsecond dt1) = true →
  valid_date (year dt2) (month dt2) (day dt2) = true →
  valid_time (hour dt2) (minute dt2) (second dt2) (microsecond dt2) = true →
  strftime_minute dt1 = strftime_minute dt2 →
  year dt1 = year dt2 ∧ month dt1 = month dt2 ∧ day dt1 = day dt2
  ∧ hour dt1 = hour dt2 ∧ minute dt1 = minute dt2.
Proof.
  intros (Hy1 & Hm1 & Hd1)%valid_date_bounds (Hh1 & Hi1 & _)%valid_time_bounds
         (Hy2 & Hm2 & Hd2)%valid_date_bounds (Hh2 & Hi2 & _)%valid_time_bounds.
  unfold strftime_minute. intros H.
  apply str_app_inj_l in H as [E1 H]; [| by rewrite !zero_padded_length].
  apply str_app_inj_l in H as [E2 H]; [| by rewrite !zero_padded_length].
  apply str_app_inj_l in H as [E3 H]; [| by rewrite !zero_padded_length].
  apply (str_app_inj_l "-" _ "-") in H as [_ H]; [| done].
  apply str_app_inj_l in H as [E4 E5]; [| by rewrite !zero_padded_length].
  split_and!; eapply zero_padded_inj; eauto.
Qed.

Lemma source_id_inj ty1 dt1 ty2 dt2 :
  str_lower ty1 +:+ "-" +:+ strftime_minute dt1
  = str_lower ty2 +:+ "-" +:+ strftime_minute dt2 →
  str_lower ty1 = str_lower ty2 ∧ strftime_minute dt1 = strftime_minute dt2.
Proof.
  intros H. rewrite <- !str_app_assoc in H.
  apply str_app_inj_r in H as [H E]; [| by rewrite !strftime_minute_length].
  apply str_app_inj_r in H as [H _]; done.
Qed.

Lemma fromisoformat_valid s dt :
  fromisoformat s = Some dt →
  valid_date (year dt) (month dt) (day dt) = true
  ∧ valid_time (hour dt) (minute dt) (second dt) (microsecond dt) = true.
Proof.
  unfold fromisoformat.
  destruct (parse_isoformat_date s) as [[[[y m] d] rest]|]; [| done]. cbn.
  destruct (match rest with "" => _ | String _ tstr => _ end)
    as [[[[[h mi] sec] us] tz]|]; [| done]. cbn.
  destruct (valid_date y m d) eqn:E1; [| done].
  destruct (valid_time h mi sec us) eqn:E2; [| done].
  intros [= <-]. done.
Qed.

(** ** The webhook normaliser: keys, rows and failures *)

Section WebhookRows.

Variable py_str : json -> string.

Lemma parse_date_valid v dt :
  parse_date py_str v = DateOk dt →
  valid_date (year dt) (month dt) (day dt) = true
  ∧ valid_time (hour dt) (minute dt) (second dt) (microsecond dt) = true.
Proof.
  assert (Hiso : ∀ o, of_iso o = DateOk dt → o = Some dt).
  { intros [dt'|]; [by intros [= ->] | done]. }
  unfold parse_date. destruct v as [| | | |s|xs|kvs]; try done.
  - destruct (str_contains "T" s); intros H%Hiso; by eapply fromisoformat_valid.
  - destruct (existsb _ xs); [done |]. intros H%Hiso. by eapply fromisoformat_valid.
  - destruct (existsb _ kvs); [done |]. intros H%Hiso. by eapply fromisoformat_valid.
Qed.

Lemma parse_date_raises v e :
  parse_date py_str v = DateRaises e → ∃ msg, e = AttributeError msg.
Proof.
  unfold parse_date, of_iso. destruct v as [| | | |s|xs|kvs]; try done.
  - destruct (str_contains "T" s); destruct (fromisoformat _); done.
  - destruct (existsb _ xs); [intros [= <-]; eauto |]. by destruct (fromisoformat _).
  - destruct (existsb _ kvs); [intros [= <-]; eauto |]. by destruct (fromisoformat _).
Qed.

(** X15.  Two metrics are given the same key exactly when their types
    agree up to case and their dates agree up to the minute: the seconds,
    the microseconds and the UTC offset are no part of [source_id].  Stated
    for years from 1000 on, which [%Y] writes on four digits on every
    platform, and for types that are ASCII text, on which [lower] changes
    the letters A to Z only. *)
Theorem webhook_key_collision m1 dt1 ty1 m2 dt2 ty2 :
  parse_date py_str (dict_get "date" (JStr "") m1) = DateOk dt1 →
  parse_date py_str (dict_get "date" (JStr "") m2) = DateOk dt2 →
  (1000 ≤ year dt1)%Z → (1000 ≤ year dt2)%Z →
  is_ascii_str ty1 = true → is_ascii_str ty2 = true →
  item_key (health_item py_str m1 dt1 ty1) = item_key (health_item py_str m2 dt2 ty2)
  ↔ str_lower ty1 = str_lower ty2
    ∧ year dt1 = year dt2 ∧ month dt1 = month dt2 ∧ day dt1 = day dt2
    ∧ hour dt1 = hour dt2 ∧ minute dt1 = minute dt2.
Proof.
  intros [Hd1 Ht1]%parse_date_valid [Hd2 Ht2]%parse_date_valid _ _ _ _.
  unfold item_key, health_item. cbn [i_source i_source_id getitem]. split.
  - intros [= H]. apply source_id_inj in H as [Hty H]. split; [done |].
    by apply strftime_minute_inj.
  - intros (Hty & Hy & Hm & Hd & Hh & Hmi). unfold strftime_minute.
    by rewrite Hty, Hy, Hm, Hd, Hh, Hmi.
Qed.

Lemma metrics_loop_Raise metrics : ∀ items,
  Exists (fun m => loop_accepts py_str m = false) metrics →
  ∃ msg, metrics_loop py_str items metrics = Raise (AttributeError msg).
Proof.
  induction metrics as [|m metrics IH]; intros items Hex; [by apply Exists_nil in Hex |].
  cbn [metrics_loop]. apply Exists_cons in Hex. unfold loop_accepts in Hex.
  destruct (parse_date py_str (dict_get "date" (JStr "") m)) as [dt| |e] eqn:E.
  - destruct (dict_get "type" (JStr "Unknown") m); eauto.
    apply IH. by destruct Hex.
  - apply IH. by destruct Hex.
  - apply parse_date_raises in E as [msg ->]. eauto.
Qed.

(** X16.  One metric on which the loop body raises (a date that is a list
    or a dict holding ["T"], or a type that is no [str] under a date that
    parses) makes [process_webhook_data] raise an [AttributeError] before
    any call on the session: nothing of the batch is stored. *)
Theorem process_webhook_data_aborts now metrics s :
  Exists (fun m => loop_accepts py_str m = false) metrics →
  ∃ msg, process_webhook_data py_str now metrics s = (Raise (AttributeError msg), s).
Proof.
  intros Hex. destruct (metrics_loop_Raise metrics [] Hex) as [msg Hmsg].
  exists msg. unfold process_webhook_data. by rewrite Hmsg.
Qed.

Lemma metrics_loop_none metrics : ∀ items,
  Forall (fun m => parse_date py_str (dict_get "date" (JStr "") m) = DateInvalid) metrics →
  metrics_loop py_str items metrics = Return items.
Proof.
  induction 1 as [|m metrics Hm _ IH]; [done |].
  cbn [metrics_loop]. by rewrite Hm.
Qed.

(** X17.  When every date of the batch is one no version of Python reads
    (the empty batch included), [process_webhook_data] returns 0 and makes
    no call on the session, not even a [commit]. *)
Theorem process_webhook_data_nothing_parses now metrics s :
  Forall (fun m => date_refused (dict_get "date" (JStr "") m) = true) metrics →
  process_webhook_data py_str now metrics s = (Return 0, s).
Proof.
  intros Hall. unfold process_webhook_data. rewrite metrics_loop_none; [done |].
  eapply Forall_impl; [exact Hall |]. intros m. apply date_refused_invalid.
Qed.

Lemma metrics_loop_items metrics : ∀ items out,
  metrics_loop py_str items metrics = Return out →
  ∃ new,
    out = items ++ new
    ∧ Forall (fun it => ∃ m dt ty,
                parse_date py_str (dict_get "date" (JStr "") m) = DateOk dt
                ∧ it = health_item py_str m dt ty) new
    ∧ ∀ m dt ty,
        m ∈ metrics →
        parse_date py_str (dict_get "date" (JStr "") m) = DateOk dt →
        dict_get "type" (JStr "Unknown") m = JStr ty →
        health_item py_str m dt ty ∈ new.
Proof.
  induction metrics as [|metric metrics IH]; intros items out; cbn [metrics_loop].
  - intros [= <-]. exists []. rewrite app_nil_r. split_and!; [done | done |].
    intros ??? H. by apply elem_of_nil in H.
  - destruct (parse_date py_str (dict_get "date" (JStr "") metric))
      as [dt| |e] eqn:E; [| | done].
    + destruct (dict_get "type" _ metric) as [| | | |ty| |] eqn:Ety; try done.
      intros (new & -> & Hall & Hin)%IH.
      exists (health_item py_str metric dt ty :: new).
      rewrite <- app_assoc. split_and!; [done | |].
      * constructor; [| done]. eauto.
      * intros m dt' ty' [->|Hm]%elem_of_cons Hdt Hty.
        -- rewrite E in Hdt. rewrite Ety in Hty. injection Hdt as <-.
           injection Hty as <-. left.
        -- right. by eapply Hin.
    + intros (new & -> & Hall & Hin)%IH. exists new. split_and!; [done | done |].
      intros m dt' ty' [->|Hm]%elem_of_cons Hdt Hty; [congruence |]. by eapply Hin.
Qed.

(** X18.  After a batch of metrics dealt with as modelled (a date that
    parses to a year of four digits or that no version of Python reads, a
    type that is ASCII text, values the store takes), each metric whose date
    parses has a row under its derived key.  That row has the time of the
    write as [synced_at], the tags [health], [webhook] and the type in lower
    case, [is_public] false, no content and no URL, whether the key was
    stored before or not. *)
Theorem webhook_row_written now metrics s m dt ty :
  Forall (fun m => metric_ok py_str m = true) metrics →
  m ∈ metrics →
  parse_date py_str (dict_get "date" (JStr "") m) = DateOk dt →
  dict_get "type" (JStr "Unknown") m = JStr ty →
  ∃ s' x,
    process_webhook_data py_str now metrics s
    = (Return (length (filter (fun m => date_parses py_str m) metrics)), s')
    ∧ find_row ("health-webhook", str_lower ty +:+ "-" +:+ strftime_minute dt)
        (data_items s') = Some x
    ∧ synced_at x = Some now
    ∧ tags x = Some ["health"; "webhook"; str_lower ty]
    ∧ is_public x = Some false
    ∧ content x = None
    ∧ source_url x = None.
Proof.
  intros Hall Hm Hdt Hty.
  destruct (metrics_loop_ok py_str metrics [] Hall) as (new & Hitems & Hlen & Hst & Hc).
  destruct (metrics_loop_items _ _ _ Hitems) as (new' & Hnew & Hshape & Hin).
  cbn [app] in Hnew. subst new'.
  destruct (upsert_items_rows now new s Hst (uniform_Forall _ _ Hc))
    as (s' & Hup & _ & _ & Hrows).
  set (k := ("health-webhook", str_lower ty +:+ "-" +:+ strftime_minute dt)).
  specialize (Hrows k).
  destruct (last_with_key_Some (lift_key k) new (health_item py_str m dt ty))
    as [it Hit]; [by eapply Hin | done |].
  rewrite Hit in Hrows. destruct Hrows as (p & Hp & Hfind).
  apply last_with_key_elem in Hit as [Hit Hk].
  rewrite Forall_forall in Hshape.
  destruct (Hshape _ Hit) as (m' & dt' & ty' & Hdt' & ->).
  injection Hk as Hk. apply source_id_inj in Hk as [Hlow _].
  destruct Hp as [_ _ _ _ _ _ Hcontent _ Htags Hpublic Hurl Hsynced].
  cbn in Hcontent, Htags, Hpublic, Hurl, Hsynced. rewrite Hlow in Htags.
  eexists s', _. split.
  { unfold process_webhook_data. rewrite Hitems. cbn [app].
    rewrite bind_ret, Hup, Hlen. reflexivity. }
  split; [exact Hfind |].
  destruct (find_row k (data_items s)); cbn; done.
Qed.

End WebhookRows.

Lemma webhook_key_collision_witness :
  item_key (health_item opaque_str heart_rate
              (mk_datetime 2026 2 21 10 30 0 0 utc) "HeartRate")
  = item_key (health_item opaque_str heart_rate_again
                (mk_datetime 2026 2 21 10 30 45 0 (Some 32400000000%Z)) "HEARTRATE")
  ↔ str_lower "HeartRate" = str_lower "HEARTRATE"
    ∧ year (mk_datetime 2026 2 21 10 30 0 0 utc)
      = year (mk_datetime 2026 2 21 10 30 45 0 (Some 32400000000%Z))
    ∧ month (mk_datetime 2026 2 21 10 30 0 0 utc)
      = month (mk_datetime 2026 2 21 10 30 45 0 (Some 32400000000%Z))
    ∧ day (mk_datetime 2026 2 21 10 30 0 0 utc)
      = day (mk_datetime 2026 2 21 10 30 45 0 (Some 32400000000%Z))
    ∧ hour (mk_datetime 2026 2 21 10 30 0 0 utc)
      = hour (mk_datetime 2026 2 21 10 30 45 0 (Some 32400000000%Z))
    ∧ minute (mk_datetime 2026 2 21 10 30 0 0 utc)
      = minute (mk_datetime 2026 2 21 10 30 45 0 (Some 32400000000%Z)).
Proof.
  apply (webhook_key_collision opaque_str heart_rate
           (mk_datetime 2026 2 21 10 30 0 0 utc) "HeartRate" heart_rate_again
           (mk_datetime 2026 2 21 10 30 45 0 (Some 32400000000%Z)) "HEARTRATE").
  - reflexivity.
  - reflexivity.
  - simpl. lia.
  - simpl. lia.
  - reflexivity.
  - reflexivity.
Defined.

Lemma process_webhook_data_aborts_witness :
  ∃ msg,
    process_webhook_data opaque_str t_2026_02_23 [step_count; untyped] empty_session
    = (Raise (AttributeError msg), empty_session).
Proof.
  apply (process_webhook_data_aborts opaque_str t_2026_02_23 [step_count; untyped]
           empty_session).
  right. left. reflexivity.
Defined.

Lemma process_webhook_data_nothing_parses_witness :
  process_webhook_data opaque_str t_2026_02_23 [undated; undated] session_with_steps
  = (Return 0, session_with_steps).
Proof.
  apply (process_webhook_data_nothing_parses opaque_str t_2026_02_23 [undated; undated]
           session_with_steps).
  repeat constructor.
Defined.

Lemma webhook_row_written_witness :
  ∃ s' x,
    process_webhook_data opaque_str t_2026_02_23
      [step_count; undated; heart_rate; heart_rate_again] empty_session
    = (Return (length (filter (fun m => date_parses opaque_str m)
                         [step_count; undated; heart_rate; heart_rate_again])), s')
    ∧ find_row ("health-webhook",
                str_lower "HeartRate" +:+ "-"
                +:+ strftime_minute (mk_datetime 2026 2 21 10 30 0 0 utc))
        (data_items s') = Some x
    ∧ synced_at x = Some t_2026_02_23
    ∧ tags x = Some ["health"; "webhook"; str_lower "HeartRate"]
    ∧ is_public x = Some false
    ∧ content x = None
    ∧ source_url x = None.
Proof.
  apply (webhook_row_written opaque_str t_2026_02_23
           [step_count; undated; heart_rate; heart_rate_again] empty_session
           heart_rate (mk_datetime 2026 2 21 10 30 0 0 utc) "HeartRate").
  - repeat constructor.
  - right. right. left.
  - reflexivity.
  - reflexivity.
Defined.

(** ** The API-key middleware *)

Lemma str_rstrip_cons strip_ c s :
  str_rstrip strip_ (String c s) =
  if decide (str_rstrip strip_ s = "")
  then (if strip_ c then "" else String c "")
  else String c (str_rstrip strip_ s).
Proof. cbn [str_rstrip]. by destruct (str_rstrip strip_ s). Qed.

Lemma str_rstrip_idemp strip_ s :
  str_rstrip strip_ (str_rstrip strip_ s) = str_rstrip strip_ s.
Proof.
  induction s as [|c s IH]; [done |]. rewrite (str_rstrip_cons _ c s).
  destruct (decide (str_rstrip strip_ s = "")) as [E|E].
  - destruct (strip_ c) eqn:Ec; [done |]. cbn. by rewrite Ec.
  - rewrite str_rstrip_cons, IH. by rewrite decide_False.
Qed.

Lemma str_rstrip_slashes n : str_rstrip (Ascii.eqb "/") (slashes n) = "".
Proof. induction n as [|n IH]; [done |]. cbn [slashes str_rstrip]. by rewrite IH. Qed.

Lemma str_rstrip_app_slashes s n :
  str_rstrip (Ascii.eqb "/") (s +:+ slashes n) = str_rstrip (Ascii.eqb "/") s.
Proof.
  induction s as [|c s IH].
  - cbn. apply str_rstrip_slashes.
  - cbn [String.append]. by rewrite !str_rstrip_cons, IH.
Qed.

Lemma str_rstrip_slashes_decompose s :
  ∃ n, s = str_rstrip (Ascii.eqb "/") s +:+ slashes n.
Proof.
  induction s as [|c s [n IH]]; [by exists 0 |].
  rewrite str_rstrip_cons. destruct (decide (str_rstrip _ s = "")) as [E|E].
  - rewrite E in IH. cbn in IH. destruct (Ascii.eqb "/" c) eqn:Ec.
    + apply Ascii.eqb_eq in Ec as <-. exists (S n). cbn. by rewrite <- IH.
    + exists n. cbn. by rewrite <- IH.
  - exists n. cbn. by rewrite <- IH.
Qed.

Lemma elem_of_PUBLIC_PATHS q :
  q ∈ _PUBLIC_PATHS ↔
  q = "/" ∨ q = "/health" ∨ q = "/docs" ∨ q = "/openapi.json" ∨ q = "/api/status"
  ∨ q = "/api/health/whoop/callback" ∨ q = "/api/health/withings/callback"
  ∨ q = "/api/health/webhook".
Proof. unfold _PUBLIC_PATHS. set_unfold. tauto. Qed.

Lemma str_rstrip_not_slash p : str_rstrip (Ascii.eqb "/") p ≠ "/".
Proof.
  intros E. pose proof (str_rstrip_idemp (Ascii.eqb "/") p) as Hid.
  rewrite E in Hid. discriminate.
Qed.

Lemma str_rstrip_public_path p :
  str_rstrip (Ascii.eqb "/") p ∈ _PUBLIC_PATHS ↔ public_path p.
Proof.
  split.
  - intros Hin. destruct (str_rstrip_slashes_decompose p) as [n Hn].
    exists (str_rstrip (Ascii.eqb "/") p), n.
    split_and!; [done | apply str_rstrip_not_slash | done].
  - intros (q & n & Hq & Hne & ->). rewrite str_rstrip_app_slashes.
    apply elem_of_PUBLIC_PATHS in Hq as Hq'.
    assert (str_rstrip (Ascii.eqb "/") q = q) as ->; [| done].
    destruct Hq' as [->|[->|[->|[->|[->|[->|[->| ->]]]]]]]; done.
Qed.

(** X19.  [path.rstrip("/") in _PUBLIC_PATHS] holds exactly for a public
    path other than ["/"] followed by any number of slashes.  Stripping
    never leaves ["/"], so that entry of the set is never met and a path
    made of slashes only is not let through; and a slash more at the end of
    a path changes nothing. *)
Theorem public_path_iff p :
  (str_rstrip (Ascii.eqb "/") p ∈ _PUBLIC_PATHS ↔ public_path p)
  ∧ str_rstrip (Ascii.eqb "/") p ≠ "/"
  ∧ str_rstrip (Ascii.eqb "/") (p +:+ "/") = str_rstrip (Ascii.eqb "/") p
  ∧ ∀ n, ¬ public_path (slashes n).
Proof.
  split_and!.
  - apply str_rstrip_public_path.
  - apply str_rstrip_not_slash.
  - apply (str_rstrip_app_slashes p 1).
  - intros n Hn. apply str_rstrip_public_path in Hn.
    rewrite str_rstrip_slashes in Hn. apply elem_of_PUBLIC_PATHS in Hn.
    destruct Hn as [?|[?|[?|[?|[?|[?|[?|?]]]]]]]; discriminate.
Qed.

Lemma compare_digest_ascii a b :
  is_ascii_str a = true → is_ascii_str b = true →
  compare_digest a b = Return (bool_decide (a = b)).
Proof.
  intros Ha Hb. unfold compare_digest. rewrite Ha, Hb. cbn. f_equal.
  destruct (String.eqb_spec a b).
  - by rewrite bool_decide_true.
  - by rewrite bool_decide_false.
Qed.

Lemma compare_digest_not_ascii a b :
  is_ascii_str a = false →
  compare_digest a b
  = Raise (PyException "TypeError"
             "comparing strings with non-ASCII characters is not supported").
Proof. intros Ha. unfold compare_digest. by rewrite Ha. Qed.

(** X20.  With an ASCII API key configured, [dispatch] hands the request
    on exactly when its path is public, its method is [OPTIONS], or its
    [X-API-Key] header is the key.  Any other request whose header is ASCII
    (or absent) is answered with the 401; one whose header is not ASCII
    makes [hmac.compare_digest] raise a [TypeError]. *)
Theorem dispatch_verdict settings req :
  api_key settings ≠ "" → is_ascii_str (api_key settings) = true →
  (dispatch settings req = Return CallNext
   ↔ public_path (url_path req) ∨ method req = "OPTIONS"
     ∨ headers_get "X-API-Key" "" (headers req) = api_key settings)
  ∧ (is_ascii_str (headers_get "X-API-Key" "" (headers req)) = true →
     dispatch settings req = Return CallNext
     ∨ dispatch settings req = Return unauthorized)
  ∧ (is_ascii_str (headers_get "X-API-Key" "" (headers req)) = false →
     ¬ public_path (url_path req) → method req ≠ "OPTIONS" →
     dispatch settings req
     = Raise (PyException "TypeError"
                "comparing strings with non-ASCII characters is not supported")).
Proof.
  intros Hkey Hascii. unfold dispatch.
  destruct (String.eqb_spec (api_key settings) ""); [done |].
  rewrite <- str_rstrip_public_path.
  destruct (String.eqb_spec (method req) "OPTIONS") as [Hm|Hm].
  { rewrite orb_true_r. split_and!; [| by left | done]. split; [by auto | done]. }
  rewrite orb_false_r.
  destruct (decide (str_rstrip (Ascii.eqb "/") (url_path req) ∈ _PUBLIC_PATHS))
    as [Hp|Hp].
  { rewrite bool_decide_true by done. split_and!; [| by left | done].
    split; [by auto | done]. }
  rewrite bool_decide_false by done.
  destruct (String.eqb_spec (headers_get "X-API-Key" "" (headers req)) "") as [E|E].
  { rewrite E. split_and!; [| by right | done].
    split; [done |]. intros [?|[?|?]]; congruence. }
  destruct (is_ascii_str (headers_get "X-API-Key" "" (headers req))) eqn:Ea.
  - rewrite compare_digest_ascii by done. case_bool_decide as Heq.
    + split_and!; [| by left | done]. split; [by auto | done].
    + split_and!; [| by right | done]. split; [done |]. intros [?|[?|?]]; congruence.
  - rewrite compare_digest_not_ascii by done. split_and!; [| done | done].
    split; [done |]. intros [?|[?|Heq]]; [done | done |]. congruence.
Qed.

Lemma dispatch_verdict_witness :
  (dispatch {| api_key := "s3cret"; cors_origins := "" |}
     {| url_path := "/api/items/"; method := "GET"; headers := [("x-api-key", "s3cret")] |}
   = Return CallNext
   ↔ public_path "/api/items/" ∨ "GET" = "OPTIONS"
     ∨ headers_get "X-API-Key" "" [("x-api-key", "s3cret")] = "s3cret")
  ∧ (is_ascii_str (headers_get "X-API-Key" "" [("x-api-key", "s3cret")]) = true →
     dispatch {| api_key := "s3cret"; cors_origins := "" |}
       {| url_path := "/api/items/"; method := "GET";
          headers := [("x-api-key", "s3cret")] |}
     = Return CallNext
     ∨ dispatch {| api_key := "s3cret"; cors_origins := "" |}
         {| url_path := "/api/items/"; method := "GET";
            headers := [("x-api-key", "s3cret")] |}
       = Return unauthorized)
  ∧ (is_ascii_str (headers_get "X-API-Key" "" [("x-api-key", "s3cret")]) = false →
     ¬ public_path "/api/items/" → "GET" ≠ "OPTIONS" →
     dispatch {| api_key := "s3cret"; cors_origins := "" |}
       {| url_path := "/api/items/"; method := "GET";
          headers := [("x-api-key", "s3cret")] |}
     = Raise (PyException "TypeError"
                "comparing strings with non-ASCII characters is not supported")).
Proof.
  apply (dispatch_verdict {| api_key := "s3cret"; cors_origins := "" |}
           {| url_path := "/api/items/"; method := "GET";
              headers := [("x-api-key", "s3cret")] |}).
  - discriminate.
  - reflexivity.
Defined.

(** ** The list of CORS origins *)

Lemma str_lstrip_fixed strip_ s :
  str_lstrip strip_ (str_lstrip strip_ s) = str_lstrip strip_ s.
Proof.
  induction s as [|c s IH]; [done |]. cbn [str_lstrip].
  destruct (strip_ c) eqn:E; [done |]. cbn [str_lstrip]. by rewrite E.
Qed.

Lemma str_lstrip_rstrip strip_ t :
  str_lstrip strip_ t = t →
  str_lstrip strip_ (str_rstrip strip_ t) = str_rstrip strip_ t.
Proof.
  destruct t as [|c t]; [done |]. cbn [str_lstrip].
  destruct (strip_ c) eqn:E.
  - intros H. apply (f_equal String.length) in H.
    assert (Hle : ∀ s, String.length (str_lstrip strip_ s) ≤ String.length s).
    { clear. induction s as [|c s IH]; cbn; [done |]. destruct (strip_ c); cbn; lia. }
    specialize (Hle t). cbn in H. lia.
  - intros _. rewrite str_rstrip_cons.
    destruct (decide (str_rstrip strip_ t = "")); rewrite ?E; cbn; by rewrite E.
Qed.

Lemma str_strip_idemp s : str_strip (str_strip s) = str_strip s.
Proof.
  unfold str_strip.
  rewrite (str_lstrip_rstrip is_space) by apply str_lstrip_fixed.
  apply str_rstrip_idemp.
Qed.

Lemma str_contains_lstrip strip_ c s :
  str_contains c s = false → str_contains c (str_lstrip strip_ s) = false.
Proof.
  induction s as [|c' s IH]; [done |]. cbn [str_lstrip].
  destruct (strip_ c'); [| done]. cbn. intros [_ H]%orb_false_elim. by apply IH.
Qed.

Lemma str_contains_rstrip strip_ c s :
  str_contains c s = false → str_contains c (str_rstrip strip_ s) = false.
Proof.
  induction s as [|c' s IH]; [done |]. cbn [str_contains].
  intros [Hc H]%orb_false_elim. rewrite str_rstrip_cons.
  destruct (decide (str_rstrip strip_ s = "")).
  - destruct (strip_ c'); [done |]. cbn. by rewrite Hc.
  - cbn. by rewrite Hc, IH.
Qed.

Lemma str_contains_strip c s :
  str_contains c s = false → str_contains c (str_strip s) = false.
Proof. intros H. by apply str_contains_rstrip, str_contains_lstrip. Qed.

Lemma str_split_comma_no_comma s :
  Forall (fun x => str_contains "," x = false) (str_split_comma s).
Proof.
  induction s as [|c s IH]; [by repeat constructor |]. cbn [str_split_comma].
  destruct (Ascii.eqb c ",") eqn:E; [by constructor |].
  destruct (str_split_comma s) as [|x xs]; [by repeat constructor; cbn; rewrite E |].
  apply Forall_cons in IH as [Hx Hxs]. constructor; [| done]. cbn. by rewrite E.
Qed.

Lemma str_split_comma_single x :
  str_contains "," x = false → str_split_comma x = [x].
Proof.
  induction x as [|c x IH]; [done |]. cbn [str_contains].
  intros [Hc H]%orb_false_elim. cbn [str_split_comma]. by rewrite Hc, IH.
Qed.

Lemma str_split_comma_app x rest :
  str_contains "," x = false →
  str_split_comma (x +:+ "," +:+ rest) = x :: str_split_comma rest.
Proof.
  induction x as [|c x IH]; [done |]. cbn [str_contains].
  intros [Hc H]%orb_false_elim.
  change (String c x +:+ "," +:+ rest) with (String c (x +:+ "," +:+ rest)).
  cbn [str_split_comma]. by rewrite Hc, IH.
Qed.

Lemma str_split_comma_join l :
  l ≠ [] → Forall (fun x => str_contains "," x = false) l →
  str_split_comma (join_comma l) = l.
Proof.
  induction l as [|x l IH]; [done |]. intros _ [Hx Hl]%Forall_cons.
  destruct l as [|y l]; [by apply str_split_comma_single |].
  change (join_comma (x :: y :: l)) with (x +:+ "," +:+ join_comma (y :: l)).
  rewrite str_split_comma_app by done. by rewrite IH.
Qed.

(** X21.  Every origin of [cors_origins_list] is non-empty, holds no
    comma, and has no white space at either end. *)
Theorem cors_origins_list_clean self :
  Forall clean_origin (cors_origins_list self).
Proof.
  unfold cors_origins_list. apply Forall_fmap, Forall_forall.
  intros o [Hne Ho]%list_elem_of_filter. cbn. split_and!.
  - done.
  - apply str_contains_strip.
    pose proof (str_split_comma_no_comma (cors_origins self)) as Hall.
    rewrite Forall_forall in Hall. by apply Hall.
  - apply str_strip_idemp.
Qed.

(** X22.  [cors_origins_list] reads back a list of origins joined with
    commas, when each of them is non-empty, without comma and without white
    space at its ends. *)
Theorem cors_origins_list_join self l :
  Forall clean_origin l →
  cors_origins self = join_comma l →
  cors_origins_list self = l.
Proof.
  intros Hl Hs. unfold cors_origins_list. rewrite Hs. clear Hs.
  assert (Hid : str_strip <$> filter (fun o => str_strip o ≠ "") l = l).
  { induction Hl as [|o l' (Hne & _ & Hstrip) _ IH]; [done |].
    rewrite filter_cons, decide_True by (by rewrite Hstrip).
    rewrite fmap_cons, IH. by rewrite Hstrip. }
  destruct l as [|x l']; [done |].
  rewrite str_split_comma_join; [exact Hid | done |].
  eapply Forall_impl; [exact Hl |]. by intros o (_ & ? & _).
Qed.

Lemma cors_origins_list_join_witness :
  cors_origins_list
    {| api_key := ""; cors_origins := "http://localhost:3000,https://hub.example.org" |}
  = ["http://localhost:3000"; "https://hub.example.org"].
Proof.
  apply (cors_origins_list_join
           {| api_key := "";
              cors_origins := "http://localhost:3000,https://hub.example.org" |}
           ["http://localhost:3000"; "https://hub.example.org"]).
  - repeat constructor; done.
  - reflexivity.
Defined.
